(** * CV metadata extraction ([parse_cv_metadata] of [app.py])

    A shallow embedding of the heuristic résumé parser: Python strings are
    sequences of Unicode code points, the [re] module is a backtracking
    matcher with ordered choice and greedy repetition, and the two things the
    function reads from its surroundings (the clock and the iteration order
    of hashed sets) are explicit in an environment record. *)

From Stdlib Require Import String Ascii DecimalString DecimalZ.
From Stdlib Require Import List NArith ZArith Bool Lia.
From Stdlib Require Import Permutation Sorting.Sorted.
Import ListNotations.

Set Implicit Arguments.

(** ** Python strings *)

(** A [str] is a sequence of code points. *)
Definition cp := N.
Definition str := list cp.

Definition str_eq_dec : forall a b : str, {a = b} + {a <> b} :=
  list_eq_dec N.eq_dec.

Definition str_eqb (a b : str) : bool :=
  if str_eq_dec a b then true else false.

(** String literals are written as in the source file and decoded from
    their UTF-8 bytes. *)
Fixpoint utf8_decode (bs : list N) : str :=
  match bs with
  | [] => []
  | b :: t =>
    if (b <? 128)%N then b :: utf8_decode t
    else if (b <? 224)%N then
      match t with
      | b1 :: t1 => ((b mod 32) * 64 + b1 mod 64)%N :: utf8_decode t1
      | _ => []
      end
    else if (b <? 240)%N then
      match t with
      | b1 :: b2 :: t2 =>
        ((b mod 16) * 4096 + (b1 mod 64) * 64 + b2 mod 64)%N :: utf8_decode t2
      | _ => []
      end
    else
      match t with
      | b1 :: b2 :: b3 :: t3 =>
        ((b mod 8) * 262144 + (b1 mod 64) * 4096 + (b2 mod 64) * 64 + b3 mod 64)%N
          :: utf8_decode t3
      | _ => []
      end
  end.

Fixpoint bytes_of_string (s : string) : list N :=
  match s with
  | EmptyString => []
  | String a s' => N_of_ascii a :: bytes_of_string s'
  end.

Definition u (s : string) : str := utf8_decode (bytes_of_string s).

(** *** The Unicode character database

    Python consults the Unicode database for case, digits and word
    characters.  Code points below 256 are tabulated here; the rest of the
    database is a parameter of the development. *)
Record UCD : Type := {
  ext_decimal : cp -> option N;      (* value of a decimal digit (category Nd) *)
  ext_isalnum : cp -> bool;          (* Py_UNICODE_ISALNUM *)
  ext_isupper : cp -> bool;          (* Py_UNICODE_ISUPPER *)
  ext_islower : cp -> bool;          (* Py_UNICODE_ISLOWER *)
  ext_istitle : cp -> bool;          (* Py_UNICODE_ISTITLE *)
  ext_lower : str -> cp -> str -> str; (* full lower-casing of a code point
                                          between the text before (reversed)
                                          and after it *)
  ext_title : cp -> str;             (* full title-casing *)
  ext_re_lower : cp -> cp            (* simple lower-casing used by re.I *)
}.

Local Open Scope N_scope.

Definition in_range (a b c : cp) : bool := (a <=? c) && (c <=? b).

(** [str.isspace] / [\s]: the complete list. *)
Definition is_space (c : cp) : bool :=
  in_range 9 13 c || in_range 28 32 c || (c =? 133)%N || (c =? 160)%N
  || (c =? 5760)%N || in_range 8192 8202 c || in_range 8232 8233 c
  || (c =? 8239)%N || (c =? 8287)%N || (c =? 12288)%N.

Definition latin1_isupper (c : cp) : bool :=
  in_range 65 90 c || in_range 192 214 c || in_range 216 222 c.

Definition latin1_islower (c : cp) : bool :=
  in_range 97 122 c || (c =? 170)%N || (c =? 181)%N || (c =? 186)%N
  || in_range 223 246 c || in_range 248 255 c.

Definition latin1_isalnum (c : cp) : bool :=
  in_range 48 57 c || in_range 65 90 c || in_range 97 122 c
  || (c =? 170)%N || in_range 178 179 c || (c =? 181)%N || in_range 185 186 c
  || in_range 188 190 c || in_range 192 214 c || in_range 216 246 c
  || in_range 248 255 c.

Section Unicode.

Variable U : UCD.

Definition decimal_value (c : cp) : option Z :=
  if (c <? 256)%N then
    if in_range 48 57 c then Some (Z.of_N c - 48)%Z else None
  else option_map Z.of_N (ext_decimal U c).

Definition is_decimal (c : cp) : bool :=
  match decimal_value c with Some _ => true | None => false end.

Definition is_alnum (c : cp) : bool :=
  if (c <? 256)%N then latin1_isalnum c else ext_isalnum U c.

(** A word character of [re]: alphanumeric or underscore. *)
Definition is_word (c : cp) : bool := is_alnum c || (c =? 95)%N.

Definition cp_isupper (c : cp) : bool :=
  if (c <? 256)%N then latin1_isupper c else ext_isupper U c.

Definition cp_islower (c : cp) : bool :=
  if (c <? 256)%N then latin1_islower c else ext_islower U c.

Definition cp_istitle (c : cp) : bool :=
  if (c <? 256)%N then false else ext_istitle U c.

Definition cp_iscased (c : cp) : bool :=
  cp_isupper c || cp_islower c || cp_istitle c.

Definition cp_lower (before : str) (c : cp) (after : str) : str :=
  if (c <? 256)%N then
    if latin1_isupper c then [(c + 32)%N] else [c]
  else ext_lower U before c after.

Definition cp_title (c : cp) : str :=
  if (c <? 256)%N then
    if in_range 97 122 c || in_range 224 246 c || in_range 248 254 c
    then [(c - 32)%N]
    else if (c =? 181)%N then [924]
    else if (c =? 223)%N then [83; 115]
    else if (c =? 255)%N then [376]
    else [c]
  else ext_title U c.

(** [s.lower()] *)
Fixpoint lower_from (before s : str) : str :=
  match s with
  | [] => []
  | c :: t => cp_lower before c t ++ lower_from (c :: before) t
  end.

Definition lower (s : str) : str := lower_from [] s.

(** [s.title()]: a cased character following a cased one is lower-cased,
    any other is title-cased. *)
Fixpoint title_from (before : str) (prev_cased : bool) (s : str) : str :=
  match s with
  | [] => []
  | c :: t =>
    (if prev_cased then cp_lower before c t else cp_title c)
      ++ title_from (c :: before) (cp_iscased c) t
  end.

Definition title (s : str) : str := title_from [] false s.

(** [s.capitalize()]: first character title-cased, the rest lower-cased. *)
Definition capitalize (s : str) : str :=
  match s with
  | [] => []
  | c :: t => cp_title c ++ lower_from [c] t
  end.

(** [s.isupper()]: no lower- or title-case character, and at least one
    upper-case one. *)
Fixpoint isupper_from (cased : bool) (s : str) : bool :=
  match s with
  | [] => cased
  | c :: t =>
    if cp_islower c || cp_istitle c then false
    else isupper_from (cased || cp_isupper c) t
  end.

Definition isupper (s : str) : bool := isupper_from false s.

(** [int(s)] on a string of decimal digits. *)
Definition int_of_str (s : str) : Z :=
  fold_left (fun acc c =>
               match decimal_value c with
               | Some d => (acc * 10 + d)%Z
               | None => acc
               end) s 0%Z.

End Unicode.

Local Close Scope N_scope.

(** [str(n)] for an integer. *)
Definition str_of_Z (z : Z) : str :=
  bytes_of_string (NilEmpty.string_of_int (Z.to_int z)).

(** [s.lstrip()], [s.rstrip()], [s.strip()] *)
Fixpoint lstrip (s : str) : str :=
  match s with
  | [] => []
  | c :: t => if is_space c then lstrip t else s
  end.

Definition rstrip (s : str) : str := rev (lstrip (rev s)).

Definition strip (s : str) : str := rstrip (lstrip s).

(** [s.split('\n')] *)
Fixpoint split_lines (s : str) : list str :=
  match s with
  | [] => [[]]
  | c :: t =>
    if (c =? 10)%N then [] :: split_lines t
    else match split_lines t with
         | l :: ls => (c :: l) :: ls
         | [] => [[c]]
         end
  end.

(** [s.split()]: the maximal runs of non-whitespace. *)
Fixpoint split_ws_from (cur : str) (s : str) : list str :=
  match s with
  | [] => match cur with [] => [] | _ => [rev cur] end
  | c :: t =>
    if is_space c
    then match cur with
         | [] => split_ws_from [] t
         | _ => rev cur :: split_ws_from [] t
         end
    else split_ws_from (c :: cur) t
  end.

Definition split_ws (s : str) : list str := split_ws_from [] s.

(** [s.startswith(p)] and the remainder after the prefix. *)
Fixpoint strip_prefix (p s : str) : option str :=
  match p, s with
  | [], _ => Some s
  | a :: p', b :: s' => if (a =? b)%N then strip_prefix p' s' else None
  | _ :: _, [] => None
  end.

(** First occurrence of [sub] in [s]: the text before and after it. *)
Fixpoint find_sub (sub s : str) : option (str * str) :=
  match strip_prefix sub s with
  | Some rest => Some ([], rest)
  | None =>
    match s with
    | [] => None
    | c :: t =>
      match find_sub sub t with
      | Some (a, b) => Some (c :: a, b)
      | None => None
      end
    end
  end.

(** [sub in s] *)
Definition contains (sub s : str) : bool :=
  match find_sub sub s with Some _ => true | None => false end.

(** [s.split(sep, 1)] *)
Definition split_once (sep s : str) : list str :=
  match find_sub sep s with
  | Some (a, b) => [a; b]
  | None => [s]
  end.

(** [s.endswith(p)] *)
Definition endswith (p s : str) : bool :=
  match strip_prefix (rev p) (rev s) with Some _ => true | None => false end.

(** ** The [re] module

    Patterns are kept as syntax trees; the matcher is the usual
    backtracking one: alternatives in order, repetitions greedy, and the
    first complete match found is the match. *)

Inductive citem : Type :=
| CChar (c : cp)          (* a literal member *)
| CRange (a b : cp)       (* a-b *)
| CDigit                  (* \d *)
| CSpace.                 (* \s *)

Inductive regex : Type :=
| Eps
| Lit (c : cp)                               (* a literal character *)
| LitI (c : cp)                              (* a literal under re.I *)
| CSet (neg : bool) (items : list citem)     (* [...] and [^...] *)
| CSetI (chars : list cp)                    (* a set of literals under re.I *)
| Cat (r1 r2 : regex)
| Alt (r1 r2 : regex)
| Rep (lo : nat) (hi : option nat) (r : regex) (* greedy r{lo,hi} *)
| Grp (n : nat) (r : regex)                  (* capturing group number n *)
| Bol                                        (* ^ *)
| Eol                                        (* $ *)
| WordB.                                     (* \b *)

Definition opt (r : regex) : regex := Rep 0 (Some 1) r.
Definition star (r : regex) : regex := Rep 0 None r.
Definition plus (r : regex) : regex := Rep 1 None r.
Definition times (n : nat) (r : regex) : regex := Rep n (Some n) r.
Definition cat (rs : list regex) : regex := fold_right Cat Eps rs.
Definition alt (rs : list regex) : regex :=
  match rs with
  | [] => Eps
  | r :: rs' => fold_left Alt rs' r
  end.

Fixpoint lits (s : str) : regex :=
  match s with
  | [] => Eps
  | c :: t => Cat (Lit c) (lits t)
  end.

Fixpoint litsI (s : str) : regex :=
  match s with
  | [] => Eps
  | c :: t => Cat (LitI c) (litsI t)
  end.

Definition lit (s : string) : regex := lits (u s).
Definition litI (s : string) : regex := litsI (u s).
Definition ch (s : string) : cp := hd 0%N (u s).
Definition digit : regex := CSet false [CDigit].
Definition space : regex := CSet false [CSpace].

(** The state of a match attempt: the text before the current position
    (nearest character first), the text from it on, and the groups captured
    so far (latest first). *)
Record mstate : Type := MState {
  m_pre : str;
  m_rest : str;
  m_caps : list (nat * str)
}.

(** A match as [search] reports it: the whole matched text, the groups, and
    the text remaining after it. *)
Record rmatch : Type := RMatch {
  whole : str;
  caps : list (nat * str);
  after : str
}.

(** [m.group(n)], [None] for a group that took no part in the match. *)
Fixpoint group_of (cs : list (nat * str)) (n : nat) : option str :=
  match cs with
  | [] => None
  | (i, s) :: cs' => if Nat.eqb i n then Some s else group_of cs' n
  end.

Definition group (m : rmatch) (n : nat) : option str := group_of (caps m) n.

Section Matcher.

Variable U : UCD.

Definition re_lower (c : cp) : cp :=
  if (c <? 256)%N then (if latin1_isupper c then c + 32 else c)%N
  else ext_re_lower U c.

(** The extra case equivalences of [re] for the lower-case letters of a
    pattern written in Latin-1. *)
Definition re_fixes (lo : cp) : list cp :=
  if (lo =? 105)%N then [305%N]
  else if (lo =? 115)%N then [383%N]
  else if (lo =? 181)%N then [956%N]
  else [].

Definition lit_matches_icase (c t : cp) : bool :=
  let lo := re_lower c in
  existsb (N.eqb (re_lower t)) (lo :: re_fixes lo).

Definition citem_matches (i : citem) (t : cp) : bool :=
  match i with
  | CChar c => (c =? t)%N
  | CRange a b => in_range a b t
  | CDigit => is_decimal U t
  | CSpace => is_space t
  end.

Definition cset_matches (neg : bool) (items : list citem) (t : cp) : bool :=
  xorb neg (existsb (fun i => citem_matches i t) items).

Definition word_at (s : str) : bool :=
  match s with
  | c :: _ => is_word U c
  | [] => false
  end.

(** [\b]: exactly one of the two neighbours is a word character. *)
Definition at_boundary (pre rest : str) : bool :=
  xorb (word_at pre) (word_at rest).

(** [$]: at the end, or before a final newline. *)
Definition at_end (rest : str) : bool :=
  match rest with
  | [] => true
  | [c] => (c =? 10)%N
  | _ => false
  end.

Variable A : Type.

Definition cont : Type := mstate -> option A.

Definition step_char (test : cp -> bool) (k : cont) (st : mstate) : option A :=
  match m_rest st with
  | c :: t => if test c then k (MState (c :: m_pre st) t (m_caps st)) else None
  | [] => None
  end.

Fixpoint rep_min (body : cont -> cont) (n : nat) (k : cont) : cont :=
  match n with
  | O => k
  | S n' => body (rep_min body n' k)
  end.

(** Up to [n] further greedy iterations; an iteration has to consume
    something.  (Python lets one empty iteration through before it stops;
    no repeated group of the patterns below can match the empty string, so
    the two agree on them.) *)
Fixpoint rep_max (body : cont -> cont) (n : nat) (k : cont) (st : mstate)
  : option A :=
  match n with
  | O => k st
  | S n' =>
    match body (fun st' =>
                  if Nat.ltb (length (m_rest st')) (length (m_rest st))
                  then rep_max body n' k st' else None) st with
    | Some x => Some x
    | None => k st
    end
  end.

(** The text consumed between two states of one attempt. *)
Definition consumed (st st' : mstate) : str :=
  firstn (length (m_rest st) - length (m_rest st')) (m_rest st).

Fixpoint run (r : regex) (k : cont) (st : mstate) {struct r} : option A :=
  match r with
  | Eps => k st
  | Lit c => step_char (N.eqb c) k st
  | LitI c => step_char (lit_matches_icase c) k st
  | CSet neg items => step_char (cset_matches neg items) k st
  | CSetI chars =>
    step_char (fun t => existsb (fun c => lit_matches_icase c t) chars) k st
  | Cat r1 r2 => run r1 (run r2 k) st
  | Alt r1 r2 =>
    match run r1 k st with
    | Some x => Some x
    | None => run r2 k st
    end
  | Rep lo hi r' =>
    rep_min (run r') lo
      (fun st1 =>
         rep_max (run r')
           (match hi with
            | Some h => h - lo
            | None => length (m_rest st1)
            end) k st1) st
  | Grp n r' =>
    run r' (fun st' =>
              k (MState (m_pre st') (m_rest st')
                   ((n, consumed st st') :: m_caps st'))) st
  | Bol => match m_pre st with [] => k st | _ => None end
  | Eol => if at_end (m_rest st) then k st else None
  | WordB => if at_boundary (m_pre st) (m_rest st) then k st else None
  end.

End Matcher.

Section Search.

Variable U : UCD.

(** One attempt at the position between [pre] and [rest]. *)
Definition match_here (r : regex) (pre rest : str) : option rmatch :=
  run U r
    (fun st => Some (RMatch (firstn (length rest - length (m_rest st)) rest)
                            (m_caps st) (m_rest st)))
    (MState pre rest []).

(** [re.match(r, s)] *)
Definition re_match (r : regex) (s : str) : option rmatch := match_here r [] s.

(** The leftmost position from which the pattern matches. *)
Fixpoint search_from (r : regex) (pre rest : str) : option rmatch :=
  match match_here r pre rest with
  | Some m => Some m
  | None =>
    match rest with
    | [] => None
    | c :: t => search_from r (c :: pre) t
    end
  end.

(** [re.search(r, s)] *)
Definition re_search (r : regex) (s : str) : option rmatch := search_from r [] s.

(** [re.finditer(r, s)]: the successive non-overlapping matches, left to
    right.  [skip] counts the characters of the previous match still to be
    passed over.  After an empty match the scan moves on by one character;
    Python would first retry the same position for a non-empty match, which
    makes no difference for the patterns scanned below, none of which
    matches the empty string. *)
Fixpoint finditer_from (r : regex) (pre rest : str) (skip : nat)
  : list rmatch :=
  match skip with
  | S sk =>
    match rest with
    | [] => []
    | c :: t => finditer_from r (c :: pre) t sk
    end
  | O =>
    match match_here r pre rest with
    | Some m =>
      m :: match rest with
           | [] => []
           | c :: t => finditer_from r (c :: pre) t (length (whole m) - 1)
           end
    | None =>
      match rest with
      | [] => []
      | c :: t => finditer_from r (c :: pre) t 0
      end
    end
  end.

Definition re_finditer (r : regex) (s : str) : list rmatch :=
  finditer_from r [] s 0.

(** [re.findall(r, s)] for a pattern without groups: the matched texts. *)
Definition re_findall (r : regex) (s : str) : list str :=
  map whole (re_finditer r s).

(** [re.findall(r, s)] for a pattern with exactly one group: the texts of
    that group (empty for a group that took no part). *)
Definition re_findall1 (r : regex) (s : str) : list str :=
  map (fun m => match group m 1 with Some g => g | None => [] end)
      (re_finditer r s).

End Search.

(** ** What the function reads from its surroundings *)

(** [datetime.datetime.now()] *)
Record datetime : Type := {
  year : Z; month : Z; day : Z;
  hour : Z; minute : Z; second : Z; microsecond : Z
}.

(** The clock at the time of the call and the order in which [list(set(l))]
    enumerates the distinct elements of [l]; the latter depends on the string
    hashes of the running interpreter. *)
Record Env : Type := {
  now : datetime;
  set_list : list str -> list str;
  set_list_NoDup : forall l, NoDup (set_list l);
  set_list_In : forall l x, In x (set_list l) <-> In x l
}.

(** ** The profile *)

Record metadata : Type := {
  emails : list str;
  phones : list str;
  skills : list str;
  sections : list str;
  name : str;
  specialty : str;
  experience : str
}.

Definition default_metadata : metadata := {|
  emails := [];
  phones := [];
  skills := [];
  sections := [];
  name := u "Inconnu";
  specialty := u "À définir";
  experience := u "0"
|}.

Definition is_empty (s : str) : bool :=
  match s with [] => true | _ => false end.

Definition is_some {A : Type} (o : option A) : bool :=
  match o with Some _ => true | None => false end.

(** [not text or not text.strip() or "[ERREUR" in text] *)
Definition no_content (text : str) : bool :=
  is_empty text || is_empty (strip text) || contains (u "[ERREUR") text.

(** ** Contact details *)

Definition oneof (s : string) : regex := CSet false (map CChar (u s)).

Definition r_az : citem := CRange (ch "a") (ch "z").
Definition r_AZ : citem := CRange (ch "A") (ch "Z").
Definition r_09 : citem := CRange (ch "0") (ch "9").

(** [[a-zA-Z0-9._%+-]+@[a-zA-Z0-9.-]+\.[a-zA-Z]{2,}] *)
Definition email_pattern : regex :=
  cat [ plus (CSet false (r_az :: r_AZ :: r_09 :: map CChar (u "._%+-")));
        lit "@";
        plus (CSet false (r_az :: r_AZ :: r_09 :: map CChar (u ".-")));
        lit ".";
        Rep 2 None (CSet false [r_az; r_AZ]) ].

(** [[-.\s]] *)
Definition phone_sep : regex := CSet false [CChar (ch "-"); CChar (ch "."); CSpace].

(** [(?:(?:\+|00)33|0)\s*[1-9](?:[\s.-]*\d{2}){4}
     |(?:\+?\d{1,3}[-.\s]?)?\(?\d{2,4}\)?[-.\s]?\d{2,4}[-.\s]?\d{2,4}(?:[-.\s]?\d{2,4})?] *)
Definition phone_pattern : regex :=
  Alt
    (cat [ alt [ cat [ alt [lit "+"; lit "00"]; lit "33" ]; lit "0" ];
           star space;
           CSet false [CRange (ch "1") (ch "9")];
           times 4 (cat [ star (CSet false [CSpace; CChar (ch "."); CChar (ch "-")]);
                          times 2 digit ]) ])
    (cat [ opt (cat [ opt (lit "+"); Rep 1 (Some 3) digit; opt phone_sep ]);
           opt (lit "(");
           Rep 2 (Some 4) digit;
           opt (lit ")");
           opt phone_sep;
           Rep 2 (Some 4) digit;
           opt phone_sep;
           Rep 2 (Some 4) digit;
           opt (cat [ opt phone_sep; Rep 2 (Some 4) digit ]) ]).

(** [^\s*\d{4}\s*[-–]\s*\d{4}\s*$] *)
Definition year_range_pattern : regex :=
  cat [ Bol; star space; times 4 digit; star space; oneof "-–";
        star space; times 4 digit; star space; Eol ].

(** [^\s*(19|20)\d{2}\s*$] *)
Definition year_pattern : regex :=
  cat [ Bol; star space; Grp 1 (alt [lit "19"; lit "20"]); times 2 digit;
        star space; Eol ].

(** [^[\s]*[+0(]] *)
Definition phone_start_pattern : regex :=
  cat [ Bol; star (CSet false [CSpace]); oneof "+0(" ].

(** ** Vocabularies *)

Definition skill_keywords : list str := map u
  [ "Python"; "JavaScript"; "Java"; "C++"; "C#"; "PHP"; "Ruby"; "Swift";
    "TypeScript"; "Go"; "Rust"; "Kotlin"; "SQL";
    "React"; "Angular"; "Vue"; "Django"; "Flask"; "Docker"; "Kubernetes";
    "AWS"; "Azure"; "GCP"; "Terraform"; "Ansible" ]%string.

Definition skip_words : list str := map u
  [ "experience"; "expérience"; "formation"; "compétence"; "contact"; "profil";
    "adresse"; "email"; "tel"; "téléphone"; "www"; "http"; "@"; "cv"; "curriculum";
    "ingénieur"; "développeur"; "engineer"; "developer"; "manager"; "consultant";
    "stage"; "poste"; "emploi"; "date"; "lieu"; "ville"; "pays";
    "preparatory"; "préparatoire"; "cycle"; "physic"; "chemistry"; "math";
    "national"; "diploma"; "diplôme"; "bachelor"; "master"; "licence";
    "school"; "école"; "university"; "université"; "institute"; "institut";
    "education"; "overview"; "profile"; "summary"; "objective";
    "computer"; "science"; "engineering"; "industrial"; "degree";
    "sfax"; "tunis"; "tunisia"; "france"; "paris"; "lyon" ]%string.

Definition separators : list str := map u [ "|"; "–"; "—" ]%string.

Definition common_words : list str := map u
  [ "les"; "des"; "pour"; "dans"; "avec"; "sur"; "par"; "une"; "the"; "and";
    "for" ]%string.

Definition title_keywords : list str := map u
  [ "ingénieur"; "développeur"; "engineer"; "developer"; "analyst"; "manager";
    "designer"; "consultant"; "architecte"; "technicien"; "expert";
    "specialist"; "scientist"; "lead"; "directeur"; "data"; "devops"; "cloud";
    "fullstack"; "full stack"; "backend"; "frontend"; "mobile"; "sécurité";
    "security"; "réseau"; "network"; "système"; "system"; "admin";
    "integration"; "intégration"; "bi "; "business intelligence" ]%string.

Definition specialties : list str := map u
  [ "Data Integration Engineer"; "Machine Learning Engineer";
    "Data Scientist"; "Data Analyst"; "Data Engineer";
    "Business Intelligence"; "BI Developer"; "BI Analyst";
    "Site Reliability Engineer"; "Full Stack Developer"; "Fullstack Developer";
    "Développeur Fullstack"; "Développeur Full Stack";
    "Ingénieur Data"; "Ingénieur Cloud"; "Ingénieur DevOps"; "Ingénieur Système";
    "Ingénieur Réseau"; "Ingénieur Sécurité"; "Ingénieur Logiciel";
    "Cloud Engineer"; "Cloud Architect"; "Security Engineer";
    "Développeur Backend"; "Backend Developer"; "Développeur Frontend";
    "Frontend Developer";
    "Développeur Mobile"; "iOS Developer"; "Android Developer";
    "Chef de projet"; "Project Manager"; "Product Manager"; "Scrum Master";
    "UX Designer"; "UI Designer"; "UX/UI Designer"; "UX/UI";
    "DevOps"; "SysOps";
    "Développeur"; "Ingénieur"; "Designer"; "Consultant"; "Architecte";
    "Manager"; "Analyste"; "Administrateur"; "Technicien";
    "Commercial"; "Comptable"; "RH"; "Marketing" ]%string.

Definition academic_keywords : list str := map u
  [ "université"; "university"; "master"; "licence"; "bachelor"; "baccalauréat";
    "bac "; "bac+";
    "diplôme"; "école"; "school"; "formation"; "étudiant"; "student";
    "enseignement"; "degree";
    "cursus"; "académique"; "education"; "msc "; "phd"; "doctorat";
    "professeur"; "professor";
    "enseignant"; "assistant"; "lecturer"; "stage"; "internship"; "trainee";
    "apprenti" ]%string.

Definition present_words : list str := map u
  [ "present"; "aujourd"; "maintenant"; "today"; "actuel"; "en cours";
    "now" ]%string.

(** [months_map] *)
Definition months_map : list (str * Z) :=
  map (fun kv => (u (fst kv), snd kv))
  [ ("jan", 1); ("fév", 2); ("mar", 3); ("avr", 4); ("mai", 5); ("jui", 6);
    ("jul", 7); ("aoû", 8); ("sep", 9); ("oct", 10); ("nov", 11); ("déc", 12);
    ("feb", 2); ("apr", 4); ("jun", 6); ("aug", 8) ]%string%Z.

(** [d.get(key, default)] *)
Fixpoint dict_get (d : list (str * Z)) (key : str) (default : Z) : Z :=
  match d with
  | [] => default
  | (k, v) :: d' => if str_eqb k key then v else dict_get d' key default
  end.

(** ** Experience patterns *)

Definition ans_ann : regex := alt [lit "ans"; lit "ann"].
Definition years_yrs : regex := alt [cat [lit "year"; opt (lit "s")]; lit "yrs"].
Definition number : regex := Grp 1 (plus digit).

(** [exp_patterns], in the order of the source. *)
Definition exp_patterns : list regex :=
  [ (* (\d+)\s*(?:ans|années?)\s*d\'exp[eé]rience *)
    cat [ number; star space;
          alt [lit "ans"; cat [lit "année"; opt (lit "s")]];
          star space; lit "d'exp"; oneof "eé"; lit "rience" ];
    (* (\d+)\s*(?:ans|ann[eé]es?)\s*exp *)
    cat [ number; star space;
          alt [lit "ans"; cat [lit "ann"; oneof "eé"; lit "e"; opt (lit "s")]];
          star space; lit "exp" ];
    (* exp[eé]rience\s*(?:professionnelle)?\s*[:\s-]*\s*(\d+)\s*(?:ans|ann) *)
    cat [ lit "exp"; oneof "eé"; lit "rience"; star space;
          opt (lit "professionnelle"); star space;
          star (CSet false [CChar (ch ":"); CSpace; CChar (ch "-")]);
          star space; number; star space; ans_ann ];
    (* plus\s*de\s*(\d+)\s*(?:ans|ann) *)
    cat [ lit "plus"; star space; lit "de"; star space; number; star space;
          ans_ann ];
    (* expertise\s*[:\s-]*\s*(\d+)\s*(?:ans|ann) *)
    cat [ lit "expertise"; star space;
          star (CSet false [CChar (ch ":"); CSpace; CChar (ch "-")]);
          star space; number; star space; ans_ann ];
    (* (\d+)\s*(?:years?|yrs)\s*(?:of\s* )?exp   (spaced before the parenthesis) *)
    cat [ number; star space; years_yrs; star space;
          opt (cat [lit "of"; star space]); lit "exp" ];
    (* (\d+)\s*(?:years?|yrs)\s*(?:of\s* )?experience   (likewise) *)
    cat [ number; star space; years_yrs; star space;
          opt (cat [lit "of"; star space]); lit "experience" ];
    (* senior\s*\(\s*(\d+)\s*\+\s*ans\s*\) *)
    cat [ lit "senior"; star space; lit "("; star space; number; star space;
          lit "+"; star space; lit "ans"; star space; lit ")" ] ].

(** [month_regex] *)
Definition month_regex : regex :=
  alt [ lit "janvier"; cat [lit "f"; oneof "eé"; lit "vrier"]; lit "mars";
        lit "avril"; lit "mai"; lit "juin"; lit "juillet";
        cat [lit "ao"; oneof "uû"; lit "t"]; lit "septembre"; lit "octobre";
        lit "novembre"; cat [lit "d"; oneof "eé"; lit "cembre"];
        lit "january"; lit "february"; lit "march"; lit "april"; lit "may";
        lit "june"; lit "july"; lit "august"; lit "september"; lit "october";
        lit "november"; lit "december";
        cat [lit "jan"; opt (lit "v")];
        cat [lit "f"; oneof "eé"; lit "v"; opt (lit "r")];
        lit "mar"; lit "apr"; lit "jun"; lit "jul"; lit "aug"; lit "sep";
        lit "oct"; lit "nov"; cat [lit "d"; oneof "eé"; lit "c"] ].

(** [year_regex]: [\b(?:20[0-2]\d|19[7-9]\d)\b] *)
Definition year_regex : regex :=
  cat [ WordB;
        alt [ cat [lit "20"; CSet false [CRange (ch "0") (ch "2")]; digit];
              cat [lit "19"; CSet false [CRange (ch "7") (ch "9")]; digit] ];
        WordB ].

(** [present_regex] *)
Definition present_regex : regex :=
  alt [ cat [lit "pr"; oneof "eé"; lit "sent"]; lit "aujourd"; lit "maintenant";
        lit "today"; lit "actuel"; lit "en cours"; lit "now" ].

(** [range_pattern]:
    [(month)?\s*(year)\s*[-–—àau]t?o?\s*(present|(?:(month)?\s*(year)))] *)
Definition range_pattern : regex :=
  cat [ opt (Grp 1 month_regex); star space; Grp 2 year_regex; star space;
        oneof "-–—àau"; opt (lit "t"); opt (lit "o"); star space;
        Grp 3 (Alt present_regex
                   (cat [opt (Grp 4 month_regex); star space; Grp 5 year_regex])) ].

(** ** Section headings, all under [(?i)] *)

Definition eI : regex := CSetI (u "eé").

Definition section_patterns : list regex :=
  [ (* (exp[eé]riences?\s*(?:professionnelles?)?) *)
    Grp 1 (cat [ litI "exp"; eI; litI "rience"; opt (litI "s"); star space;
                 opt (cat [litI "professionnelle"; opt (litI "s")]) ]);
    (* (formations?\s*(?:acad[eé]miques?|diplomes?)?) *)
    Grp 1 (cat [ litI "formation"; opt (litI "s"); star space;
                 opt (alt [ cat [litI "acad"; eI; litI "mique"; opt (litI "s")];
                            cat [litI "diplome"; opt (litI "s")] ]) ]);
    (* (comp[eé]tences?) *)
    Grp 1 (cat [ litI "comp"; eI; litI "tence"; opt (litI "s") ]);
    (* (education|academic|skills|languages|projets|hobbies|profil) *)
    Grp 1 (alt [ litI "education"; litI "academic"; litI "skills";
                 litI "languages"; litI "projets"; litI "hobbies";
                 litI "profil" ]) ].

(** ** Name patterns *)

Definition r_upper : list citem := [r_AZ; CRange (ch "À") (ch "Ÿ")].
Definition r_lower : list citem := [r_az; CRange (ch "à") (ch "ÿ")].
Definition dash : citem := CChar (ch "-").

(** [[A-ZÀ-Ÿ][a-zà-ÿ\-]+] *)
Definition title_word : regex :=
  Cat (CSet false r_upper) (plus (CSet false (r_lower ++ [dash]))).

(** [^W\s+W(?:\s+W)?$] for a word shape [W]. *)
Definition name_shape (w : regex) : regex :=
  cat [ Bol; w; plus space; w; opt (cat [plus space; w]); Eol ].

Definition name_pattern1 : regex := name_shape title_word.

(** [[A-ZÀ-Ÿ\-]{2,}] *)
Definition name_pattern2 : regex :=
  name_shape (Rep 2 None (CSet false (r_upper ++ [dash]))).

(** [[A-ZÀ-Ÿa-zà-ÿ\-]{2,}] *)
Definition name_pattern3 : regex :=
  name_shape (Rep 2 None (CSet false (r_upper ++ r_lower ++ [dash]))).

(** ** Interval arithmetic *)

Local Open Scope Z_scope.

(** [round(m / 12)]: to the nearest integer, a half to the even one.  The
    quotient is a float in the source; the months summed stay far below
    2^53, where the float quotient rounds as the exact one does. *)
Definition round_div12 (m : Z) : Z :=
  let q := m / 12 in
  let r := m mod 12 in
  if r <? 6 then q
  else if 6 <? r then q + 1
  else if Z.even q then q else q + 1.

(** Tuples compare lexicographically. *)
Definition period_leb (a b : Z * Z) : bool :=
  (fst a <? fst b) || ((fst a =? fst b) && (snd a <=? snd b)).

Fixpoint insert_period (p : Z * Z) (l : list (Z * Z)) : list (Z * Z) :=
  match l with
  | [] => [p]
  | q :: l' => if period_leb p q then p :: l else q :: insert_period p l'
  end.

(** [periods.sort()] *)
Definition sort_periods (l : list (Z * Z)) : list (Z * Z) :=
  fold_right insert_period [] l.

(** One turn of the merging loop on [(merged_months, curr_start, curr_end)]. *)
Definition merge_step (acc : Z * Z * Z) (p : Z * Z) : Z * Z * Z :=
  let '(merged_months, curr_start, curr_end) := acc in
  let '(start, end_) := p in
  if curr_start =? -1 then (merged_months, start, end_)
  else if start <=? curr_end then (merged_months, curr_start, Z.max curr_end end_)
  else (merged_months + (curr_end - curr_start), start, end_).

(** Pass 2 on sorted periods: the months covered. *)
Definition merged_months (sorted : list (Z * Z)) : Z :=
  let '(merged, curr_start, curr_end) := fold_left merge_step sorted (0, -1, -1) in
  merged + (curr_end - curr_start).

(** [str(max(1, round(merged_months / 12)))] *)
Definition years_of_periods (periods : list (Z * Z)) : str :=
  str_of_Z (Z.max 1 (round_div12 (merged_months (sort_periods periods)))).

Fixpoint list_min (x : Z) (l : list Z) : Z :=
  match l with
  | [] => x
  | y :: l' => list_min (Z.min x y) l'
  end.

Local Close Scope Z_scope.

(** ** The parser *)

Section Parser.

Variable U : UCD.
Variable E : Env.

(** *** Contact details *)

Definition extract_emails (text : str) : list str :=
  set_list E (re_findall U email_pattern text).

(** [re.sub(r'\D', '', s)] *)
Definition digits_only (s : str) : str := filter (is_decimal U) s.

Definition phone_ok (p_clean : str) : bool :=
  negb (length (digits_only p_clean) <? 8)%nat
  && negb (is_some (re_match U year_range_pattern p_clean))
  && negb (is_some (re_match U year_pattern p_clean))
  && is_some (re_match U phone_start_pattern p_clean).

Definition filtered_phones (text : str) : list str :=
  filter phone_ok (map strip (re_findall U phone_pattern text)).

Definition extract_phones (text : str) : list str :=
  firstn 5 (set_list E (filtered_phones text)).

(** *** Skills *)

(** [r'\b' + re.escape(skill.lower()) + r'\b'] *)
Definition skill_pattern (skill : str) : regex :=
  Cat WordB (Cat (lits (lower U skill)) WordB).

Definition extract_skills (text_lower : str) : list str :=
  filter (fun skill => is_some (re_search U (skill_pattern skill) text_lower))
         skill_keywords.

(** *** Name *)

(** [[l.strip() for l in text.split('\n') if l.strip()]] *)
Definition stripped_lines (text : str) : list str :=
  filter (fun l => negb (is_empty l)) (map strip (split_lines text)).

Definition has_any (words : list str) (s : str) : bool :=
  existsb (fun w => contains w s) words.

(** [w[0].isupper()] *)
Definition first_isupper (w : str) : bool :=
  match w with
  | [] => false
  | c :: _ => isupper U [c]
  end.

(** What one separator yields on one line: the name and, when it is long
    enough, the title on the other side. *)
Definition try_separator (line sep : str) : option (str * option str) :=
  if contains sep line then
    let parts := split_once sep line in
    let name_part := strip (nth 0 parts []) in
    let title_part :=
      if (1 <? length parts)%nat then strip (nth 1 parts []) else [] in
    let name_words := split_ws name_part in
    if (2 <=? length name_words)%nat && (length name_words <=? 3)%nat
       && (length name_part <? 40)%nat then
      if negb (has_any skip_words (lower U name_part)) then
        if forallb (fun w => is_empty w || first_isupper w) name_words then
          Some (name_part,
                if negb (is_empty title_part) && (3 <? length title_part)%nat
                then Some title_part else None)
        else None
      else None
    else None
  else None.

Fixpoint first_separator (line : str) (seps : list str)
  : option (str * option str) :=
  match seps with
  | [] => None
  | sep :: seps' =>
    match try_separator line sep with
    | Some r => Some r
    | None => first_separator line seps'
    end
  end.

(** Heuristic 0 over [enumerate(lines)], counting from [i]. *)
Fixpoint heuristic0 (i : Z) (lines : list str)
  : option (Z * str * option str) :=
  match lines with
  | [] => None
  | line :: lines' =>
    match first_separator line separators with
    | Some (nm, sp) => Some (i, nm, sp)
    | None => heuristic0 (i + 1) lines'
    end
  end.

(** The re-casing of pattern 3. *)
Definition recase_word (w : str) : str :=
  if isupper U w && (2 <? length w)%nat then capitalize U w else w.

Fixpoint join_space (ws : list str) : str :=
  match ws with
  | [] => []
  | [w] => w
  | w :: ws' => w ++ u " " ++ join_space ws'
  end.

Definition name_of_line (line : str) : option str :=
  let words := split_ws line in
  if (2 <=? length words)%nat && (length words <=? 3)%nat
     && (length line <? 50)%nat then
    if has_any skip_words (lower U line) then None
    else if is_some (re_match U name_pattern1 line) then Some line
    else if is_some (re_match U name_pattern2 line) then Some (title U line)
    else if is_some (re_match U name_pattern3 line)
            && existsb first_isupper words
            && negb (existsb (fun w => existsb (str_eqb (lower U w)) common_words)
                             words)
         then Some (join_space (map recase_word words))
    else None
  else None.

(** Heuristic 1 over [enumerate(lines)], counting from [i]. *)
Fixpoint heuristic1 (i : Z) (lines : list str) : option (Z * str) :=
  match lines with
  | [] => None
  | line :: lines' =>
    match name_of_line line with
    | Some nm => Some (i, nm)
    | None => heuristic1 (i + 1) lines'
    end
  end.

(** *** Specialty *)

Definition is_title_line (potential_title : str) : bool :=
  (3 <? length potential_title)%nat && (length potential_title <? 80)%nat
  && negb (endswith (u ".") potential_title)
  && has_any title_keywords (lower U potential_title).

(** The first entry of the catalogue found in [hay]. *)
Definition first_specialty (hay : str) : option str :=
  find (fun spec => contains (lower U spec) hay) specialties.

(** The name, the specialty and the two flags after name and specialty
    detection, starting from the defaults. *)
Definition name_and_specialty (text text_lower : str) : str * str :=
  let lines := stripped_lines text in
  let name0 := name default_metadata in
  let spec0 := specialty default_metadata in
  (* Heuristic 0 *)
  let '(name1, name_index1, spec1, found_spec1) :=
    match heuristic0 0 (firstn 10 lines) with
    | Some (i, nm, Some sp) => (nm, i, sp, true)
    | Some (i, nm, None) => (nm, i, spec0, false)
    | None => (name0, (-1)%Z, spec0, false)
    end in
  (* Heuristic 1 *)
  let '(name2, name_index2) :=
    if (name_index1 =? -1)%Z then
      match heuristic1 0 (firstn 15 lines) with
      | Some (i, nm) => (nm, i)
      | None => (name1, name_index1)
      end
    else (name1, name_index1) in
  (* the lines after the name *)
  let '(spec2, found_spec2) :=
    if negb found_spec1 && negb (name_index2 =? -1)%Z
       && (name_index2 + 1 <? Z.of_nat (length lines))%Z then
      let first := Z.to_nat (name_index2 + 1) in
      let last := Z.to_nat (Z.min (name_index2 + 4) (Z.of_nat (length lines))) in
      match find is_title_line
                 (map (fun i => nth i lines []) (seq first (last - first))) with
      | Some t => (t, true)
      | None => (spec1, found_spec1)
      end
    else (spec1, found_spec1) in
  (* the catalogue *)
  let spec3 :=
    if negb found_spec2 then
      match first_specialty (firstn 500 text_lower) with
      | Some s => s
      | None =>
        match first_specialty text_lower with
        | Some s => s
        | None => spec2
        end
      end
    else spec2 in
  (name2, spec3).

(** *** Experience *)

(** The loop over [exp_patterns]: the first pattern found in the text
    overwrites [exp] with its group 1 and ends the loop. *)
Fixpoint scan_patterns (ps : list regex) (text_lower : str) (exp : str) : str :=
  match ps with
  | [] => exp
  | p :: ps' =>
    match re_search U p text_lower with
    | Some m =>
      match group m 1 with
      | Some g => g
      | None => []
      end
    | None => scan_patterns ps' text_lower exp
    end
  end.

(** [s[:3] if s else ''] on a group that may have taken no part. *)
Definition month_key (g : option str) : str :=
  match g with
  | Some s => firstn 3 s
  | None => []
  end.

Definition month_of (g : option str) : Z := dict_get months_map (month_key g) 1.

(** [str(g)] on a group. *)
Definition str_of_group (g : option str) : str :=
  match g with
  | Some s => s
  | None => u "None"
  end.

Definition int_of_group (g : option str) : Z :=
  match g with
  | Some s => int_of_str U s
  | None => 0
  end.

(** The interval of one match of [range_pattern], if it is kept. *)
Definition period_of_match (m : rmatch) : option (Z * Z) :=
  let m1_str := group m 1 in
  let y1_str := group m 2 in
  let end_part := group m 3 in
  let m2_str := group m 4 in
  let y2_str := group m 5 in
  let y1 := int_of_group y1_str in
  let m1 := month_of m1_str in
  let keep (y2 m2 : Z) : option (Z * Z) :=
    let duration := ((y2 - y1) * 12 + (m2 - m1))%Z in
    if (0 <? duration)%Z && (duration <? 480)%Z
    then Some (y1 * 12 + m1, y2 * 12 + m2)%Z else None in
  if has_any present_words (str_of_group end_part) then
    keep (year (now E)) (month (now E))
  else
    match y2_str with
    | Some (_ :: _) => keep (int_of_group y2_str) (month_of m2_str)
    | _ => None
    end.

Fixpoint keep_some {A : Type} (l : list (option A)) : list A :=
  match l with
  | [] => []
  | Some x :: l' => x :: keep_some l'
  | None :: l' => keep_some l'
  end.

(** The lower-cased lines [max(0, i-3) .. i], each followed by a space. *)
Definition context_text (lines : list str) (i : nat) : str :=
  flat_map (fun j => lower U (nth j lines []) ++ u " ")
           (seq (i - 3) (i + 1 - (i - 3))).

(** The intervals contributed by line [i]. *)
Definition line_periods (lines : list str) (i : nat) : list (Z * Z) :=
  if has_any academic_keywords (context_text lines i) then []
  else keep_some (map period_of_match
                      (re_finditer U range_pattern (lower U (nth i lines [])))).

(** Pass 1 *)
Definition collect_periods (lines : list str) : list (Z * Z) :=
  flat_map (line_periods lines) (seq 0 (length lines)).

(** The years of the lines that carry no academic keyword. *)
Definition all_work_years (lines : list str) : list Z :=
  flat_map (fun line =>
              let low_line := lower U line in
              if negb (has_any academic_keywords low_line)
              then map (int_of_str U) (re_findall U year_regex low_line)
              else [])
           lines.

(** Pass 3 *)
Definition earliest_year (lines : list str) (exp : str) : str :=
  let current_year := year (now E) in
  let valid := filter (fun y => (1980 <? y)%Z && (y <=? current_year)%Z)
                      (all_work_years lines) in
  match valid with
  | [] => exp
  | y :: ys => str_of_Z (current_year - list_min y ys)
  end.

(** Passes 1 to 3, entered only while the value is still ["0"]. *)
Definition date_stages (text : str) (exp : str) : str :=
  if str_eqb exp (u "0") then
    let lines := split_lines text in
    let periods := collect_periods lines in
    let exp' :=
      match periods with
      | [] => exp
      | _ => years_of_periods periods
      end in
    if str_eqb exp' (u "0") then earliest_year lines exp' else exp'
  else exp.

(** The experience as the source computes it: the pattern loop occurs
    twice in a row. *)
Definition extract_experience (text text_lower : str) : str :=
  let exp0 := experience default_metadata in
  let exp1 := scan_patterns exp_patterns text_lower exp0 in
  let exp2 := scan_patterns exp_patterns text_lower exp1 in
  date_stages text exp2.

(** The same with the pattern loop written once. *)
Definition extract_experience_once (text text_lower : str) : str :=
  let exp0 := experience default_metadata in
  let exp1 := scan_patterns exp_patterns text_lower exp0 in
  date_stages text exp1.

(** *** Sections *)

Definition section_of (text : str) (pattern : regex) : list str :=
  match re_findall1 U pattern text with
  | [] => []
  | val :: _ => [title U (strip val)]
  end.

Definition extract_sections (text : str) : list str :=
  set_list E (flat_map (section_of text) section_patterns).

(** *** The whole function *)

Definition parse_with (exp_of : str -> str -> str) (text : str) : metadata :=
  if no_content text then default_metadata
  else
    let text_lower := lower U text in
    let '(nm, spec) := name_and_specialty text text_lower in
    {| emails := extract_emails text;
       phones := extract_phones text;
       skills := extract_skills text_lower;
       sections := extract_sections text;
       name := nm;
       specialty := spec;
       experience := exp_of text text_lower |}.

Definition parse_cv_metadata (text : str) : metadata :=
  parse_with extract_experience text.

(** [parse_cv_metadata] with the duplicated block removed. *)
Definition parse_cv_metadata_once (text : str) : metadata :=
  parse_with extract_experience_once text.

End Parser.

(** ** Other helpers of [app.py] *)

Definition ALLOWED_EXTENSIONS : list str := map u [ "pdf"; "txt"; "docx" ]%string.

(** [s.rsplit(sep, 1)]: split once, at the last occurrence of [sep]. *)
Definition rsplit_once (sep s : str) : list str :=
  match find_sub (rev sep) (rev s) with
  | Some (a, b) => [rev b; rev a]
  | None => [s]
  end.

Section Helpers.

Variable U : UCD.

(** ['.' in filename and filename.rsplit('.', 1)[1].lower() in ALLOWED_EXTENSIONS] *)
Definition allowed_file (filename : str) : bool :=
  contains (u ".") filename
  && existsb (str_eqb (lower U (nth 1 (rsplit_once (u ".") filename) [])))
             ALLOWED_EXTENSIONS.

End Helpers.

(** [s[:n]] for an integer [n], counted from the end when negative. *)
Definition slice_to (n : Z) (s : str) : str :=
  if (n <? 0)%Z then firstn (Z.to_nat (Z.of_nat (length s) + n)) s
  else firstn (Z.to_nat n) s.

Definition get_text_preview (text : str) (max_length : Z) : str :=
  if is_empty text then u "Aucun contenu extrait"
  else
    let text := join_space (split_ws text) in
    if (Z.of_nat (length text) <=? max_length)%Z then text
    else nth 0 (rsplit_once (u " ") (slice_to max_length text)) [] ++ u "…".

(** [s.split(c)] for a separator of one character. *)
Fixpoint split_on (c : cp) (s : str) : list str :=
  match s with
  | [] => [[]]
  | d :: t =>
    if (d =? c)%N then [] :: split_on c t
    else match split_on c t with
         | l :: ls => (d :: l) :: ls
         | [] => [[d]]
         end
  end.

(** The lists of the edit form: [[e.strip() for e in field.split(',') if
    e.strip()]]. *)
Definition form_list (field : str) : list str :=
  filter (fun e => negb (is_empty e)) (map strip (split_on (ch ",") field)).

(** [sep.join(l)] *)
Fixpoint join (sep : str) (l : list str) : str :=
  match l with
  | [] => []
  | [x] => x
  | x :: l' => x ++ sep ++ join sep l'
  end.

(** ** Reading an uploaded file: [extract_text]

    What the file system and the two document libraries answer for one
    file is given; the function is the code that chooses among them. *)

(** What a call of a library gives: a value, or an exception with its
    message [str(e)]. *)
Inductive outcome (A : Type) : Type :=
| Returns (a : A)
| Raises (msg : str).

Arguments Returns {A} a.
Arguments Raises {A} msg.

(** One page of a PDF: [page.extract_text(x_tolerance=2, y_tolerance=2)]
    and [page.extract_text(layout=True)], each a string or [None]. *)
Record pdf_page : Type := {
  extract_plain : outcome (option str);
  extract_layout : outcome (option str)
}.

Record file_content : Type := {
  (* [open(filepath, 'r', encoding=e).read()]; [None] is a decoding error *)
  read_utf8 : option str;
  read_latin1 : option str;
  read_cp1252 : option str;
  (* [pdfplumber.open(filepath)] and its pages *)
  pdf_open : outcome (list pdf_page);
  (* [docx.Document(filepath)] and the texts of its paragraphs *)
  docx_open : outcome (list str)
}.

(** Truth of a string or [None]. *)
Definition truthy (t : option str) : bool :=
  match t with
  | Some (_ :: _) => true
  | _ => false
  end.

(** The loop over the pages: the parts collected, or the first exception. *)
Fixpoint pdf_text_parts (pages : list pdf_page) : outcome (list str) :=
  match pages with
  | [] => Returns []
  | page :: rest =>
    match extract_plain page with
    | Raises msg => Raises msg
    | Returns page_text =>
      let page_text' :=
        if negb (truthy page_text) then extract_layout page
        else Returns page_text in
      match page_text' with
      | Raises msg => Raises msg
      | Returns page_text =>
        match pdf_text_parts rest with
        | Raises msg => Raises msg
        | Returns parts =>
          Returns (match page_text with
                   | Some (c :: t) => (c :: t) :: parts
                   | _ => parts
                   end)
        end
      end
    end
  end.

Definition scanned_message : str :=
  u "[ERREUR: Le document semble être une image scannée ou est protégé par mot de passe. Le texte n'a pas pu être extrait automatiquement.]".

Definition technical_message (msg : str) : str :=
  u "[ERREUR TECHNIQUE: " ++ msg ++ u "]".

Section ExtractText.

Variable U : UCD.

(** [None] is the [IndexError] of a path without a dot. *)
Definition extract_text (file : file_content) (filepath : str) : option str :=
  match rsplit_once (u ".") filepath with
  | [_; e] =>
    let ext := lower U e in
    if str_eqb ext (u "txt") then
      match read_utf8 file, read_latin1 file, read_cp1252 file with
      | Some t, _, _ => Some t
      | None, Some t, _ => Some t
      | None, None, Some t => Some t
      | None, None, None => Some []
      end
    else if str_eqb ext (u "pdf") then
      match pdf_open file with
      | Raises msg => Some (technical_message msg)
      | Returns pages =>
        match pdf_text_parts pages with
        | Raises msg => Some (technical_message msg)
        | Returns text_parts =>
          let extracted_text := strip (join [10%N] text_parts) in
          if is_empty extracted_text then Some scanned_message
          else Some extracted_text
        end
      end
    else if str_eqb ext (u "docx") then
      match docx_open file with
      | Raises msg => Some (technical_message msg)
      | Returns text_parts => Some (strip (join [10%N] text_parts))
      end
    else Some []
  | _ => None
  end.

End ExtractText.

(** ** Who may see a page: [login_required], [login], [logout] *)

Inductive method : Type := GET | HEAD | POST.

Inductive endpoint : Type :=
| landing | login | logout | upload | search | linkedin_search | dashboard
| view_cv | edit_cv | delete_cv_route | download_cv | api_search.

(** A request that the routing has accepted: the endpoint, the method, and
    the two fields of the login form ([request.form.get], [None] when
    absent). *)
Record request : Type := {
  rq_endpoint : endpoint;
  rq_method : method;
  form_username : option str;
  form_password : option str
}.

(** The session holds one key, [logged_in], set to [True] or absent. *)
Record session : Type := { logged_in : bool }.

Inductive response : Type :=
| redirect (target : endpoint)
| render_login
| view_body (e : endpoint).   (* the view's own code ran *)

Definition view : Type := session -> request -> session * response.

(** The decorator. *)
Definition login_required (f : view) : view :=
  fun s rq =>
    if negb (logged_in s) then (s, redirect login) else f s rq.

Definition opt_str_eqb (a : option str) (b : str) : bool :=
  match a with
  | Some a => str_eqb a b
  | None => false
  end.

Definition login_view : view :=
  fun s rq =>
    if logged_in s then (s, redirect dashboard)
    else
      match rq_method rq with
      | POST =>
        if opt_str_eqb (form_username rq) (u "admin")
           && opt_str_eqb (form_password rq) (u "admin123")
        then ({| logged_in := true |}, redirect dashboard)
        else (s, render_login)
      | _ => (s, render_login)
      end.

Definition logout_view : view :=
  fun _ _ => ({| logged_in := false |}, redirect landing).

(** The code of a view that does not touch the session. *)
Definition plain_view (e : endpoint) : view := fun s _ => (s, view_body e).

(** The views as [app.py] declares them, with their decorators. *)
Definition view_of (e : endpoint) : view :=
  match e with
  | landing => plain_view landing
  | login => login_view
  | logout => logout_view
  | upload => plain_view upload
  | search => login_required (plain_view search)
  | linkedin_search => login_required (plain_view linkedin_search)
  | dashboard => login_required (plain_view dashboard)
  | view_cv => login_required (plain_view view_cv)
  | edit_cv => login_required (plain_view edit_cv)
  | delete_cv_route => login_required (plain_view delete_cv_route)
  | download_cv => login_required (plain_view download_cv)
  | api_search => login_required (plain_view api_search)
  end.

(** The methods of each route ([HEAD] comes with [GET]). *)
Definition methods (e : endpoint) (m : method) : bool :=
  match e, m with
  | (login | upload | edit_cv), _ => true
  | delete_cv_route, POST => true
  | delete_cv_route, _ => false
  | _, POST => false
  | _, _ => true
  end.

(** One request: a method the route does not take is refused before any
    view runs ([None]). *)
Definition handle (s : session) (rq : request) : session * option response :=
  if methods (rq_endpoint rq) (rq_method rq) then
    let (s', r) := view_of (rq_endpoint rq) s rq in (s', Some r)
  else (s, None).

(** The session after a run of requests of one client, who sends back with
    each request the cookie that the answer before gave it. *)
Definition session_after (s : session) (rqs : list request) : session :=
  fold_left (fun s rq => fst (handle s rq)) rqs s.

Definition good_login (rq : request) : bool :=
  match rq_endpoint rq, rq_method rq with
  | login, POST =>
    opt_str_eqb (form_username rq) (u "admin")
    && opt_str_eqb (form_password rq) (u "admin123")
  | _, _ => false
  end.

Definition is_logout (rq : request) : bool :=
  match rq_endpoint rq, rq_method rq with
  | logout, (GET | HEAD) => true
  | _, _ => false
  end.

Definition protected (e : endpoint) : bool :=
  match e with
  | landing | login | logout | upload => false
  | _ => true
  end.

(** ** The store of [database.py] *)

(** A row of the table [cvs]; the columns that may be [NULL] are options. *)
Record cv_row : Type := {
  cv_id : Z;
  cv_filename : str;
  cv_original_filename : option str;
  cv_file_type : option str;
  cv_url : option str;
  cv_text : option str;
  cv_metadata_json : option str;
  cv_created_at : str;
  cv_updated_at : str
}.

(** Order of two texts, character by character. *)
Fixpoint str_leb (a b : str) : bool :=
  match a, b with
  | [], _ => true
  | _ :: _, [] => false
  | x :: a', y :: b' =>
    if (x <? y)%N then true else if (y <? x)%N then false else str_leb a' b'
  end.

Definition newer_first (a b : cv_row) : Prop :=
  str_leb (cv_created_at b) (cv_created_at a) = true.

(** The queries left to SQLite: [ORDER BY created_at DESC], which is free
    in the order of rows of one date; the full-text queries and the [LIKE]
    queries, which give a count and rows, or fail ([None]). *)
Record Sqlite : Type := {
  order_by_created_at_desc : list cv_row -> list cv_row;
  fts_count : list cv_row -> str -> option Z;
  fts_page : list cv_row -> str -> Z -> Z -> option (list cv_row);
  like_count : list cv_row -> str -> option Z;
  like_page : list cv_row -> str -> Z -> Z -> option (list cv_row)
}.

(** [ORDER BY created_at DESC] as SQLite promises it: the same rows, newest
    first. *)
Definition orders_newest_first (Q : Sqlite) : Prop :=
  forall rows,
    Permutation (order_by_created_at_desc Q rows) rows /\
    StronglySorted newer_first (order_by_created_at_desc Q rows).

(** The integers that can be bound to a parameter of a query: those of 64
    bits, signed.  Binding any other raises [OverflowError]. *)
Definition int64_min : Z := (-9223372036854775808)%Z.
Definition int64_max : Z := 9223372036854775807%Z.

Definition sqlite_int (z : Z) : bool :=
  (int64_min <=? z)%Z && (z <=? int64_max)%Z.

(** [LIMIT l OFFSET o]: a negative offset counts as none, a negative limit
    as no limit. *)
Definition sql_limit_offset {A : Type} (l o : Z) (rows : list A) : list A :=
  let rest := skipn (Z.to_nat o) rows in
  if (l <? 0)%Z then rest else firstn (Z.to_nat l) rest.

(** [WHERE file_type = ?] *)
Definition where_file_type (ft : str) (rows : list cv_row) : list cv_row :=
  filter (fun r => opt_str_eqb (cv_file_type r) ft) rows.

Section Store.

Variable Q : Sqlite.

(** The rows the listing is about: all of them, or those of one type when
    the type asked for is ['file'] or ['url']. *)
Definition listed (db : list cv_row) (file_type : option str) : list cv_row :=
  match file_type with
  | Some ft =>
    if existsb (str_eqb ft) [u "file"; u "url"] then where_file_type ft db
    else db
  | None => db
  end.

(** The rows of the page, the total and the number of pages; [None] is an
    exception: the [OverflowError] of a limit or an offset that does not
    fit in 64 bits, raised when the second query is run, or the
    [ZeroDivisionError] of [per_page = 0]. *)
Definition get_all_cvs (db : list cv_row) (page per_page : Z)
    (file_type : option str) : option (list cv_row * Z * Z) :=
  let offset := ((page - 1) * per_page)%Z in
  let total := Z.of_nat (length (listed db file_type)) in
  if negb (sqlite_int per_page && sqlite_int offset) then None
  else
    let cvs :=
      sql_limit_offset per_page offset
        (order_by_created_at_desc Q (listed db file_type)) in
    if (per_page =? 0)%Z then None
    else Some (cvs, total, ((total + per_page - 1) / per_page)%Z).

Definition quote_char : cp := 34%N.

(** [' OR '.join([f'"{term}"' for term in query.split() if term.strip()])] *)
Definition search_terms (query : str) : str :=
  join (u " OR ")
       (map (fun term => quote_char :: term ++ [quote_char])
            (filter (fun term => negb (is_empty (strip term)))
                    (split_ws query))).

(** [None] is an exception that leaves the function.  A limit or an
    offset that does not fit in 64 bits raises [OverflowError] when the
    query for the page is run: inside the [try] this leads to the [LIKE]
    queries, where it is raised again and leaves the function. *)
Definition search_cvs (db : list cv_row) (query : str) (page per_page : Z)
    : option (list cv_row * Z * Z) :=
  let offset := ((page - 1) * per_page)%Z in
  let terms := search_terms query in
  if is_empty terms then Some ([], 0%Z, 0%Z)
  else
    let bound := sqlite_int per_page && sqlite_int offset in
    let found :=
      match fts_count Q db terms with
      | Some total =>
        if bound then
          match fts_page Q db terms per_page offset with
          | Some cvs => Some (cvs, total)
          | None => None
          end
        else None
      | None => None
      end in
    let found :=
      match found with
      | Some r => Some r
      | None =>
        let like_query := ch "%" :: query ++ [ch "%"] in
        match like_count Q db like_query with
        | Some total =>
          if bound then
            match like_page Q db like_query per_page offset with
            | Some cvs => Some (cvs, total)
            | None => None
            end
          else None
        | None => None
        end
      end in
    match found with
    | Some (cvs, total) =>
      if (per_page =? 0)%Z then None
      else Some (cvs, total, ((total + per_page - 1) / per_page)%Z)
    | None => None
    end.

(** The rows that page [page] of the listing shows (none when the call
    raises). *)
Definition page_rows (db : list cv_row) (per_page : Z)
    (file_type : option str) (page : Z) : list cv_row :=
  match get_all_cvs db page per_page file_type with
  | Some (cvs, _, _) => cvs
  | None => []
  end.

End Store.

(** ** What a pattern denotes

    The words a pattern matches, told without the matcher: [lang U r pre w
    post] says that [r] matches the word [w] standing between the text
    [pre] (nearest character first) and the text [post]. *)

(** Successive words of one language, each in its own context. *)
Fixpoint iterated (L : str -> str -> str -> Prop) (pre : str) (ws : list str)
    (post : str) : Prop :=
  match ws with
  | [] => True
  | w :: ws' => L pre w (concat ws' ++ post) /\ iterated L (rev w ++ pre) ws' post
  end.

Fixpoint lang (U : UCD) (r : regex) (pre w post : str) {struct r} : Prop :=
  match r with
  | Eps => w = []
  | Lit c => w = [c]
  | LitI c => exists t, w = [t] /\ lit_matches_icase U c t = true
  | CSet neg items => exists t, w = [t] /\ cset_matches U neg items t = true
  | CSetI chars =>
    exists t, w = [t] /\ existsb (fun c => lit_matches_icase U c t) chars = true
  | Cat r1 r2 =>
    exists w1 w2, w = w1 ++ w2 /\ lang U r1 pre w1 (w2 ++ post)
                  /\ lang U r2 (rev w1 ++ pre) w2 post
  | Alt r1 r2 => lang U r1 pre w post \/ lang U r2 pre w post
  | Rep lo hi r' =>
    exists ws, w = concat ws /\ lo <= length ws
               /\ match hi with
                  | Some h => length ws <= lo + (h - lo)
                  | None => True
                  end
               /\ iterated (lang U r') pre ws post
  | Grp _ r' => lang U r' pre w post
  | Bol => w = [] /\ pre = []
  | Eol => w = [] /\ at_end post = true
  | WordB => w = [] /\ at_boundary U pre post = true
  end.

(** Every group [n] of the pattern captures only words that satisfy
    [Q n]. *)
Fixpoint groups_capture (U : UCD) (Q : nat -> str -> Prop) (r : regex) : Prop :=
  match r with
  | Cat r1 r2 | Alt r1 r2 => groups_capture U Q r1 /\ groups_capture U Q r2
  | Rep _ _ r' => groups_capture U Q r'
  | Grp n r' =>
    (forall pre w post, lang U r' pre w post -> Q n w) /\ groups_capture U Q r'
  | _ => True
  end.

(** Group [n] takes part in every match of the pattern. *)
Fixpoint always_captures (n : nat) (r : regex) : bool :=
  match r with
  | Cat r1 r2 => always_captures n r1 || always_captures n r2
  | Alt r1 r2 => always_captures n r1 && always_captures n r2
  | Rep lo _ r' => negb (Nat.eqb lo 0) && always_captures n r'
  | Grp i r' => Nat.eqb i n || always_captures n r'
  | _ => false
  end.

Definition captures_satisfy (Q : nat -> str -> Prop) (cs : list (nat * str))
  : Prop :=
  Forall (fun p => Q (fst p) (snd p)) cs.

(** Every character of every word of the pattern satisfies [P]. *)
Fixpoint alphabet (U : UCD) (P : cp -> Prop) (r : regex) : Prop :=
  match r with
  | Lit c => P c
  | LitI c => forall t, lit_matches_icase U c t = true -> P t
  | CSet neg items => forall t, cset_matches U neg items t = true -> P t
  | CSetI chars =>
    forall t, existsb (fun c => lit_matches_icase U c t) chars = true -> P t
  | Cat r1 r2 | Alt r1 r2 => alphabet U P r1 /\ alphabet U P r2
  | Rep _ _ r' | Grp _ r' => alphabet U P r'
  | _ => True
  end.

(** ** Shapes of the extracted values *)

Definition ascii_letter (c : cp) : bool :=
  in_range (ch "a") (ch "z") c || in_range (ch "A") (ch "Z") c.

Definition ascii_alnum (c : cp) : bool :=
  ascii_letter c || in_range (ch "0") (ch "9") c.

Definition one_of (s : string) (c : cp) : bool :=
  existsb (fun x => N.eqb x c) (u s).

(** [local@domain.tld] *)
Definition email_shape (e : str) : Prop :=
  exists local domain tld,
    e = local ++ u "@" ++ domain ++ u "." ++ tld /\
    local <> [] /\
    Forall (fun c => ascii_alnum c || one_of "._%+-" c = true) local /\
    domain <> [] /\
    Forall (fun c => ascii_alnum c || one_of ".-" c = true) domain /\
    2 <= length tld /\
    Forall (fun c => ascii_letter c = true) tld.

(** The characters a phone candidate is made of. *)
Definition phone_char (U : UCD) (c : cp) : bool :=
  is_decimal U c || is_space c || one_of "+().-" c.

(** A non-empty string of decimal digits. *)
Definition digits (U : UCD) (s : str) : Prop :=
  s <> [] /\ Forall (fun c => is_decimal U c = true) s.

(** [s] comes before [t] in the list [l]. *)
Definition before_in (A : Type) (l : list A) (s t : A) : Prop :=
  exists l1 l2 l3, l = l1 ++ s :: l2 ++ t :: l3.

(** The pattern has no group but group 1, and that group is [(\d+)]. *)
Definition is_number_body (r : regex) : bool :=
  match r with
  | Rep 1 None (CSet false [CDigit]) => true
  | _ => false
  end.

Fixpoint only_number_groups (r : regex) : bool :=
  match r with
  | Cat r1 r2 | Alt r1 r2 => only_number_groups r1 && only_number_groups r2
  | Rep _ _ r' => only_number_groups r'
  | Grp n r' => Nat.eqb n 1 && is_number_body r'
  | _ => true
  end.

(** ** Concrete surroundings

    A database in which no code point from 256 on is a letter or a digit,
    and an interpreter whose sets enumerate in order of first insertion.
    They serve to run the parser on Latin-1 texts. *)

Definition ucd_latin1 : UCD := {|
  ext_decimal := fun _ => None;
  ext_isalnum := fun _ => false;
  ext_isupper := fun _ => false;
  ext_islower := fun _ => false;
  ext_istitle := fun _ => false;
  ext_lower := fun _ c _ => [c];
  ext_title := fun c => [c];
  ext_re_lower := fun c => c
|}.

Definition datetime_of (y mo d : Z) : datetime :=
  {| year := y; month := mo; day := d;
     hour := 0; minute := 0; second := 0; microsecond := 0 |}.

Definition env_at (clock : datetime) : Env := {|
  now := clock;
  set_list := nodup str_eq_dec;
  set_list_NoDup := NoDup_nodup str_eq_dec;
  set_list_In := nodup_In str_eq_dec
|}.

(** An interpreter whose sets enumerate the other way round. *)
Definition env_rev_at (clock : datetime) : Env := {|
  now := clock;
  set_list := fun l => rev (nodup str_eq_dec l);
  set_list_NoDup := fun l => NoDup_rev (NoDup_nodup str_eq_dec l);
  set_list_In := fun l x =>
    iff_trans (iff_sym (in_rev (nodup str_eq_dec l) x)) (nodup_In str_eq_dec l x)
|}.

Definition nl : str := [10%N].

(** An engine that sorts by insertion, whose full-text index always fails
    and whose [LIKE] finds nothing. *)
Fixpoint insert_row (r : cv_row) (l : list cv_row) : list cv_row :=
  match l with
  | [] => [r]
  | x :: l' =>
    if str_leb (cv_created_at x) (cv_created_at r) then r :: l
    else x :: insert_row r l'
  end.

Definition sort_rows (l : list cv_row) : list cv_row :=
  fold_right insert_row [] l.

Definition sqlite_insertion : Sqlite := {|
  order_by_created_at_desc := sort_rows;
  fts_count := fun _ _ => None;
  fts_page := fun _ _ _ _ => None;
  like_count := fun _ _ => Some 0%Z;
  like_page := fun _ _ _ _ => Some []
|}.

(** A row with the given number, type and date. *)
Definition row_of (n : Z) (ft date : string) : cv_row := {|
  cv_id := n;
  cv_filename := str_of_Z n ++ u ".pdf";
  cv_original_filename := Some (u "cv.pdf");
  cv_file_type := Some (u ft);
  cv_url := None;
  cv_text := Some (u "texte");
  cv_metadata_json := Some (u "{}");
  cv_created_at := u date;
  cv_updated_at := u date
|}.

Definition five_rows : list cv_row :=
  [ row_of 1 "file" "2024-01-05 10:00:00";
    row_of 2 "url" "2024-03-01 09:30:00";
    row_of 3 "file" "2024-02-11 18:45:10";
    row_of 4 "file" "2024-03-01 09:30:00";
    row_of 5 "url" "2023-12-24 23:59:59" ].

Definition request_of (e : endpoint) (m : method) (user pass : option string)
  : request :=
  {| rq_endpoint := e; rq_method := m;
     form_username := option_map u user; form_password := option_map u pass |}.

(** A PDF of two pages, the first of which has text only in layout mode. *)
Definition two_page_pdf : file_content := {|
  read_utf8 := None;
  read_latin1 := Some (u "%PDF-1.4");
  read_cp1252 := Some (u "%PDF-1.4");
  pdf_open :=
    Returns [ {| extract_plain := Returns (Some []);
                 extract_layout := Returns (Some (u "  Jean Dupont")) |};
              {| extract_plain := Returns (Some (u "Python, SQL "));
                 extract_layout := Raises (u "layout") |} ];
  docx_open := Raises (u "File is not a zip file")
|}.

(** A PDF made of scanned pages. *)
Definition scanned_pdf : file_content := {|
  read_utf8 := None;
  read_latin1 := Some (u "%PDF-1.4");
  read_cp1252 := Some (u "%PDF-1.4");
  pdf_open :=
    Returns [ {| extract_plain := Returns None;
                 extract_layout := Returns (Some (u "   ")) |} ];
  docx_open := Raises (u "File is not a zip file")
|}.

(** ** Vocabulary of the statements *)

(** The text [a] ends, and the text [b] starts, with a word character. *)
Definition ends_with_word (U : UCD) (a : str) : Prop :=
  exists a' c, a = a' ++ [c] /\ is_word U c = true.

Definition starts_with_word (U : UCD) (b : str) : Prop :=
  exists c b', b = c :: b' /\ is_word U c = true.

(** [w] occurs in [s] as a word of its own: some occurrence has no word
    character next to it on either side. *)
Definition standalone_occurrence (U : UCD) (w s : str) : Prop :=
  exists a b, s = a ++ w ++ b /\ ~ ends_with_word U a /\ ~ starts_with_word U b.

(** On [line], the separator [sep] yields a name candidate: the line
    splits at the first [sep] into a left part [nm] and a right part [tp]
    (both trimmed), and [nm] has 2 or 3 words, fewer than 40 characters, no
    skip word in its lower-cased form, and every word starts upper-case. *)
Definition separator_candidate (U : UCD) (line sep nm tp : str) : Prop :=
  exists a b,
    find_sub sep line = Some (a, b) /\
    nm = strip a /\ tp = strip b /\
    2 <= length (split_ws nm) <= 3 /\
    length nm < 40 /\
    (forall sw, In sw skip_words -> contains sw (lower U nm) = false) /\
    (forall w, In w (split_ws nm) -> first_isupper U w = true).

(** Line [i] with [sep] comes first in the order of the scan: no earlier
    line yields a candidate with any separator, and on line [i] no
    separator listed before [sep] does. *)
Definition first_candidate (U : UCD) (lines : list str) (i : nat) (sep : str)
  : Prop :=
  (forall i' line' sep' nm' tp',
     i' < i -> nth_error lines i' = Some line' -> In sep' separators ->
     ~ separator_candidate U line' sep' nm' tp') /\
  (forall line l1 l2 sep' nm' tp',
     nth_error lines i = Some line -> separators = l1 ++ sep :: l2 ->
     In sep' l1 -> ~ separator_candidate U line sep' nm' tp').

(** What follows is the end of the text or a character that is not a word
    character, such as white space or punctuation (the underscore is a word
    character). *)
Definition followed_by_nonword (U : UCD) (b : str) : Prop :=
  b = [] \/ exists c b', b = c :: b' /\ is_word U c = false.

(** ASCII punctuation, as [string.punctuation] lists it: the printable
    ASCII characters that are neither letters nor digits nor the space.  The
    underscore is one of them. *)
Definition is_punctuation (c : cp) : bool :=
  ((33 <=? c) && (c <=? 47) || (58 <=? c) && (c <=? 64)
   || (91 <=? c) && (c <=? 96) || (123 <=? c) && (c <=? 126))%N.

(** What follows is white space, punctuation or the end of the text. *)
Definition followed_by_space_or_punctuation (b : str) : Prop :=
  b = [] \/
  exists c b', b = c :: b' /\ (is_space c = true \/ is_punctuation c = true).

(** The sorted-interval union in the words of the specification: going
    through intervals sorted by start, an interval that starts no later than
    the end of the current span extends it, any other opens a new span. *)
Fixpoint merge_sorted (cur : Z * Z) (l : list (Z * Z)) : list (Z * Z) :=
  match l with
  | [] => [cur]
  | p :: l' =>
    if (fst p <=? snd cur)%Z
    then merge_sorted (fst cur, Z.max (snd cur) (snd p)) l'
    else cur :: merge_sorted p l'
  end.

Definition merge_periods (l : list (Z * Z)) : list (Z * Z) :=
  match l with
  | [] => []
  | p :: l' => merge_sorted p l'
  end.

(** The months of a list of spans, summed. *)
Definition total_months (l : list (Z * Z)) : Z :=
  fold_right (fun p acc => (snd p - fst p) + acc)%Z 0%Z l.

(** The month [t] lies in the interval [p], the end excluded. *)
Definition in_period (t : Z) (p : Z * Z) : Prop := (fst p <= t < snd p)%Z.

Definition covered (l : list (Z * Z)) (t : Z) : Prop :=
  exists p, In p l /\ in_period t p.

(** Each span ends before the next one starts. *)
Fixpoint separated (l : list (Z * Z)) : Prop :=
  match l with
  | p :: (q :: _) as l' => (snd p < fst q)%Z /\ separated l'
  | _ => True
  end.

Definition by_start (p q : Z * Z) : Prop := (fst p <= fst q)%Z.

(** Deciding the conditions on occurrences for a given text:
    [standalone_in] looks for an occurrence of [w] with no word character on
    either side ([prev_word] tells whether the character before [s] is one),
    and [each_occurrence] checks what follows every occurrence of [w]. *)
Fixpoint standalone_in (U : UCD) (w : str) (prev_word : bool) (s : str) : bool :=
  match strip_prefix w s with
  | Some b => negb prev_word && negb (word_at U b)
  | None => false
  end
  || match s with
     | [] => false
     | c :: t => standalone_in U w (is_word U c) t
     end.

Fixpoint each_occurrence (P : str -> bool) (w s : str) : bool :=
  match strip_prefix w s with
  | Some b => P b
  | None => true
  end
  && match s with
     | [] => true
     | _ :: t => each_occurrence P w t
     end.

(** * Properties *)

(** ** Strings *)

Lemma str_eqb_eq a b : str_eqb a b = true <-> a = b.
Proof. unfold str_eqb; destruct (str_eq_dec a b); split; congruence. Qed.

Lemma strip_prefix_Some p s r : strip_prefix p s = Some r <-> s = p ++ r.
Proof.
  revert s; induction p as [|a p IH]; intros s; simpl.
  - split; intros H; [injection H as ->; reflexivity | now subst].
  - destruct s as [|b s].
    + split; discriminate.
    + destruct (N.eqb_spec a b) as [->|Hab].
      * rewrite IH; split; intros H; [now subst | now injection H].
      * split; [discriminate | intros H; injection H as H _; congruence].
Qed.

Lemma find_sub_Some sub s a b :
  find_sub sub s = Some (a, b) -> s = a ++ sub ++ b.
Proof.
  revert a b; induction s as [|c s IH]; intros a b; simpl.
  - destruct (strip_prefix sub []) as [r|] eqn:Hp; [|discriminate].
    intros H; injection H as <- <-.
    now apply strip_prefix_Some in Hp.
  - destruct (strip_prefix sub (c :: s)) as [r|] eqn:Hp.
    + intros H; injection H as <- <-.
      now apply strip_prefix_Some in Hp.
    + destruct (find_sub sub s) as [[a' b']|] eqn:Hf; [|discriminate].
      intros H; injection H as <- <-.
      simpl; f_equal; now apply IH.
Qed.

Lemma find_sub_app sub a b : find_sub sub (a ++ sub ++ b) <> None.
Proof.
  induction a as [|c a IH]; simpl.
  - destruct (sub ++ b) as [|c s] eqn:Hs; simpl;
      (destruct (strip_prefix sub _) as [r|] eqn:Hp; [discriminate|]);
      rewrite <- Hs in Hp;
      (assert (Hx : strip_prefix sub (sub ++ b) = Some b)
         by now apply strip_prefix_Some); congruence.
  - destruct (strip_prefix sub (c :: a ++ sub ++ b)); [discriminate|].
    destruct (find_sub sub (a ++ sub ++ b)) as [[a' b']|]; [discriminate|].
    contradiction.
Qed.

(** [sub in s] holds exactly when [s] splits around [sub]. *)
Lemma contains_iff sub s :
  contains sub s = true <-> exists a b, s = a ++ sub ++ b.
Proof.
  unfold contains; split.
  - destruct (find_sub sub s) as [[a b]|] eqn:Hf; [|discriminate].
    intros _; exists a, b; now apply find_sub_Some.
  - intros (a & b & ->).
    destruct (find_sub sub (a ++ sub ++ b)) eqn:Hf; [reflexivity|].
    now apply find_sub_app in Hf.
Qed.

Lemma contains_false sub s :
  contains sub s = false <-> ~ exists a b, s = a ++ sub ++ b.
Proof.
  rewrite <- contains_iff; destruct (contains sub s); split; congruence.
Qed.

Lemma has_any_iff words s :
  has_any words s = true <->
  exists w a b, In w words /\ s = a ++ w ++ b.
Proof.
  unfold has_any; rewrite existsb_exists; split.
  - intros (w & Hin & Hc); apply contains_iff in Hc as (a & b & ->); eauto.
  - intros (w & a & b & Hin & ->); exists w; split; [assumption|].
    apply contains_iff; eauto.
Qed.

Lemma lstrip_all_space s :
  Forall (fun c => is_space c = true) s -> lstrip s = [].
Proof.
  induction 1 as [|c s Hc _ IH]; simpl; [reflexivity|now rewrite Hc].
Qed.

Lemma strip_all_space s :
  Forall (fun c => is_space c = true) s -> strip s = [].
Proof.
  intros H; unfold strip, rstrip; now rewrite (lstrip_all_space H).
Qed.

Lemma lstrip_suffix s : exists ws, s = ws ++ lstrip s /\
                                   Forall (fun c => is_space c = true) ws.
Proof.
  induction s as [|c s (ws & Hs & Hws)]; simpl.
  - exists []; split; [reflexivity|constructor].
  - destruct (is_space c) eqn:Hc.
    + exists (c :: ws); split; [simpl; congruence|now constructor].
    + exists []; split; [reflexivity|constructor].
Qed.

Lemma strip_empty_all_space s :
  strip s = [] -> Forall (fun c => is_space c = true) s.
Proof.
  unfold strip, rstrip; intros H.
  destruct (lstrip_suffix s) as (ws & Hs & Hws).
  destruct (lstrip_suffix (rev (lstrip s))) as (ws' & Hs' & Hws').
  assert (Hl : lstrip (rev (lstrip s)) = []).
  { apply (f_equal (@rev cp)) in H; now rewrite rev_involutive in H. }
  rewrite Hl, app_nil_r in Hs'.
  rewrite Hs; apply Forall_app; split; [assumption|].
  rewrite <- (rev_involutive (lstrip s)), Hs'.
  now apply Forall_rev.
Qed.

(** ** The fields of the result *)

Section Fields.

Variables (U : UCD) (E : Env) (exp_of : str -> str -> str) (text : str).

Lemma parse_with_emails :
  emails (parse_with U E exp_of text) =
  if no_content text then [] else extract_emails U E text.
Proof.
  unfold parse_with; destruct (no_content text); [reflexivity|].
  destruct (name_and_specialty U text (lower U text)); reflexivity.
Qed.

Lemma parse_with_phones :
  phones (parse_with U E exp_of text) =
  if no_content text then [] else extract_phones U E text.
Proof.
  unfold parse_with; destruct (no_content text); [reflexivity|].
  destruct (name_and_specialty U text (lower U text)); reflexivity.
Qed.

Lemma parse_with_skills :
  skills (parse_with U E exp_of text) =
  if no_content text then [] else extract_skills U (lower U text).
Proof.
  unfold parse_with; destruct (no_content text); [reflexivity|].
  destruct (name_and_specialty U text (lower U text)); reflexivity.
Qed.

Lemma parse_with_sections :
  sections (parse_with U E exp_of text) =
  if no_content text then [] else extract_sections U E text.
Proof.
  unfold parse_with; destruct (no_content text); [reflexivity|].
  destruct (name_and_specialty U text (lower U text)); reflexivity.
Qed.

Lemma parse_with_name :
  name (parse_with U E exp_of text) =
  if no_content text then name default_metadata
  else fst (name_and_specialty U text (lower U text)).
Proof.
  unfold parse_with; destruct (no_content text); [reflexivity|].
  destruct (name_and_specialty U text (lower U text)); reflexivity.
Qed.

Lemma parse_with_specialty :
  specialty (parse_with U E exp_of text) =
  if no_content text then specialty default_metadata
  else snd (name_and_specialty U text (lower U text)).
Proof.
  unfold parse_with; destruct (no_content text); [reflexivity|].
  destruct (name_and_specialty U text (lower U text)); reflexivity.
Qed.

Lemma parse_with_experience :
  experience (parse_with U E exp_of text) =
  if no_content text then experience default_metadata
  else exp_of text (lower U text).
Proof.
  unfold parse_with; destruct (no_content text); [reflexivity|].
  destruct (name_and_specialty U text (lower U text)); reflexivity.
Qed.

End Fields.

(** ** The guard on empty and flagged input *)

(** C1: a text that is empty, blank, or carries the sentinel ["[ERREUR"]
    anywhere is answered with the default profile: no e-mail, phone, skill
    or section, the default name and specialty, and experience ["0"]. *)
Theorem C1_default_on_empty_or_flagged (U : UCD) (E : Env) (text : str) :
  text = [] \/
  Forall (fun c => is_space c = true) text \/
  (exists a b, text = a ++ u "[ERREUR" ++ b) ->
  parse_cv_metadata U E text = default_metadata /\
  default_metadata =
    {| emails := []; phones := []; skills := []; sections := [];
       name := u "Inconnu"; specialty := u "À définir";
       experience := u "0" |}.
Proof.
  intros H; split; [|reflexivity].
  unfold parse_cv_metadata, parse_with.
  assert (Hg : no_content text = true); [|rewrite Hg; reflexivity].
  unfold no_content.
  destruct H as [->|[H|H]].
  - reflexivity.
  - rewrite (strip_all_space H); destruct (is_empty text); reflexivity.
  - apply contains_iff in H; rewrite H.
    destruct (is_empty text), (is_empty (strip text)); reflexivity.
Qed.

Lemma C1_default_on_empty_or_flagged_witness :
  parse_cv_metadata ucd_latin1 (env_at (datetime_of 2026 11 3))
    (u "[ERREUR TECHNIQUE: no such file] Jean Dupont | Expert, 0612345678")
  = default_metadata.
Proof.
  refine (proj1 (C1_default_on_empty_or_flagged ucd_latin1
                   (env_at (datetime_of 2026 11 3)) _)).
  right; right.
  exists [], (u " TECHNIQUE: no such file] Jean Dupont | Expert, 0612345678").
  vm_compute; reflexivity.
Defined.

(** ** The duplicated pattern loop *)

Lemma scan_patterns_twice (U : UCD) ps text_lower exp :
  scan_patterns U ps text_lower (scan_patterns U ps text_lower exp)
  = scan_patterns U ps text_lower exp.
Proof.
  induction ps as [|p ps IH]; simpl; [reflexivity|].
  destruct (re_search U p text_lower) as [m|]; [reflexivity|apply IH].
Qed.

(** C9: running the loop over [exp_patterns] twice in a row leaves the
    same experience as running it once, so the function as written equals
    the function with the second copy of the block removed. *)
Theorem C9_duplicate_block_redundant (U : UCD) (E : Env) (text : str) :
  (forall exp,
     scan_patterns U exp_patterns (lower U text)
       (scan_patterns U exp_patterns (lower U text) exp)
     = scan_patterns U exp_patterns (lower U text) exp) /\
  parse_cv_metadata U E text = parse_cv_metadata_once U E text.
Proof.
  split; [intros exp; apply scan_patterns_twice|].
  unfold parse_cv_metadata, parse_cv_metadata_once, parse_with.
  destruct (no_content text); [reflexivity|].
  destruct (name_and_specialty U text (lower U text)) as [nm spec].
  f_equal.
  unfold extract_experience, extract_experience_once.
  now rewrite scan_patterns_twice.
Qed.

(** ** The matcher on simple patterns *)

Section MatcherFacts.

Variable U : UCD.

Lemma run_lits_inv (A : Type) (s : str) (k : cont A) st x :
  run U (lits s) k st = Some x ->
  exists rest,
    m_rest st = s ++ rest /\
    k (MState (rev s ++ m_pre st) rest (m_caps st)) = Some x.
Proof.
  revert st; induction s as [|c s IH]; intros st; simpl.
  - intros H; exists (m_rest st); split; [reflexivity|].
    now destruct st.
  - unfold step_char.
    destruct (m_rest st) as [|d t] eqn:Hr; [discriminate|].
    destruct (N.eqb_spec c d) as [->|]; [|discriminate].
    intros H; apply IH in H as (rest & Hrest & Hk); simpl in *.
    exists rest; split; [congruence|].
    now rewrite <- app_assoc.
Qed.

Lemma run_lits_app (A : Type) (s : str) (k : cont A) pre rest cs :
  run U (lits s) k (MState pre (s ++ rest) cs)
  = k (MState (rev s ++ pre) rest cs).
Proof.
  revert pre; induction s as [|c s IH]; intros pre; simpl; [reflexivity|].
  unfold step_char; simpl; rewrite N.eqb_refl, IH; simpl.
  now rewrite <- app_assoc.
Qed.

(** A search that succeeds does so at some position of the text. *)
Lemma search_from_inv r pre rest m :
  search_from U r pre rest = Some m ->
  exists a b, rest = a ++ b /\ match_here U r (rev a ++ pre) b = Some m.
Proof.
  revert pre; induction rest as [|c rest IH]; intros pre; simpl.
  - destruct (match_here U r pre []) eqn:Hm; [|discriminate].
    intros H; injection H as <-; exists [], []; auto.
  - destruct (match_here U r pre (c :: rest)) eqn:Hm.
    + intros H; injection H as <-; exists [], (c :: rest); auto.
    + intros H; apply IH in H as (a & b & -> & H).
      exists (c :: a), b; split; [reflexivity|].
      simpl; now rewrite <- app_assoc.
Qed.

(** And a position at which the pattern matches makes the search succeed. *)
Lemma search_from_complete r pre a b :
  match_here U r (rev a ++ pre) b <> None ->
  search_from U r pre (a ++ b) <> None.
Proof.
  revert pre; induction a as [|c a IH]; intros pre H; simpl in *.
  - destruct b; simpl; destruct (match_here U r pre _); congruence.
  - destruct (match_here U r pre (c :: a ++ b)); [discriminate|].
    apply IH; now rewrite <- app_assoc in H.
Qed.

Lemma word_at_rev a : word_at U (rev a) = true <-> ends_with_word U a.
Proof.
  split.
  - destruct (rev a) as [|c t] eqn:Hr; simpl; [discriminate|].
    intros H; exists (rev t), c; split; [|assumption].
    now rewrite <- (rev_involutive a), Hr.
  - intros (a' & c & -> & H); now rewrite rev_app_distr.
Qed.

Lemma word_at_start b : word_at U b = true <-> starts_with_word U b.
Proof.
  split.
  - destruct b as [|c t]; simpl; [discriminate|]; intros H; now exists c, t.
  - intros (c & b' & -> & H); assumption.
Qed.

Lemma followed_by_nonword_iff b :
  followed_by_nonword U b <-> word_at U b = false.
Proof.
  split.
  - intros [->|(c & b' & -> & H)]; [reflexivity|assumption].
  - destruct b as [|c t]; simpl; [now left|right; now exists c, t].
Qed.

(** The pattern of a skill matches at a position exactly when the
    lower-cased keyword stands there between two word boundaries. *)
Lemma skill_pattern_here skill pre b :
  match_here U (skill_pattern U skill) pre b <> None <->
  exists rest,
    b = lower U skill ++ rest /\
    at_boundary U pre b = true /\
    at_boundary U (rev (lower U skill) ++ pre) rest = true.
Proof.
  unfold match_here, skill_pattern; simpl.
  split.
  - destruct (at_boundary U pre b) eqn:Hb1; [|congruence].
    destruct (run U (lits (lower U skill)) _ _) as [x|] eqn:Hr; [|congruence].
    intros _; apply run_lits_inv in Hr as (rest & Hrest & Hk); simpl in *.
    exists rest; split; [assumption|split; [reflexivity|]].
    destruct (at_boundary U _ rest); [reflexivity|discriminate].
  - intros (rest & -> & Hb1 & Hb2).
    rewrite Hb1, run_lits_app; simpl; rewrite Hb2; discriminate.
Qed.

(** The skill tagger: a keyword is reported exactly when its lower-cased
    form occurs in the lower-cased text between two word boundaries. *)
Lemma extract_skills_iff skill text_lower :
  In skill (extract_skills U text_lower) <->
  In skill skill_keywords /\
  exists a b,
    text_lower = a ++ lower U skill ++ b /\
    at_boundary U (rev a) (lower U skill ++ b) = true /\
    at_boundary U (rev (lower U skill) ++ rev a) b = true.
Proof.
  unfold extract_skills; rewrite filter_In.
  apply and_iff_compat_l.
  unfold re_search; split.
  - destruct (search_from U _ [] text_lower) as [m|] eqn:Hs; [|discriminate].
    intros _; apply search_from_inv in Hs as (a & b & -> & Hm).
    rewrite app_nil_r in Hm.
    assert (Hn : match_here U (skill_pattern U skill) (rev a) b <> None)
      by congruence.
    apply skill_pattern_here in Hn as (rest & -> & H1 & H2).
    exists a, rest; auto.
  - intros (a & b & -> & H1 & H2).
    destruct (search_from U _ [] _) eqn:Hs; [reflexivity|exfalso].
    revert Hs; apply search_from_complete.
    rewrite app_nil_r; apply skill_pattern_here; eauto.
Qed.

End MatcherFacts.

(** ** Skills *)

Lemma parse_skills (U : UCD) (E : Env) text skill :
  In skill (skills (parse_cv_metadata U E text)) ->
  In skill (extract_skills U (lower U text)).
Proof.
  unfold parse_cv_metadata; rewrite parse_with_skills.
  destruct (no_content text); [intros []|exact (fun H => H)].
Qed.

(** A reported keyword whose lower-cased form starts and ends with a word
    character occurs in the text as a word of its own. *)
Lemma skill_word_standalone (U : UCD) text_lower skill w first mid front last :
  lower U skill = w ->
  w = first :: mid ->
  w = front ++ [last] ->
  is_word U first = true ->
  is_word U last = true ->
  In skill (extract_skills U text_lower) ->
  standalone_occurrence U w text_lower.
Proof.
  intros Hw Hf Hl Hwf Hwl Hin.
  apply extract_skills_iff in Hin as (_ & a & b & -> & H1 & H2).
  rewrite Hw in *.
  exists a, b; split; [reflexivity|].
  unfold at_boundary in H1, H2.
  rewrite Hf in H1; simpl in H1; rewrite Hwf in H1.
  rewrite Hl, rev_unit in H2; simpl in H2; rewrite Hwl in H2.
  split.
  - rewrite <- word_at_rev; destruct (word_at U (rev a)); [discriminate|congruence].
  - rewrite <- word_at_start; destruct (word_at U b); [discriminate|congruence].
Qed.

Lemma standalone_in_complete (U : UCD) w a b pw :
  (a = [] -> pw = false) ->
  ~ ends_with_word U a -> ~ starts_with_word U b ->
  standalone_in U w pw (a ++ w ++ b) = true.
Proof.
  revert pw; induction a as [|c a IH]; intros pw Hpw Ha Hb.
  - assert (Hp : strip_prefix w (w ++ b) = Some b) by now apply strip_prefix_Some.
    rewrite (Hpw eq_refl).
    assert (Hw : word_at U b = false).
    { destruct (word_at U b) eqn:Hw; [|reflexivity].
      elim Hb; now apply word_at_start. }
    destruct (w ++ b) eqn:Hwb; simpl in *; rewrite Hp, Hw; reflexivity.
  - cbn [app standalone_in].
    rewrite (IH (is_word U c)); [apply orb_true_r| | |assumption].
    + intros ->; destruct (is_word U c) eqn:Hc; [|reflexivity].
      elim Ha; now exists [], c.
    + intros (a' & d & -> & Hd); apply Ha; now exists (c :: a'), d.
Qed.

Lemma standalone_in_false (U : UCD) w s :
  standalone_in U w false s = false -> ~ standalone_occurrence U w s.
Proof.
  intros Hf (a & b & -> & Ha & Hb).
  rewrite (@standalone_in_complete U w a b false) in Hf; auto; discriminate.
Qed.

Lemma each_occurrence_sound (P : str -> bool) w s :
  each_occurrence P w s = true ->
  forall a b, s = a ++ w ++ b -> P b = true.
Proof.
  intros H a b ->; revert H; induction a as [|c a IH].
  - assert (Hp : strip_prefix w (w ++ b) = Some b) by now apply strip_prefix_Some.
    destruct (w ++ b) eqn:Hwb; simpl in *; rewrite Hp;
      intros H; now apply andb_prop in H.
  - cbn [app each_occurrence]; intros H; apply andb_prop in H as [_ H].
    now apply IH.
Qed.

(** C7: skill detection is anchored on word boundaries: a text whose
    lower-cased form contains "javascript" but no occurrence of "java" as a
    word of its own does not get the skill "Java". *)
Theorem C7_java_not_in_javascript (U : UCD) (E : Env) (text : str) :
  (exists a b, lower U text = a ++ u "javascript" ++ b) ->
  ~ standalone_occurrence U (u "java") (lower U text) ->
  ~ In (u "Java") (skills (parse_cv_metadata U E text)).
Proof.
  intros _ Hno Hin; apply Hno.
  apply parse_skills in Hin.
  apply (@skill_word_standalone U (lower U text) (u "Java") (u "java")
           (ch "j") (u "ava") (u "jav") (ch "a")).
  - vm_compute; reflexivity.
  - vm_compute; reflexivity.
  - vm_compute; reflexivity.
  - vm_compute; reflexivity.
  - vm_compute; reflexivity.
  - exact Hin.
Qed.

Lemma C7_java_not_in_javascript_witness :
  ~ In (u "Java")
      (skills (parse_cv_metadata ucd_latin1 (env_at (datetime_of 2026 11 3))
                 (u "Front-end: JavaScript, TypeScript; javascripts and Java_EE"))).
Proof.
  apply C7_java_not_in_javascript.
  - exists (u "front-end: "), (u ", typescript; javascripts and java_ee").
    vm_compute; reflexivity.
  - apply standalone_in_false; vm_compute; reflexivity.
Defined.

(** A reported keyword whose lower-cased form ends with a character that is
    not a word character has an occurrence followed by a word character. *)
Lemma skill_nonword_end (U : UCD) text_lower skill w front last :
  lower U skill = w ->
  w = front ++ [last] ->
  is_word U last = false ->
  In skill (extract_skills U text_lower) ->
  exists a b, text_lower = a ++ w ++ b /\ starts_with_word U b.
Proof.
  intros Hw Hl Hwl Hin.
  apply extract_skills_iff in Hin as (_ & a & b & -> & _ & H2).
  rewrite Hw in *.
  exists a, b; split; [reflexivity|].
  unfold at_boundary in H2.
  rewrite Hl, rev_unit in H2; simpl in H2; rewrite Hwl in H2.
  now apply word_at_start.
Qed.

Lemma followed_by_nonword_not_word (U : UCD) b :
  followed_by_nonword U b -> ~ starts_with_word U b.
Proof.
  intros H Hw; apply followed_by_nonword_iff in H.
  apply word_at_start in Hw; congruence.
Qed.

(** The same for "C#". *)
Lemma csharp_needs_word_after (U : UCD) (E : Env) (text : str) :
  (forall a b, lower U text = a ++ u "c#" ++ b -> followed_by_nonword U b) ->
  ~ In (u "C#") (skills (parse_cv_metadata U E text)).
Proof.
  intros Hall Hin; apply parse_skills in Hin.
  apply (@skill_nonword_end U (lower U text) (u "C#") (u "c#")
           (u "c") (ch "#")) in Hin as (a & b & Heq & Hw).
  - exact (followed_by_nonword_not_word (Hall a b Heq) Hw).
  - vm_compute; reflexivity.
  - vm_compute; reflexivity.
  - vm_compute; reflexivity.
Qed.

(** The two keywords are reported when a word character follows. *)
Lemma cpp_found_before_a_word (U : UCD) :
  extract_skills U (lower U (u "C++ C# C++11 C#7")) = [u "C++"; u "C#"] /\
  extract_skills U (lower U (u "C++, C# (C++/C#)")) = [].
Proof. split; vm_compute; reflexivity. Qed.

(** C10, as the code has it: the pattern of "C++" ends in a word boundary
    placed after '+', which is not a word character, so it matches only
    when a word character follows.  When every occurrence of "c++" in the
    lower-cased text is followed by the end of the text or by a character
    that is not a word character (white space, punctuation other than the
    underscore), the skill "C++" is not reported.  And on a text that is
    not blank or flagged, an occurrence of "c++" that does not follow a
    word character and is followed by one (a letter, a digit or the
    underscore) has the skill reported. *)
Theorem C10_cpp_needs_word_after (U : UCD) (E : Env) (text : str) :
  ((forall a b, lower U text = a ++ u "c++" ++ b -> followed_by_nonword U b) ->
   ~ In (u "C++") (skills (parse_cv_metadata U E text))) /\
  (no_content text = false ->
   forall a b,
     lower U text = a ++ u "c++" ++ b ->
     ~ ends_with_word U a -> starts_with_word U b ->
     In (u "C++") (skills (parse_cv_metadata U E text))).
Proof.
  split.
  - intros Hall Hin; apply parse_skills in Hin.
    apply (@skill_nonword_end U (lower U text) (u "C++") (u "c++")
             (u "c+") (ch "+")) in Hin as (a & b & Heq & Hw).
    + exact (followed_by_nonword_not_word (Hall a b Heq) Hw).
    + vm_compute; reflexivity.
    + vm_compute; reflexivity.
    + vm_compute; reflexivity.
  - intros Hnc a b Heq Ha Hb.
    unfold parse_cv_metadata; rewrite parse_with_skills, Hnc.
    apply extract_skills_iff; split; [vm_compute; auto 10|].
    assert (Hl : lower U (u "C++") = u "c++") by (vm_compute; reflexivity).
    exists a, b; rewrite Hl; split; [exact Heq|].
    assert (Hpre : word_at U (rev a) = false).
    { destruct (word_at U (rev a)) eqn:Hw; [|reflexivity].
      apply word_at_rev in Hw; contradiction. }
    apply word_at_start in Hb.
    unfold at_boundary; rewrite Hpre, Hb; split.
    + vm_compute; reflexivity.
    + vm_compute; reflexivity.
Qed.

Lemma C10_cpp_needs_word_after_witness :
  ~ In (u "C++")
      (skills (parse_cv_metadata ucd_latin1 (env_at (datetime_of 2026 11 3))
                 (u "Langages : C++, Python (C++ embarqué). Expert C++"))).
Proof.
  apply (proj1 (C10_cpp_needs_word_after ucd_latin1
                  (env_at (datetime_of 2026 11 3))
                  (u "Langages : C++, Python (C++ embarqué). Expert C++"))).
  intros a b Hab; apply followed_by_nonword_iff.
  apply negb_true_iff.
  refine (@each_occurrence_sound (fun b => negb (word_at ucd_latin1 b))
            (u "c++") _ _ a b Hab).
  vm_compute; reflexivity.
Defined.

(** C10, as stated, fails: the underscore is punctuation and yet a word
    character.  In "Python, C++_11" the one occurrence of "c++" is followed
    by punctuation, and "C++" is reported. *)
Lemma C10_counterexample :
  let text := u "Python, C++_11" in
  let U := ucd_latin1 in
  let E := env_at (datetime_of 2026 11 3) in
  (forall a b, lower U text = a ++ u "c++" ++ b ->
               followed_by_space_or_punctuation b) /\
  In (u "C++") (skills (parse_cv_metadata U E text)).
Proof.
  cbv zeta; split.
  - intros a b Hab.
    assert (H : match b with
                | [] => true
                | c :: _ => is_space c || is_punctuation c
                end = true).
    { refine (@each_occurrence_sound
                (fun b => match b with
                          | [] => true
                          | c :: _ => is_space c || is_punctuation c
                          end) (u "c++") _ _ a b Hab).
      vm_compute; reflexivity. }
    destruct b as [|c b']; [now left|right].
    exists c, b'; split; [reflexivity|].
    apply orb_true_iff in H; exact H.
  - vm_compute; auto.
Qed.

(** ** Phones *)

Lemma In_firstn (A : Type) (n : nat) (l : list A) x :
  In x (firstn n l) -> In x l.
Proof.
  intros H; rewrite <- (firstn_skipn n l); apply in_or_app; now left.
Qed.

Lemma NoDup_firstn (A : Type) (n : nat) (l : list A) :
  NoDup l -> NoDup (firstn n l).
Proof.
  intros H; rewrite <- (firstn_skipn n l) in H.
  exact (NoDup_app_remove_r _ _ H).
Qed.

Lemma set_list_nil (E : Env) : set_list E [] = [].
Proof.
  destruct (set_list E []) as [|x l] eqn:Hs; [reflexivity|].
  destruct (proj1 (set_list_In E [] x)); rewrite Hs; now left.
Qed.

(** A greedy run of single characters consumes characters that pass the
    test, and the rest of the pattern goes on from where the run stops. *)
Lemma rep_max_char_inv (A : Type) (test : cp -> bool) n (k : cont A) st x :
  rep_max (step_char test) n k st = Some x ->
  exists ws rest,
    m_rest st = ws ++ rest /\
    Forall (fun c => test c = true) ws /\
    k (MState (rev ws ++ m_pre st) rest (m_caps st)) = Some x.
Proof.
  revert st; induction n as [|n IH]; intros [pre s cs]; simpl.
  - intros H; exists [], s; auto.
  - unfold step_char at 1; simpl.
    assert (Hk : k (MState pre s cs) = Some x ->
                 exists ws rest, s = ws ++ rest /\
                   Forall (fun c => test c = true) ws /\
                   k (MState (rev ws ++ pre) rest cs) = Some x)
      by (intros H; exists [], s; auto).
    destruct s as [|c t]; [exact Hk|].
    destruct (test c) eqn:Hc; [|exact Hk].
    destruct (Nat.ltb (length t) (length (c :: t))); [|exact Hk].
    destruct (rep_max (step_char test) n k (MState (c :: pre) t cs)) eqn:Hr;
      [|exact Hk].
    intros H; injection H as ->.
    apply IH in Hr as (ws & rest & Hs & Hws & Hx); simpl in *.
    exists (c :: ws), rest; split; [simpl; congruence|].
    split; [now constructor|].
    simpl; now rewrite <- app_assoc.
Qed.

Lemma oneof_matches (U : UCD) (l : str) (c : cp) :
  cset_matches U false (map CChar l) c = true -> In c l.
Proof.
  unfold cset_matches; rewrite xorb_false_l, existsb_exists.
  intros (i & Hi & Hc); apply in_map_iff in Hi as (x & <- & Hx).
  simpl in Hc; apply N.eqb_eq in Hc; now subst.
Qed.

(** What [phone_start_pattern] accepts. *)
Lemma phone_start_inv (U : UCD) p m :
  re_match U phone_start_pattern p = Some m ->
  exists ws c rest,
    p = ws ++ c :: rest /\
    Forall (fun c => is_space c = true) ws /\
    In c (u "+0(").
Proof.
  unfold re_match, match_here.
  set (k := fun st : mstate => Some _).
  change (run U phone_start_pattern k (MState [] p []))
    with (rep_max (step_char (cset_matches U false [CSpace])) (length p)
            (step_char (cset_matches U false (map CChar (u "+0("))) k)
            (MState [] p [])).
  intros H; apply rep_max_char_inv in H as (ws & rest & Hs & Hws & H).
  unfold step_char in H; cbn [m_rest m_pre m_caps] in *.
  destruct rest as [|c rest]; [discriminate|].
  destruct (cset_matches U false _ c) eqn:Hc; [|discriminate].
  exists ws, c, rest; split; [assumption|split].
  - eapply Forall_impl; [|exact Hws].
    intros a Ha; unfold cset_matches in Ha; cbn in Ha.
    now rewrite orb_false_r in Ha.
  - exact (oneof_matches _ _ _ Hc).
Qed.

Lemma phone_ok_inv (U : UCD) p :
  phone_ok U p = true ->
  8 <= length (filter (is_decimal U) p) /\
  re_match U year_pattern p = None /\
  re_match U year_range_pattern p = None /\
  exists ws c rest,
    p = ws ++ c :: rest /\
    Forall (fun c => is_space c = true) ws /\
    In c (u "+0(").
Proof.
  unfold phone_ok, digits_only; intros H.
  apply andb_prop in H as [H H4]; apply andb_prop in H as [H H3].
  apply andb_prop in H as [H1 H2].
  split; [|split; [|split]].
  - apply negb_true_iff, Nat.ltb_ge in H1; exact H1.
  - destruct (re_match U year_pattern p); [discriminate|reflexivity].
  - destruct (re_match U year_range_pattern p); [discriminate|reflexivity].
  - destruct (re_match U phone_start_pattern p) as [m|] eqn:Hm; [|discriminate].
    exact (phone_start_inv _ _ Hm).
Qed.

Lemma filtered_phones_dates (U : UCD) :
  filtered_phones U (u "2018-2019" ++ nl ++ u "2020") = [] /\
  filtered_phones U (u "2018-2019 2020") = [].
Proof. split; vm_compute; reflexivity. Qed.

(** C5: every phone kept has at least 8 digits, is neither a bare year
    19xx/20xx nor a year range YYYY-YYYY or YYYY–YYYY, and starts, after
    white space, with '+', '0' or '('; the list has no duplicates and at
    most 5 entries.  A text made of "2018-2019" and "2020" only has no
    phone. *)
Theorem C5_phones_filtered (U : UCD) (E : Env) (text : str) :
  (forall p, In p (phones (parse_cv_metadata U E text)) ->
     8 <= length (filter (is_decimal U) p) /\
     re_match U year_pattern p = None /\
     re_match U year_range_pattern p = None /\
     exists ws c rest,
       p = ws ++ c :: rest /\
       Forall (fun c => is_space c = true) ws /\
       In c (u "+0(")) /\
  NoDup (phones (parse_cv_metadata U E text)) /\
  length (phones (parse_cv_metadata U E text)) <= 5 /\
  phones (parse_cv_metadata U E (u "2018-2019" ++ nl ++ u "2020")) = [] /\
  phones (parse_cv_metadata U E (u "2018-2019 2020")) = [].
Proof.
  unfold parse_cv_metadata; rewrite !parse_with_phones.
  split; [|split; [|split; [|split]]].
  - destruct (no_content text); [intros p []|].
    intros p Hp; unfold extract_phones in Hp.
    apply In_firstn, set_list_In in Hp.
    unfold filtered_phones in Hp; apply filter_In in Hp as [_ Hp].
    exact (phone_ok_inv _ _ Hp).
  - destruct (no_content text); [constructor|].
    apply NoDup_firstn, set_list_NoDup.
  - destruct (no_content text); [simpl; lia|].
    apply firstn_le_length.
  - destruct (no_content _); [reflexivity|].
    unfold extract_phones.
    rewrite (proj1 (filtered_phones_dates U)), set_list_nil; reflexivity.
  - destruct (no_content _); [reflexivity|].
    unfold extract_phones.
    rewrite (proj2 (filtered_phones_dates U)), set_list_nil; reflexivity.
Qed.

(** ** Academic lines *)

Lemma context_text_contains (U : UCD) lines i j :
  i - 3 <= j <= i ->
  exists a b, context_text U lines i = a ++ lower U (nth j lines []) ++ b.
Proof.
  intros Hj; unfold context_text.
  assert (Hin : In j (seq (i - 3) (i + 1 - (i - 3)))) by (apply in_seq; lia).
  apply in_split in Hin as (l1 & l2 & ->).
  rewrite flat_map_app; simpl.
  eexists _, _; rewrite <- app_assoc; reflexivity.
Qed.

Lemma master_degree_line (U : UCD) (E : Env) :
  lower U (u "Master degree, 2015-2020") = u "master degree, 2015-2020" /\
  keep_some (map (period_of_match U E)
                 (re_finditer U range_pattern (u "master degree, 2015-2020")))
  = [(2015 * 12 + 1, 2020 * 12 + 1)%Z] /\
  no_content (u "Master degree, 2015-2020") = false /\
  extract_experience U E (u "Master degree, 2015-2020")
    (u "master degree, 2015-2020") = u "0".
Proof. repeat split; vm_compute; reflexivity. Qed.

(** C3: in the date-interval stage a line contributes no interval when the
    line itself or one of the 3 lines before it contains an academic
    keyword.  The line "Master degree, 2015-2020" has the shape of a date
    range, which alone would give the interval from January 2015 to January
    2020, and contributes nothing; a text made of that line keeps the
    experience "0". *)
Theorem C3_academic_lines_excluded (U : UCD) (E : Env)
    (lines : list str) (i j : nat) (kw : str) :
  i - 3 <= j <= i ->
  In kw academic_keywords ->
  (exists a b, lower U (nth j lines []) = a ++ kw ++ b) ->
  line_periods U E lines i = [] /\
  (forall lines' i',
     nth i' lines' [] = u "Master degree, 2015-2020" ->
     line_periods U E lines' i' = [] /\
     keep_some (map (period_of_match U E)
                    (re_finditer U range_pattern (lower U (nth i' lines' []))))
     = [(2015 * 12 + 1, 2020 * 12 + 1)%Z]) /\
  experience (parse_cv_metadata U E (u "Master degree, 2015-2020")) = u "0".
Proof.
  assert (Hgen : forall lines i j kw,
             i - 3 <= j <= i -> In kw academic_keywords ->
             (exists a b, lower U (nth j lines []) = a ++ kw ++ b) ->
             line_periods U E lines i = []).
  { clear; intros lines i j kw Hj Hkw (a & b & Hl).
    unfold line_periods.
    destruct (context_text_contains U lines Hj) as (a' & b' & Hc).
    assert (Hany : has_any academic_keywords (context_text U lines i) = true).
    { apply has_any_iff; exists kw, (a' ++ a), (b ++ b'); split; [assumption|].
      rewrite Hc.
      transitivity (a' ++ (a ++ kw ++ b) ++ b');
        [do 2 f_equal; exact Hl|rewrite <- !app_assoc; reflexivity]. }
    rewrite Hany; reflexivity. }
  destruct (master_degree_line U E) as (Hlow & Hper & Hnc & Hexp).
  intros Hj Hkw Hl; split; [exact (Hgen lines i j kw Hj Hkw Hl)|split].
  - intros lines' i' Hnth; split.
    + apply (Hgen lines' i' i' (u "master")); [lia| |].
      * vm_compute; tauto.
      * rewrite Hnth, Hlow; exists [], (u " degree, 2015-2020").
        vm_compute; reflexivity.
    + rewrite Hnth, Hlow; exact Hper.
  - unfold parse_cv_metadata; rewrite parse_with_experience, Hnc, Hlow.
    exact Hexp.
Qed.

Lemma C3_academic_lines_excluded_witness :
  line_periods ucd_latin1 (env_at (datetime_of 2026 11 3))
    [u "Formation"; u "Master degree"; u ""; u "2015 - 2020"] 3 = [].
Proof.
  refine (proj1 (@C3_academic_lines_excluded ucd_latin1
                   (env_at (datetime_of 2026 11 3))
                   [u "Formation"; u "Master degree"; u ""; u "2015 - 2020"]
                   3 1 (u "master") _ _ _)).
  - lia.
  - vm_compute; tauto.
  - exists [], (u " degree"); vm_compute; reflexivity.
Defined.

(** ** Experience: explicit mentions *)

Lemma scan_patterns_first (U : UCD) ps text_lower exp i p m g :
  nth_error ps i = Some p ->
  (forall j q, j < i -> nth_error ps j = Some q ->
               re_search U q text_lower = None) ->
  re_search U p text_lower = Some m ->
  group m 1 = Some g ->
  scan_patterns U ps text_lower exp = g.
Proof.
  revert i; induction ps as [|q ps IH]; intros [|i] Hp Hbefore Hm Hg;
    simpl in *; try discriminate.
  - injection Hp as ->; now rewrite Hm, Hg.
  - rewrite (Hbefore 0 q); [|lia|reflexivity].
    apply (IH i); try assumption.
    intros j q' Hj Hq'; apply (Hbefore (S j)); [lia|assumption].
Qed.

Lemma str_eqb_neq a b : a <> b -> str_eqb a b = false.
Proof. unfold str_eqb; destruct (str_eq_dec a b); congruence. Qed.

Lemma date_stages_skipped (U : UCD) (E : Env) text exp :
  exp <> u "0" -> date_stages U E text exp = exp.
Proof. intros H; unfold date_stages; now rewrite (str_eqb_neq H). Qed.

Lemma scan_patterns_none (U : UCD) ps text_lower exp :
  (forall q, In q ps -> re_search U q text_lower = None) ->
  scan_patterns U ps text_lower exp = exp.
Proof.
  induction ps as [|q ps IH]; intros H; simpl; [reflexivity|].
  rewrite (H q (or_introl eq_refl)); apply IH.
  intros q' Hq'; apply H; now right.
Qed.

(** C4, as the code has it.  On a blank or flagged text the experience is
    the default "0", whatever the patterns find.  On any other text in
    which a pattern of [exp_patterns] is found, the first such pattern in
    the order of the list supplies its captured digits [g], and the
    experience is what the date stages make of [g]: if [g] is not exactly
    "0" it is the experience and the date stages leave it untouched,
    whatever the clock; if [g] is exactly "0" the date stages run on "0",
    which is what they do on a text in which no pattern is found. *)
Theorem C4_first_explicit_mention_wins (U : UCD) (E : Env) (text : str)
    (i : nat) (p : regex) (m : rmatch) (g : str) :
  nth_error exp_patterns i = Some p ->
  (forall j q, j < i -> nth_error exp_patterns j = Some q ->
               re_search U q (lower U text) = None) ->
  re_search U p (lower U text) = Some m ->
  group m 1 = Some g ->
  (no_content text = true ->
   experience (parse_cv_metadata U E text) = u "0") /\
  (no_content text = false ->
   experience (parse_cv_metadata U E text) = date_stages U E text g /\
   (g <> u "0" ->
    experience (parse_cv_metadata U E text) = g /\
    date_stages U E text g = g) /\
   (g = u "0" ->
    experience (parse_cv_metadata U E text) = date_stages U E text (u "0"))) /\
  (forall text',
     no_content text' = false ->
     (forall q, In q exp_patterns ->
                re_search U q (lower U text') = None) ->
     experience (parse_cv_metadata U E text')
     = date_stages U E text' (u "0")).
Proof.
  intros Hp Hbefore Hm Hg.
  split; [|split].
  - intros Hnc.
    unfold parse_cv_metadata; rewrite parse_with_experience, Hnc; reflexivity.
  - intros Hnc.
    assert (Hexp : experience (parse_cv_metadata U E text)
                   = date_stages U E text g).
    { unfold parse_cv_metadata; rewrite parse_with_experience, Hnc.
      unfold extract_experience.
      rewrite scan_patterns_twice.
      now rewrite (@scan_patterns_first U exp_patterns (lower U text) _ i p m g
                     Hp Hbefore Hm Hg). }
    split; [exact Hexp|split].
    + intros Hg0; rewrite Hexp.
      split; exact (date_stages_skipped U E text Hg0).
    + intros Hg0; rewrite Hexp, Hg0; reflexivity.
  - intros text' Hnc Hnone.
    unfold parse_cv_metadata; rewrite parse_with_experience, Hnc.
    unfold extract_experience.
    rewrite scan_patterns_twice.
    now rewrite (@scan_patterns_none U exp_patterns (lower U text') _ Hnone).
Qed.

Lemma C4_first_explicit_mention_wins_witness :
  experience
    (parse_cv_metadata ucd_latin1 (env_at (datetime_of 2026 11 3))
       (u "Senior developer, plus de 10 ans" ++ nl ++ u "2001 - 2005"))
  = u "10".
Proof.
  destruct (@C4_first_explicit_mention_wins ucd_latin1
              (env_at (datetime_of 2026 11 3))
              (u "Senior developer, plus de 10 ans" ++ nl ++ u "2001 - 2005")
              3 (nth 3 exp_patterns Eps)
              (RMatch (u "plus de 10 ans") [(1, u "10")]
                      (nl ++ u "2001 - 2005"))
              (u "10")) as (_ & H & _).
  - vm_compute; reflexivity.
  - intros [|[|[|j]]] q Hj Hq; [| | |lia];
      vm_compute in Hq; injection Hq as <-; vm_compute; reflexivity.
  - vm_compute; reflexivity.
  - vm_compute; reflexivity.
  - destruct H as (_ & H & _); [vm_compute; reflexivity|].
    apply H; vm_compute; discriminate.
Defined.

(** C4, as stated, fails: the first pattern finds "0 ans d'experience" and
    captures "0", and the experience is nevertheless taken from the dates. *)
Lemma C4_counterexample :
  let text := u "0 ans d'experience" ++ nl ++ u "2010 - 2015" in
  let U := ucd_latin1 in
  let E := env_at (datetime_of 2026 11 3) in
  no_content text = false /\
  (exists m, re_search U (nth 0 exp_patterns Eps) (lower U text) = Some m /\
             group m 1 = Some (u "0")) /\
  experience (parse_cv_metadata U E text) = u "5" /\
  u "5" <> u "0".
Proof.
  cbv zeta; split; [vm_compute; reflexivity|split; [|split]].
  - eexists; split; vm_compute; reflexivity.
  - vm_compute; reflexivity.
  - vm_compute; discriminate.
Qed.

(** ** Dependence on the surroundings *)

Section SameSurroundings.

Variables (U : UCD) (E1 E2 : Env).
Hypothesis same_year : year (now E1) = year (now E2).
Hypothesis same_month : month (now E1) = month (now E2).
Hypothesis same_sets : forall l, set_list E1 l = set_list E2 l.

Lemma period_of_match_env m : period_of_match U E1 m = period_of_match U E2 m.
Proof. unfold period_of_match; now rewrite same_year, same_month. Qed.

Lemma line_periods_env lines i : line_periods U E1 lines i = line_periods U E2 lines i.
Proof.
  unfold line_periods.
  destruct (has_any academic_keywords (context_text U lines i)); [reflexivity|].
  f_equal; apply map_ext; exact period_of_match_env.
Qed.

Lemma collect_periods_env lines : collect_periods U E1 lines = collect_periods U E2 lines.
Proof.
  unfold collect_periods; apply flat_map_ext; exact (line_periods_env lines).
Qed.

Lemma earliest_year_env lines exp :
  earliest_year U E1 lines exp = earliest_year U E2 lines exp.
Proof. unfold earliest_year; now rewrite same_year. Qed.

Lemma date_stages_env text exp : date_stages U E1 text exp = date_stages U E2 text exp.
Proof.
  unfold date_stages.
  destruct (str_eqb exp (u "0")); [|reflexivity].
  rewrite collect_periods_env.
  destruct (collect_periods U E2 (split_lines text)).
  - destruct (str_eqb exp (u "0")); [apply earliest_year_env|reflexivity].
  - destruct (str_eqb _ (u "0")); [apply earliest_year_env|reflexivity].
Qed.

Lemma parse_cv_metadata_env text :
  parse_cv_metadata U E1 text = parse_cv_metadata U E2 text.
Proof.
  unfold parse_cv_metadata, parse_with.
  destruct (no_content text); [reflexivity|].
  destruct (name_and_specialty U text (lower U text)) as [nm spec].
  unfold extract_emails, extract_phones, extract_sections, extract_experience.
  rewrite !same_sets, date_stages_env; reflexivity.
Qed.

End SameSurroundings.

(** C8, as the code has it: the profile is a function of the text, of the
    year and month of the clock at the time of the call, and of the order in
    which the interpreter enumerates sets.  Two calls on the same text that
    agree on these three yield identical profiles; nothing else of the
    clock and no state left by an earlier call has any influence. *)
Theorem C8_deterministic_given_month_and_set_order
    (U : UCD) (E1 E2 : Env) (text : str) :
  year (now E1) = year (now E2) ->
  month (now E1) = month (now E2) ->
  (forall l, set_list E1 l = set_list E2 l) ->
  parse_cv_metadata U E1 text = parse_cv_metadata U E2 text.
Proof. intros Hy Hm Hs; now apply parse_cv_metadata_env. Qed.

Lemma C8_deterministic_given_month_and_set_order_witness :
  parse_cv_metadata ucd_latin1 (env_at (datetime_of 2026 11 3))
    (u "Acme Corp, janv 2015 - present, a@b.org")
  = parse_cv_metadata ucd_latin1 (env_at (datetime_of 2026 11 28))
    (u "Acme Corp, janv 2015 - present, a@b.org").
Proof.
  apply (@C8_deterministic_given_month_and_set_order ucd_latin1
           (env_at (datetime_of 2026 11 3)) (env_at (datetime_of 2026 11 28))).
  - reflexivity.
  - reflexivity.
  - intros l; reflexivity.
Defined.

(** C8, as stated, fails: the same text parsed in January 2020 and in
    January 2021 gives the experience "5" and then "6"; and parsed by two
    interpreters that enumerate sets differently it gives the e-mails in two
    different orders. *)
Lemma C8_counterexample :
  let U := ucd_latin1 in
  let text := u "Acme Corp, 2015 - present, a@b.org, c@d.org" in
  experience (parse_cv_metadata U (env_at (datetime_of 2020 1 15)) text) = u "5" /\
  experience (parse_cv_metadata U (env_at (datetime_of 2021 1 15)) text) = u "6" /\
  parse_cv_metadata U (env_at (datetime_of 2020 1 15)) text
    <> parse_cv_metadata U (env_at (datetime_of 2021 1 15)) text /\
  parse_cv_metadata U (env_at (datetime_of 2020 1 15)) text
    <> parse_cv_metadata U (env_rev_at (datetime_of 2020 1 15)) text.
Proof.
  cbv zeta; repeat split; try (vm_compute; reflexivity);
    vm_compute; discriminate.
Qed.

(** ** The separator heuristic *)

Section Separator.

Variable U : UCD.

Lemma split_ws_nonempty cur s w :
  In w (split_ws_from cur s) -> w <> [].
Proof.
  revert cur; induction s as [|c s IH]; intros cur; simpl.
  - destruct cur as [|d cur]; [intros []|].
    intros [<-|[]] H; apply (f_equal (@length cp)) in H.
    simpl in H; rewrite length_app in H; simpl in H; lia.
  - destruct (is_space c); [|apply IH].
    destruct cur as [|d cur]; [apply IH|].
    intros [<-|H]; [|exact (IH _ H)].
    intros H; apply (f_equal (@length cp)) in H.
    simpl in H; rewrite length_app in H; simpl in H; lia.
Qed.

Lemma try_separator_found line sep a b :
  find_sub sep line = Some (a, b) ->
  try_separator U line sep =
  if (2 <=? length (split_ws (strip a))) && (length (split_ws (strip a)) <=? 3)
     && (length (strip a) <? 40) then
    if negb (has_any skip_words (lower U (strip a))) then
      if forallb (fun w => is_empty w || first_isupper U w) (split_ws (strip a))
      then Some (strip a,
                 if negb (is_empty (strip b)) && (3 <? length (strip b))
                 then Some (strip b) else None)
      else None
    else None
  else None.
Proof.
  intros H; unfold try_separator, contains, split_once; rewrite H; reflexivity.
Qed.

Lemma try_separator_not_found line sep :
  find_sub sep line = None -> try_separator U line sep = None.
Proof.
  intros H; unfold try_separator, contains; rewrite H; reflexivity.
Qed.

Lemma try_separator_iff line sep nm osp :
  try_separator U line sep = Some (nm, osp) <->
  exists tp, separator_candidate U line sep nm tp /\
             osp = if negb (is_empty tp) && (3 <? length tp)
                   then Some tp else None.
Proof.
  unfold separator_candidate.
  destruct (find_sub sep line) as [[a b]|] eqn:Hf.
  2:{ rewrite (try_separator_not_found _ _ Hf).
      split; [discriminate|intros (tp & (a & b & H & _) & _); discriminate]. }
  rewrite (try_separator_found _ _ Hf).
  set (words := split_ws (strip a)).
  destruct (Nat.leb_spec 2 (length words)) as [H2|H2]; cbn [andb].
  2:{ split; [discriminate|].
      intros (tp & (a' & b' & H & -> & _ & [Hw _] & _) & _).
      injection H as <- <-; fold words in Hw; lia. }
  destruct (Nat.leb_spec (length words) 3) as [H3|H3]; cbn [andb].
  2:{ split; [discriminate|].
      intros (tp & (a' & b' & H & -> & _ & [_ Hw] & _) & _).
      injection H as <- <-; fold words in Hw; lia. }
  destruct (Nat.ltb_spec (length (strip a)) 40) as [H40|H40].
  2:{ split; [discriminate|].
      intros (tp & (a' & b' & H & -> & _ & _ & Hl & _) & _).
      injection H as <- <-; lia. }
  destruct (has_any skip_words (lower U (strip a))) eqn:Hskip; cbn [negb].
  { split; [discriminate|].
    intros (tp & (a' & b' & H & -> & _ & _ & _ & Hs & _) & _).
    injection H as <- <-.
    unfold has_any in Hskip; apply existsb_exists in Hskip as (sw & Hin & Hc).
    rewrite (Hs sw Hin) in Hc; discriminate. }
  destruct (forallb _ words) eqn:Hup.
  2:{ split; [discriminate|].
      intros (tp & (a' & b' & H & -> & _ & _ & _ & _ & Hu) & _).
      injection H as <- <-.
      assert (Ht : forallb (fun w => is_empty w || first_isupper U w) words = true).
      { apply forallb_forall; intros w Hw; rewrite (Hu w Hw); apply orb_true_r. }
      congruence. }
  split.
  - intros H; injection H as <- <-.
    exists (strip b); split; [|reflexivity].
    exists a, b; repeat split; try assumption; try reflexivity.
    + intros sw Hin; destruct (contains sw _) eqn:Hc; [|reflexivity].
      assert (Hx : has_any skip_words (lower U (strip a)) = true)
        by (apply existsb_exists; eauto).
      congruence.
    + intros w Hw.
      pose proof (proj1 (forallb_forall _ _) Hup w Hw) as Hx.
      destruct w as [|c w]; [|exact Hx].
      now apply split_ws_nonempty in Hw.
  - intros (tp & (a' & b' & H & -> & -> & _) & ->).
    injection H as <- <-; reflexivity.
Qed.

Lemma first_separator_inv line seps r :
  first_separator U line seps = Some r ->
  exists l1 sep l2,
    seps = l1 ++ sep :: l2 /\
    try_separator U line sep = Some r /\
    forall s, In s l1 -> try_separator U line s = None.
Proof.
  induction seps as [|sep seps IH]; simpl; [discriminate|].
  destruct (try_separator U line sep) as [r'|] eqn:Ht.
  - intros H; injection H as ->.
    exists [], sep, seps; repeat split; [assumption|intros s []].
  - intros H; apply IH in H as (l1 & sep' & l2 & -> & Hs & Hn).
    exists (sep :: l1), sep', l2; repeat split; [assumption|].
    intros s [<-|Hin]; [assumption|now apply Hn].
Qed.

Lemma first_separator_None line seps :
  first_separator U line seps = None ->
  forall s, In s seps -> try_separator U line s = None.
Proof.
  induction seps as [|sep seps IH]; simpl; [intros _ s []|].
  destruct (try_separator U line sep) eqn:Ht; [discriminate|].
  intros H s [<-|Hin]; [assumption|now apply IH].
Qed.

Lemma heuristic0_inv k lines i nm osp :
  heuristic0 U k lines = Some (i, nm, osp) ->
  exists n line,
    i = (k + Z.of_nat n)%Z /\
    nth_error lines n = Some line /\
    first_separator U line separators = Some (nm, osp) /\
    forall n' line', n' < n -> nth_error lines n' = Some line' ->
                     first_separator U line' separators = None.
Proof.
  revert k; induction lines as [|line lines IH]; intros k; cbn [heuristic0]; [discriminate|].
  destruct (first_separator U line separators) as [[nm' osp']|] eqn:Hf.
  - intros H; injection H as <- <- <-.
    exists 0, line; repeat split; [lia|assumption|].
    intros n' line' Hn; lia.
  - intros H; apply IH in H as (n & line' & -> & Hn & Hs & Hbefore).
    exists (S n), line'; repeat split; [lia|assumption|assumption|].
    intros [|n'] l' Hlt Hl'; simpl in Hl'.
    + injection Hl' as <-; assumption.
    + apply (Hbefore n'); [lia|assumption].
Qed.

Lemma heuristic0_None k lines :
  heuristic0 U k lines = None ->
  forall n line, nth_error lines n = Some line ->
                 first_separator U line separators = None.
Proof.
  revert k; induction lines as [|l lines IH]; intros k; cbn [heuristic0].
  - intros _ [|n] line H; discriminate.
  - destruct (first_separator U l separators) as [[nm osp]|] eqn:Hf;
      [discriminate|].
    intros H [|n] line Hn; simpl in Hn.
    + injection Hn as <-; assumption.
    + exact (IH _ H n line Hn).
Qed.

(** When heuristic 0 succeeds, heuristic 1 is skipped, and so is the
    specialty detector if the title was taken. *)
Lemma name_and_specialty_heuristic0 text text_lower i nm osp :
  heuristic0 U 0 (firstn 10 (stripped_lines text)) = Some (i, nm, osp) ->
  fst (name_and_specialty U text text_lower) = nm /\
  forall tp, osp = Some tp -> snd (name_and_specialty U text text_lower) = tp.
Proof.
  intros H.
  assert (Hi : (i =? -1)%Z = false).
  { apply heuristic0_inv in H as (n & line & -> & _); apply Z.eqb_neq; lia. }
  unfold name_and_specialty; rewrite H.
  destruct osp as [sp|]; rewrite Hi.
  - cbn [negb andb]; split; [reflexivity|].
    intros tp Htp; injection Htp as ->; reflexivity.
  - split; [|discriminate].
    cbn [negb andb].
    repeat match goal with
           | |- context [match ?x with Some _ => _ | None => _ end] =>
             destruct x
           | |- context [if ?c then _ else _] => destruct c
           end; reflexivity.
Qed.

End Separator.

Lemma nth_error_firstn_Some (A : Type) (n i : nat) (l : list A) x :
  nth_error (firstn n l) i = Some x <-> i < n /\ nth_error l i = Some x.
Proof.
  revert i l; induction n as [|n IH]; intros i l; simpl.
  - destruct i; simpl; split; try discriminate; intros [H _]; lia.
  - destruct l as [|y l]; simpl.
    + destruct i; simpl; split; try discriminate; intros [_ H]; discriminate.
    + destruct i as [|i]; simpl.
      * split; [intros H; split; [lia|assumption]|intros [_ H]; assumption].
      * rewrite IH; split; intros [H1 H2]; split; try assumption; lia.
Qed.

Lemma NoDup_split_unique (A : Type) (l : list A) x l1 l2 l1' l2' :
  NoDup l -> l = l1 ++ x :: l2 -> l = l1' ++ x :: l2' -> l1 = l1'.
Proof.
  intros Hnd H1 H2; subst l; revert l1' H2 Hnd.
  induction l1 as [|a l1 IH]; intros [|b l1'] H Hnd; simpl in *.
  - reflexivity.
  - injection H as <- ->; inversion Hnd as [|? ? Hx _]; subst.
    elim Hx; apply in_or_app; right; now left.
  - injection H as -> <-; inversion Hnd as [|? ? Hx _]; subst.
    elim Hx; apply in_or_app; right; now left.
  - injection H as <- H; inversion Hnd; subst.
    f_equal; now apply IH.
Qed.

Lemma split_lines_first (l rest : str) :
  ~ In 10%N l -> split_lines (l ++ nl ++ rest) = l :: split_lines rest.
Proof.
  induction l as [|c l IH]; intros Hl; [reflexivity|].
  simpl; destruct (N.eqb_spec c 10) as [->|_]; [elim Hl; now left|].
  change (l ++ 10%N :: rest) with (l ++ nl ++ rest).
  rewrite IH; [reflexivity|intros H; apply Hl; now right].
Qed.

Lemma no_content_false (text : str) c t :
  text = c :: t -> is_space c = false ->
  contains (u "[ERREUR") text = false ->
  no_content text = false.
Proof.
  intros -> Hc Herr; unfold no_content; rewrite Herr.
  destruct (strip (c :: t)) eqn:Hs; [|reflexivity].
  apply strip_empty_all_space in Hs; inversion Hs; congruence.
Qed.

(** A text whose first line is already trimmed and yields a name and a
    title by the first separator found. *)
Lemma first_line_separator (U : UCD) (E : Env) (l rest : str) c t nm tp :
  l = c :: t -> is_space c = false -> ~ In 10%N l -> strip l = l ->
  first_separator U l separators = Some (nm, Some tp) ->
  contains (u "[ERREUR") (l ++ nl ++ rest) = false ->
  name (parse_cv_metadata U E (l ++ nl ++ rest)) = nm /\
  specialty (parse_cv_metadata U E (l ++ nl ++ rest)) = tp.
Proof.
  intros Hl Hc Hnl Hstrip Hsep Herr.
  assert (Hnc : no_content (l ++ nl ++ rest) = false).
  { apply (@no_content_false _ c (t ++ nl ++ rest)); [now rewrite Hl|assumption..]. }
  assert (Hh : heuristic0 U 0 (firstn 10 (stripped_lines (l ++ nl ++ rest)))
               = Some (0%Z, nm, Some tp)).
  { unfold stripped_lines; rewrite (split_lines_first l rest Hnl).
    cbn [map filter]; rewrite Hstrip, Hl; cbn [is_empty negb firstn heuristic0].
    rewrite <- Hl, Hsep; reflexivity. }
  destruct (name_and_specialty_heuristic0 U _ (lower U (l ++ nl ++ rest)) Hh)
    as [Hn Hs].
  unfold parse_cv_metadata; rewrite parse_with_name, parse_with_specialty, Hnc.
  split; [assumption|now apply Hs].
Qed.

(** C6: when one of the first 10 trimmed non-empty lines has a separator
    '|', '–' or '—' whose left part is a name candidate (2 or 3 words, fewer
    than 40 characters, no skip word, every word starting upper-case), the
    name is the left part of such a line, namely of the first one, for the
    first separator that qualifies; and when the right part is longer than 3
    characters it is the specialty.  A text that starts with the line
    "Jean Dupont | Ingénieur Logiciel" gets the name "Jean Dupont" and the
    specialty "Ingénieur Logiciel". *)
Theorem C6_separator_gives_name_and_specialty (U : UCD) (E : Env) (text : str) :
  no_content text = false ->
  (exists i line sep nm tp,
     i < 10 /\ nth_error (stripped_lines text) i = Some line /\
     In sep separators /\ separator_candidate U line sep nm tp) ->
  (exists i line sep nm tp,
     i < 10 /\ nth_error (stripped_lines text) i = Some line /\
     In sep separators /\ separator_candidate U line sep nm tp /\
     first_candidate U (stripped_lines text) i sep /\
     name (parse_cv_metadata U E text) = nm /\
     (tp <> [] -> 3 < length tp ->
      specialty (parse_cv_metadata U E text) = tp)) /\
  (forall rest,
     contains (u "[ERREUR")
       (u "Jean Dupont | Ingénieur Logiciel" ++ nl ++ rest) = false ->
     name (parse_cv_metadata U E
             (u "Jean Dupont | Ingénieur Logiciel" ++ nl ++ rest))
     = u "Jean Dupont" /\
     specialty (parse_cv_metadata U E
                  (u "Jean Dupont | Ingénieur Logiciel" ++ nl ++ rest))
     = u "Ingénieur Logiciel").
Proof.
  intros Hnc (i & line & sep & nm & tp & Hi & Hline & Hsep & Hcand).
  split.
  2:{ intros rest Herr.
      apply (@first_line_separator U E _ rest (ch "J")
               (u "ean Dupont | Ingénieur Logiciel")); try assumption.
      - vm_compute; reflexivity.
      - vm_compute; reflexivity.
      - vm_compute; intuition discriminate.
      - vm_compute; reflexivity.
      - vm_compute; reflexivity. }
  set (lines := stripped_lines text) in *.
  destruct (heuristic0 U 0 (firstn 10 lines)) as [[[i0 nm0] osp0]|] eqn:Hh.
  2:{ exfalso.
      assert (Hf : first_separator U line separators = None).
      { apply (heuristic0_None U _ _ Hh i), nth_error_firstn_Some; auto. }
      pose proof (first_separator_None U _ _ Hf sep Hsep) as Ht.
      assert (Hx : try_separator U line sep =
                   Some (nm, if negb (is_empty tp) && (3 <? length tp)
                             then Some tp else None))
        by (apply try_separator_iff; eauto).
      congruence. }
  destruct (name_and_specialty_heuristic0 U text (lower U text) Hh) as [Hn Hs].
  apply heuristic0_inv in Hh as (n & line0 & _ & Hn0 & Hf0 & Hbefore).
  apply nth_error_firstn_Some in Hn0 as [Hn10 Hn0].
  apply first_separator_inv in Hf0 as (l1 & sep0 & l2 & Hseps & Ht0 & Hl1).
  apply try_separator_iff in Ht0 as (tp0 & Hcand0 & Hosp).
  exists n, line0, sep0, nm0, tp0.
  split; [assumption|split; [assumption|split; [|split; [assumption|split]]]].
  - rewrite Hseps; apply in_or_app; right; now left.
  - split.
    + intros i' line' sep' nm' tp' Hlt Hl' Hs' Hc'.
      assert (Hf : first_separator U line' separators = None).
      { apply (Hbefore i'); [assumption|].
        apply nth_error_firstn_Some; split; [lia|assumption]. }
      pose proof (first_separator_None U _ _ Hf sep' Hs') as Ht.
      assert (Hx : try_separator U line' sep' =
                   Some (nm', if negb (is_empty tp') && (3 <? length tp')
                              then Some tp' else None))
        by (apply try_separator_iff; eauto).
      congruence.
    + intros line' l1' l2' sep' nm' tp' Hl' Hseps' Hin' Hc'.
      assert (line' = line0) by (fold lines in Hn0; congruence); subst line'.
      assert (Hl : l1' = l1).
      { apply (@NoDup_split_unique _ separators sep0 l1' l2' l1 l2);
          [vm_compute; repeat constructor; simpl; intuition discriminate
          |assumption..]. }
      subst l1'.
      pose proof (Hl1 sep' Hin') as Ht.
      assert (Hx : try_separator U line0 sep' =
                   Some (nm', if negb (is_empty tp') && (3 <? length tp')
                              then Some tp' else None))
        by (apply try_separator_iff; eauto).
      congruence.
  - split.
    + unfold parse_cv_metadata; rewrite parse_with_name, Hnc; assumption.
    + intros Htp Hlen.
      unfold parse_cv_metadata; rewrite parse_with_specialty, Hnc.
      apply Hs; rewrite Hosp.
      destruct tp0; [congruence|].
      apply Nat.ltb_lt in Hlen; rewrite Hlen; reflexivity.
Qed.

Lemma C6_separator_gives_name_and_specialty_witness :
  name (parse_cv_metadata ucd_latin1 (env_at (datetime_of 2026 11 3))
          (u "Jean Dupont | Ingénieur Logiciel" ++ nl
             ++ u "jean.dupont@mail.fr - 06 12 34 56 78"))
  = u "Jean Dupont" /\
  specialty (parse_cv_metadata ucd_latin1 (env_at (datetime_of 2026 11 3))
               (u "Jean Dupont | Ingénieur Logiciel" ++ nl
                  ++ u "jean.dupont@mail.fr - 06 12 34 56 78"))
  = u "Ingénieur Logiciel".
Proof.
  refine (proj2 (@C6_separator_gives_name_and_specialty ucd_latin1
                   (env_at (datetime_of 2026 11 3))
                   (u "Jean Dupont | Ingénieur Logiciel" ++ nl
                      ++ u "jean.dupont@mail.fr - 06 12 34 56 78") _ _)
                (u "jean.dupont@mail.fr - 06 12 34 56 78") _).
  - vm_compute; reflexivity.
  - destruct (proj1 (try_separator_iff ucd_latin1
                       (u "Jean Dupont | Ingénieur Logiciel") (u "|")
                       (u "Jean Dupont") (Some (u "Ingénieur Logiciel"))))
      as (tp & Hc & _); [vm_compute; reflexivity|].
    exists 0, (u "Jean Dupont | Ingénieur Logiciel"), (u "|"),
           (u "Jean Dupont"), tp.
    split; [lia|split; [vm_compute; reflexivity|split; [|exact Hc]]].
    vm_compute; tauto.
  - vm_compute; reflexivity.
Defined.

(** ** The merging of intervals *)

Local Open Scope Z_scope.

Lemma period_leb_by_start p q : period_leb p q = true -> by_start p q.
Proof.
  unfold period_leb, by_start; intros H.
  apply orb_prop in H as [H|H]; [apply Z.ltb_lt in H; lia|].
  apply andb_prop in H as [H _]; apply Z.eqb_eq in H; lia.
Qed.

Lemma period_leb_total p q : period_leb p q = false -> by_start q p.
Proof.
  unfold period_leb, by_start; intros H.
  apply orb_false_elim in H as [H _]; apply Z.ltb_ge in H; exact H.
Qed.

Lemma insert_period_perm p l : Permutation (p :: l) (insert_period p l).
Proof.
  induction l as [|q l IH]; simpl; [reflexivity|].
  destruct (period_leb p q); [reflexivity|].
  rewrite perm_swap; now constructor.
Qed.

Lemma insert_period_sorted p l :
  StronglySorted by_start l -> StronglySorted by_start (insert_period p l).
Proof.
  induction 1 as [|q l Hs IH Hq]; simpl; [repeat constructor|].
  destruct (period_leb p q) eqn:Hpq.
  - apply period_leb_by_start in Hpq.
    constructor; [now constructor|].
    constructor; [assumption|].
    eapply Forall_impl; [|exact Hq]; unfold by_start in *; intros; lia.
  - apply period_leb_total in Hpq.
    constructor; [assumption|].
    apply (Permutation_Forall (insert_period_perm p l)).
    now constructor.
Qed.

(** [periods.sort()] rearranges the intervals by increasing start. *)
Lemma sort_periods_spec l :
  Permutation l (sort_periods l) /\ StronglySorted by_start (sort_periods l).
Proof.
  induction l as [|p l [IHp IHs]]; simpl; [split; constructor|].
  split; [|now apply insert_period_sorted].
  rewrite <- insert_period_perm; now constructor.
Qed.

(** The loop of pass 2, started inside a span, adds up the spans of
    [merge_sorted]. *)
Lemma merge_loop_total l : forall cur m,
  fst cur <> -1 -> Forall (fun p => fst p <> -1) l ->
  let '(m', cs, ce) := fold_left merge_step l (m, fst cur, snd cur) in
  m' + (ce - cs) = m + total_months (merge_sorted cur l).
Proof.
  induction l as [|[s e] l IH]; intros [a b] m Ha Hl; simpl in *; [lia|].
  inversion Hl as [|? ? Hs Hl']; subst; simpl in Hs.
  destruct (Z.eqb_spec a (-1)) as [->|_]; [congruence|].
  destruct (s <=? b).
  - exact (IH (a, Z.max b e) m Ha Hl').
  - specialize (IH (s, e) (m + (b - a)) Hs Hl'); simpl in IH.
    destruct (fold_left merge_step l (m + (b - a), s, e)) as [[m' cs] ce].
    simpl; lia.
Qed.

(** Pass 2 computes the total of the merged spans. *)
Lemma merged_months_total l :
  Forall (fun p => fst p <> -1) l ->
  merged_months l = total_months (merge_periods l).
Proof.
  unfold merged_months; destruct l as [|[s e] l]; [reflexivity|].
  intros Hl; inversion Hl as [|? ? Hs Hl']; subst; simpl in Hs.
  cbn [fold_left merge_step merge_periods]; rewrite Z.eqb_refl.
  pose proof (merge_loop_total (s, e) 0 Hs Hl') as H; simpl in H.
  destruct (fold_left merge_step l (0, s, e)) as [[m' cs] ce]; lia.
Qed.

Lemma merge_sorted_head l : forall cur,
  exists e rest, merge_sorted cur l = (fst cur, e) :: rest /\ snd cur <= e.
Proof.
  induction l as [|p l IH]; intros [a b]; simpl.
  - exists b, []; split; [reflexivity|lia].
  - destruct (fst p <=? b).
    + destruct (IH (a, Z.max b (snd p))) as (e & rest & -> & He); simpl in *.
      exists e, rest; split; [reflexivity|lia].
    + exists b, (merge_sorted p l); split; [reflexivity|lia].
Qed.

(** The merged spans cover exactly the months of the intervals, and are
    apart from one another. *)
Lemma merge_sorted_spec l : forall cur,
  StronglySorted by_start (cur :: l) ->
  separated (merge_sorted cur l) /\
  forall t, covered (merge_sorted cur l) t <-> covered (cur :: l) t.
Proof.
  induction l as [|p l IH]; intros [a b] Hs.
  - simpl; split; [exact I|reflexivity].
  - inversion Hs as [|? ? Hs' Hall]; subst.
    inversion Hs' as [|? ? Hs'' Hall']; subst.
    inversion Hall as [|? ? Hap Hal]; subst.
    unfold by_start in Hap; simpl in Hap.
    cbn [merge_sorted fst snd].
    destruct (Z.leb_spec (fst p) b) as [Hle|Hgt].
    + destruct (IH (a, Z.max b (snd p))) as [Hsep Hcov].
      { constructor; [assumption|].
        eapply Forall_impl; [|exact Hal]; unfold by_start; simpl; auto. }
      split; [assumption|].
      intros t; rewrite Hcov; unfold covered, in_period; split.
      * intros (q & [<-|Hq] & Ht); simpl in *.
        -- destruct (Z.lt_ge_cases t b).
           ++ exists (a, b); simpl; split; [auto|lia].
           ++ exists p; split; [auto|lia].
        -- exists q; auto.
      * intros (q & [<-|[<-|Hq]] & Ht); simpl in *.
        -- exists (a, Z.max b (snd p)); simpl; split; [auto|lia].
        -- exists (a, Z.max b (snd p)); simpl; split; [auto|lia].
        -- exists q; auto.
    + destruct (IH p Hs') as [Hsep Hcov].
      destruct (merge_sorted_head l p) as (e & rest & Heq & He).
      split.
      * rewrite Heq in *; simpl; split; [lia|exact Hsep].
      * intros t; unfold covered in *; split.
        -- intros (q & [<-|Hq] & Ht); [exists (a, b); split; [now left|assumption]|].
           assert (Hc : covered (p :: l) t) by (apply Hcov; exists q; auto).
           destruct Hc as (q' & Hq' & Ht'); exists q'; split; [now right|assumption].
        -- intros (q & [<-|Hq] & Ht); [exists (a, b); split; [now left|assumption]|].
           assert (Hc : covered (merge_sorted p l) t) by (apply Hcov; exists q; auto).
           destruct Hc as (q' & Hq' & Ht'); exists q'; split; [now right|assumption].
Qed.

(** Rounding to the nearest year is off by at most 6 months. *)
Lemma round_div12_nearest m : -6 <= 12 * round_div12 m - m <= 6.
Proof.
  unfold round_div12.
  pose proof (Z.div_mod m 12 ltac:(lia)) as Hdm.
  pose proof (Z.mod_pos_bound m 12 ltac:(lia)) as Hb.
  destruct (Z.ltb_spec (m mod 12) 6); [lia|].
  destruct (Z.ltb_spec 6 (m mod 12)); [lia|].
  destruct (Z.even (m / 12)); lia.
Qed.

(** The date-interval stage as a whole: the intervals are sorted by start,
    merged whenever the next one starts no later than the current span
    ends, and the experience is the total of the merged spans in months,
    divided by 12, rounded to the nearest integer and raised to 1. *)
Theorem merge_stage_correct (periods : list (Z * Z)) :
  Forall (fun p => fst p <> -1) periods ->
  let sorted := sort_periods periods in
  let spans := merge_periods sorted in
  Permutation periods sorted /\
  StronglySorted by_start sorted /\
  separated spans /\
  (forall t, covered spans t <-> covered periods t) /\
  merged_months sorted = total_months spans /\
  years_of_periods periods
  = str_of_Z (Z.max 1 (round_div12 (total_months spans))) /\
  -6 <= 12 * round_div12 (total_months spans) - total_months spans <= 6.
Proof.
  intros Hp; cbv zeta.
  destruct (sort_periods_spec periods) as [Hperm Hsorted].
  assert (Hp' : Forall (fun p => fst p <> -1) (sort_periods periods))
    by exact (Permutation_Forall Hperm Hp).
  pose proof (merged_months_total Hp') as Hm.
  split; [assumption|split; [assumption|]].
  assert (Hspec : separated (merge_periods (sort_periods periods)) /\
                  forall t, covered (merge_periods (sort_periods periods)) t <->
                            covered (sort_periods periods) t).
  { destruct (sort_periods periods) as [|p l]; [split; [exact I|reflexivity]|].
    exact (merge_sorted_spec Hsorted). }
  destruct Hspec as [Hsep Hcov].
  split; [assumption|split; [|split; [assumption|split]]].
  - intros t; rewrite Hcov; unfold covered; split;
      intros (p & Hin & Ht); exists p; split; try assumption.
    + eapply Permutation_in; [symmetry; exact Hperm|assumption].
    + eapply Permutation_in; [exact Hperm|assumption].
  - unfold years_of_periods; now rewrite Hm.
  - apply round_div12_nearest.
Qed.

Local Close Scope Z_scope.

(** ** The date-interval stage in the parser *)

Local Open Scope Z_scope.

Lemma decimal_value_nonneg (U : UCD) c d : decimal_value U c = Some d -> 0 <= d.
Proof.
  unfold decimal_value.
  destruct (c <? 256)%N.
  - unfold in_range; destruct (48 <=? c)%N eqn:H1; simpl; [|discriminate].
    destruct (c <=? 57)%N; [|discriminate].
    intros H; injection H as <-; apply N.leb_le in H1; lia.
  - destruct (ext_decimal U c); simpl; [|discriminate].
    intros H; injection H as <-; lia.
Qed.

Lemma int_of_str_nonneg (U : UCD) s : 0 <= int_of_str U s.
Proof.
  unfold int_of_str.
  assert (H : forall acc, 0 <= acc ->
            0 <= fold_left (fun acc c => match decimal_value U c with
                                         | Some d => acc * 10 + d
                                         | None => acc
                                         end) s acc); [|apply H; lia].
  induction s as [|c s IH]; intros acc Hacc; simpl; [assumption|].
  apply IH; destruct (decimal_value U c) as [d|] eqn:Hd; [|assumption].
  apply decimal_value_nonneg in Hd; lia.
Qed.

Lemma dict_get_lower_bound d key default lo :
  Forall (fun kv => lo <= snd kv) d -> lo <= default ->
  lo <= dict_get d key default.
Proof.
  induction 1 as [|[k v] d Hv _ IH]; intros Hd; simpl; [assumption|].
  destruct (str_eqb k key); [exact Hv|now apply IH].
Qed.

Lemma month_of_positive g : 1 <= month_of g.
Proof.
  unfold month_of; apply dict_get_lower_bound; [|lia].
  vm_compute; repeat constructor; discriminate.
Qed.

(** Every interval kept starts at a positive month index, so none starts
    at the mark -1 of the merging loop. *)
Lemma period_of_match_start (U : UCD) (E : Env) m s e :
  period_of_match U E m = Some (s, e) -> 0 < s.
Proof.
  unfold period_of_match.
  set (y1 := int_of_group U (group m 2)).
  assert (Hy : 0 <= y1).
  { unfold y1, int_of_group; destruct (group m 2);
      [apply int_of_str_nonneg|lia]. }
  pose proof (month_of_positive (group m 1)) as Hm.
  assert (Hk : forall y2 m2,
             (if (0 <? (y2 - y1) * 12 + (m2 - month_of (group m 1)))
                 && ((y2 - y1) * 12 + (m2 - month_of (group m 1)) <? 480)
              then Some (y1 * 12 + month_of (group m 1), y2 * 12 + m2)
              else None) = Some (s, e) -> 0 < s).
  { intros y2 m2; destruct (_ && _); [|discriminate].
    intros H; injection H as <- _; lia. }
  destruct (has_any present_words _); [apply Hk|].
  destruct (group m 5) as [[|c g]|]; try discriminate; apply Hk.
Qed.

Lemma keep_some_In (A : Type) (l : list (option A)) x :
  In x (keep_some l) -> In (Some x) l.
Proof.
  induction l as [|[y|] l IH]; simpl; [intros []| |];
    [intros [->|H]; [now left|right; now apply IH]|intros H; right; now apply IH].
Qed.

Lemma collect_periods_starts (U : UCD) (E : Env) lines :
  Forall (fun p => fst p <> -1) (collect_periods U E lines).
Proof.
  apply Forall_forall; intros [s e] Hin; simpl.
  unfold collect_periods in Hin; apply in_flat_map in Hin as (i & _ & Hin).
  unfold line_periods in Hin.
  destruct (has_any academic_keywords _); [destruct Hin|].
  apply keep_some_In, in_map_iff in Hin as (m & Hm & _).
  apply period_of_match_start in Hm; lia.
Qed.

Lemma bytes_of_string_inj s1 s2 :
  bytes_of_string s1 = bytes_of_string s2 -> s1 = s2.
Proof.
  revert s2; induction s1 as [|a s1 IH]; intros [|b s2]; simpl;
    try discriminate; [reflexivity|].
  intros H; injection H as Hab H; f_equal; [|now apply IH].
  rewrite <- (ascii_N_embedding a), <- (ascii_N_embedding b); congruence.
Qed.

Lemma str_of_Z_inj z1 z2 : str_of_Z z1 = str_of_Z z2 -> z1 = z2.
Proof.
  unfold str_of_Z; intros H; apply bytes_of_string_inj in H.
  assert (Hi : Z.to_int z1 = Z.to_int z2).
  { pose proof (NilEmpty.isi (Z.to_int z1)) as H1.
    pose proof (NilEmpty.isi (Z.to_int z2)) as H2.
    rewrite H in H1; congruence. }
  rewrite <- (DecimalZ.of_to z1), <- (DecimalZ.of_to z2); congruence.
Qed.

(** When no explicit mention was found and pass 1 collected at least one
    interval, the experience is the total of the merged spans in months,
    divided by 12, rounded to the nearest integer and raised to 1; the
    earliest-year fallback does not run. *)
Theorem date_interval_stage (U : UCD) (E : Env) (text : str) :
  no_content text = false ->
  scan_patterns U exp_patterns (lower U text) (u "0") = u "0" ->
  collect_periods U E (split_lines text) <> [] ->
  let spans :=
    merge_periods (sort_periods (collect_periods U E (split_lines text))) in
  experience (parse_cv_metadata U E text)
  = str_of_Z (Z.max 1 (round_div12 (total_months spans))) /\
  separated spans /\
  (forall t, covered spans t <->
             covered (collect_periods U E (split_lines text)) t).
Proof.
  intros Hnc Hscan Hne; cbv zeta.
  destruct (merge_stage_correct (collect_periods_starts U E (split_lines text)))
    as (_ & _ & Hsep & Hcov & _ & Hyears & _).
  split; [|split; assumption].
  unfold parse_cv_metadata; rewrite parse_with_experience, Hnc.
  unfold extract_experience.
  change (experience default_metadata) with (u "0").
  rewrite Hscan, Hscan; unfold date_stages.
  assert (H0 : str_eqb (u "0") (u "0") = true) by (vm_compute; reflexivity).
  rewrite H0.
  destruct (collect_periods U E (split_lines text)) as [|p l] eqn:Hc;
    [congruence|].
  rewrite Hyears.
  rewrite str_eqb_neq; [reflexivity|].
  change (u "0") with (str_of_Z 0); intros H; apply str_of_Z_inj in H; lia.
Qed.

Local Close Scope Z_scope.

(** ** The intervals of the specification's example *)

(** C2 at the lines "Jan 2015 - Dec 2016" and "Jan 2016 - Dec 2018": the
    month "dec" is not a key of [months_map] and counts as month 1, so the
    two intervals run from January 2015 to January 2016 and from January
    2016 to January 2018; they merge into 36 months and the experience is
    "3".  With December read as month 12 the same stage gives "4". *)
Theorem C2_dec_is_read_as_january (U : UCD) (E : Env) :
  let text := u "Jan 2015 - Dec 2016" ++ nl ++ u "Jan 2016 - Dec 2018" in
  dict_get months_map (u "dec") 1 = 1%Z /\
  collect_periods U E (split_lines text)
  = [(2015 * 12 + 1, 2016 * 12 + 1); (2016 * 12 + 1, 2018 * 12 + 1)]%Z /\
  merged_months (sort_periods (collect_periods U E (split_lines text))) = 36%Z /\
  experience (parse_cv_metadata U E text) = u "3" /\
  years_of_periods
    [(2015 * 12 + 1, 2016 * 12 + 12); (2016 * 12 + 1, 2018 * 12 + 12)]%Z
  = u "4".
Proof.
  cbv zeta; split; [reflexivity|].
  assert (Hp : collect_periods U E
                 (split_lines (u "Jan 2015 - Dec 2016" ++ nl ++ u "Jan 2016 - Dec 2018"))
               = [(2015 * 12 + 1, 2016 * 12 + 1); (2016 * 12 + 1, 2018 * 12 + 1)]%Z)
    by (vm_compute; reflexivity).
  rewrite Hp; split; [reflexivity|split; [vm_compute; reflexivity|split]].
  - unfold parse_cv_metadata; rewrite parse_with_experience.
    vm_compute; reflexivity.
  - vm_compute; reflexivity.
Qed.

(** ** The matcher reports words of the pattern *)

Ltac conjs := repeat match goal with |- _ /\ _ => split end.

Section MatcherSound.

Variable U : UCD.
Variable Q : nat -> str -> Prop.

(** What a sound matching step gives: the continuation was entered after a
    word of the language, with the captures extended by captures that
    satisfy [Q] and that contain every group bound to take part. *)
Definition step_sound (A : Type) (r : regex) (L : str -> str -> str -> Prop)
    (body : cont A -> cont A) : Prop :=
  forall (k : cont A) st x,
    body k st = Some x ->
    exists w post new,
      m_rest st = w ++ post /\
      L (m_pre st) w post /\
      captures_satisfy Q new /\
      (forall n, always_captures n r = true -> group_of new n <> None) /\
      k (MState (rev w ++ m_pre st) post (new ++ m_caps st)) = Some x.

Lemma group_of_app new cs n :
  group_of new n <> None -> group_of (new ++ cs) n <> None.
Proof.
  induction new as [|[i s] new IH]; simpl; [congruence|].
  destruct (Nat.eqb i n); [discriminate|exact IH].
Qed.

Lemma rep_min_sound (A : Type) (r : regex) L (body : cont A -> cont A) :
  step_sound r L body ->
  forall n (k : cont A) st x,
    rep_min body n k st = Some x ->
    exists ws post new,
      length ws = n /\
      m_rest st = concat ws ++ post /\
      iterated L (m_pre st) ws post /\
      captures_satisfy Q new /\
      (forall i, n <> 0 -> always_captures i r = true -> group_of new i <> None) /\
      k (MState (rev (concat ws) ++ m_pre st) post (new ++ m_caps st)) = Some x.
Proof.
  intros Hbody; induction n as [|n IH]; intros k [pre s cs] x; simpl.
  - intros H; exists [], s, []; conjs;
      [reflexivity|reflexivity|exact I|constructor|congruence|exact H].
  - intros H; apply Hbody in H as (w & post1 & new1 & Hs & HL & Hq & Hc & H).
    apply IH in H as (ws & post & new & Hlen & Hs' & Hit & Hq' & _ & H).
    simpl in *; subst.
    exists (w :: ws), post, (new ++ new1); conjs.
    + reflexivity.
    + simpl; now rewrite <- app_assoc.
    + simpl; split; assumption.
    + now apply Forall_app.
    + intros i _ Hi; destruct (group_of new i) eqn:Hn.
      * apply group_of_app; congruence.
      * clear - Hn Hc Hi; specialize (Hc i Hi).
        induction new as [|[j t] new IH]; simpl in *; [assumption|].
        destruct (Nat.eqb j i); [discriminate|now apply IH].
    + simpl; rewrite rev_app_distr, <- !app_assoc; exact H.
Qed.

Lemma rep_max_sound (A : Type) (r : regex) L (body : cont A -> cont A) :
  step_sound r L body ->
  forall n (k : cont A) st x,
    rep_max body n k st = Some x ->
    exists ws post new,
      length ws <= n /\
      m_rest st = concat ws ++ post /\
      iterated L (m_pre st) ws post /\
      captures_satisfy Q new /\
      k (MState (rev (concat ws) ++ m_pre st) post (new ++ m_caps st)) = Some x.
Proof.
  intros Hbody; induction n as [|n IH]; intros k [pre s cs] x.
  - simpl; intros H; exists [], s, []; conjs;
      [simpl; lia|reflexivity|exact I|constructor|exact H].
  - cbn [rep_max].
    destruct (body _ (MState pre s cs)) as [y|] eqn:Hb.
    + intros Hy; injection Hy as ->.
      apply Hbody in Hb as (w & post1 & new1 & Hs & HL & Hq & _ & H).
      destruct (Nat.ltb _ _); [|discriminate].
      apply IH in H as (ws & post & new & Hlen & Hs' & Hit & Hq' & H).
      simpl in *; subst.
      exists (w :: ws), post, (new ++ new1); conjs.
      * simpl; lia.
      * simpl; now rewrite <- app_assoc.
      * simpl; split; assumption.
      * now apply Forall_app.
      * simpl; rewrite rev_app_distr, <- !app_assoc; exact H.
    + intros H; exists [], s, []; conjs;
        [simpl; lia|reflexivity|exact I|constructor|exact H].
Qed.

Lemma step_char_sound (A : Type) (r : regex) (test : cp -> bool)
    (L : str -> str -> str -> Prop) :
  (forall n, always_captures n r = false) ->
  (forall pre t post, test t = true -> L pre [t] post) ->
  @step_sound A r L (step_char test).
Proof.
  intros Hr HL k [pre s cs] x; unfold step_char; simpl.
  destruct s as [|c s]; [discriminate|].
  destruct (test c) eqn:Hc; [|discriminate].
  intros H; exists [c], s, []; conjs;
    [reflexivity|now apply HL|constructor| |exact H].
  intros n Hn; rewrite Hr in Hn; discriminate.
Qed.

(** The matcher is sound: whatever it hands to its continuation was
    reached through a word of the pattern. *)
Theorem run_sound (A : Type) (r : regex) :
  groups_capture U Q r -> @step_sound A r (lang U r) (run U r).
Proof.
  induction r as [|c|c|neg items|chars|r1 IH1 r2 IH2|r1 IH1 r2 IH2
                 |lo hi r IH|n r IH| | |]; intros Hg.
  - intros k [pre s cs] x H; exists [], s, []; simpl.
    repeat split; auto; try constructor; intros n Hn; discriminate.
  - apply step_char_sound; [reflexivity|].
    intros pre t post Ht; apply N.eqb_eq in Ht; now subst.
  - apply step_char_sound; [reflexivity|]; simpl; eauto.
  - apply step_char_sound; [reflexivity|]; simpl; eauto.
  - apply step_char_sound; [reflexivity|]; simpl; eauto.
  - destruct Hg as [Hg1 Hg2]; intros k st x H; cbn [run] in H.
    apply (IH1 Hg1) in H as (w1 & post1 & new1 & Hs1 & HL1 & Hq1 & Hc1 & H).
    apply (IH2 Hg2) in H as (w2 & post & new2 & Hs2 & HL2 & Hq2 & Hc2 & H).
    simpl in *; subst.
    exists (w1 ++ w2), post, (new2 ++ new1); repeat split.
    + rewrite Hs1; now rewrite app_assoc.
    + exists w1, w2; auto.
    + now apply Forall_app.
    + intros n Hn; apply orb_prop in Hn as [Hn|Hn].
      * destruct (group_of new2 n) eqn:Hn2; [apply group_of_app; congruence|].
        clear - Hn2 Hc1 Hn; specialize (Hc1 n Hn).
        induction new2 as [|[j t] new IH]; simpl in *; [assumption|].
        destruct (Nat.eqb j n); [discriminate|now apply IH].
      * apply group_of_app; auto.
    + rewrite rev_app_distr, <- !app_assoc; exact H.
  - destruct Hg as [Hg1 Hg2]; intros k st x H; cbn [run] in H.
    destruct (run U r1 k st) as [y|] eqn:H1.
    + injection H as ->.
      apply (IH1 Hg1) in H1 as (w & post & new & Hs & HL & Hq & Hc & H).
      exists w, post, new; repeat split; auto; [now left|].
      intros n Hn; apply andb_prop in Hn as [Hn _]; auto.
    + apply (IH2 Hg2) in H as (w & post & new & Hs & HL & Hq & Hc & H).
      exists w, post, new; repeat split; auto; [now right|].
      intros n Hn; apply andb_prop in Hn as [_ Hn]; auto.
  - simpl in Hg; specialize (IH Hg); intros k st x H; cbn [run] in H.
    apply (rep_min_sound IH) in H
      as (ws1 & post1 & new1 & Hlen1 & Hs1 & Hit1 & Hq1 & Hc1 & H).
    apply (rep_max_sound IH) in H
      as (ws2 & post & new2 & Hlen2 & Hs2 & Hit2 & Hq2 & H).
    simpl in *; subst.
    assert (Happ : forall pre ws1 ws2 post,
               iterated (lang U r) pre ws1 (concat ws2 ++ post) ->
               iterated (lang U r) (rev (concat ws1) ++ pre) ws2 post ->
               iterated (lang U r) pre (ws1 ++ ws2) post).
    { clear; intros pre ws1; revert pre.
      induction ws1 as [|w ws1 IHw]; intros pre ws2 post H1 H2; simpl in *;
        [assumption|].
      destruct H1 as [Hw H1]; split.
      - now rewrite concat_app, <- app_assoc.
      - apply IHw; [assumption|].
        now rewrite rev_app_distr, <- app_assoc in H2. }
    exists (concat ws1 ++ concat ws2), post, (new2 ++ new1); conjs.
    + rewrite Hs1; now rewrite app_assoc.
    + exists (ws1 ++ ws2); conjs.
      * now rewrite concat_app.
      * rewrite length_app; lia.
      * destruct hi as [h|]; [rewrite length_app; lia|exact I].
      * apply Happ; assumption.
    + now apply Forall_app.
    + intros n Hn; apply andb_prop in Hn as [Hlo Hn].
      assert (Hne : length ws1 <> 0).
      { destruct (length ws1); [discriminate|congruence]. }
      destruct (group_of new2 n) eqn:Hn2; [apply group_of_app; congruence|].
      specialize (Hc1 n Hne Hn); clear - Hn2 Hc1.
      induction new2 as [|[j t] new IH]; simpl in *; [assumption|].
      destruct (Nat.eqb j n); [discriminate|now apply IH].
    + rewrite rev_app_distr, <- !app_assoc; exact H.
  - destruct Hg as [Hq Hg]; specialize (IH Hg); intros k st x H; cbn [run] in H.
    apply IH in H as (w & post & new & Hs & HL & Hqn & Hc & H).
    simpl in H.
    assert (Hcons : consumed st (MState (rev w ++ m_pre st) post (new ++ m_caps st)) = w).
    { unfold consumed; simpl; rewrite Hs, length_app.
      replace (length w + length post - length post) with (length w) by lia.
      now rewrite firstn_app, firstn_all, Nat.sub_diag, app_nil_r. }
    rewrite Hcons in H.
    exists w, post, ((n, w) :: new); repeat split; auto.
    + constructor; [exact (Hq _ _ _ HL)|assumption].
    + intros i Hi; simpl; destruct (Nat.eqb n i) eqn:Hni; [discriminate|].
      simpl in Hi; rewrite Hni in Hi; auto.
  - intros k [pre s cs] x H; cbn [run m_pre] in H.
    destruct pre; [|discriminate].
    exists [], s, []; simpl; repeat split; auto; try constructor.
    intros n Hn; discriminate.
  - intros k [pre s cs] x H; cbn [run m_rest] in H.
    destruct (at_end s) eqn:He; [|discriminate].
    exists [], s, []; simpl; repeat split; auto; try constructor.
    intros n Hn; discriminate.
  - intros k [pre s cs] x H; cbn [run m_pre m_rest] in H.
    destruct (at_boundary U pre s) eqn:Hb; [|discriminate].
    exists [], s, []; simpl; repeat split; auto; try constructor.
    intros n Hn; discriminate.
Qed.

(** One attempt: the match is a word of the pattern at that position, its
    captures satisfy [Q], and the groups bound to take part did. *)
Lemma match_here_sound r pre rest m :
  groups_capture U Q r ->
  match_here U r pre rest = Some m ->
  rest = whole m ++ after m /\
  lang U r pre (whole m) (after m) /\
  captures_satisfy Q (caps m) /\
  (forall n, always_captures n r = true -> group m n <> None).
Proof.
  intros Hg H; unfold match_here in H.
  apply (@run_sound _ r Hg) in H as (w & post & new & Hs & HL & Hq & Hc & H).
  simpl in *; injection H as <-; simpl; subst rest.
  rewrite app_nil_r, length_app in *.
  replace (length w + length post - length post) with (length w) in * by lia.
  rewrite firstn_app, firstn_all, Nat.sub_diag, app_nil_r in *.
  conjs; auto.
Qed.

Lemma search_from_sound r pre rest m :
  groups_capture U Q r ->
  search_from U r pre rest = Some m ->
  exists a,
    rest = a ++ whole m ++ after m /\
    lang U r (rev a ++ pre) (whole m) (after m) /\
    captures_satisfy Q (caps m) /\
    (forall n, always_captures n r = true -> group m n <> None).
Proof.
  intros Hg H; apply search_from_inv in H as (a & b & -> & H).
  apply (@match_here_sound r _ _ _ Hg) in H as (-> & HL & Hq & Hc).
  exists a; auto.
Qed.

Lemma finditer_from_sound r : groups_capture U Q r ->
  forall rest pre skip m,
    In m (finditer_from U r pre rest skip) ->
    exists a,
      rest = a ++ whole m ++ after m /\
      lang U r (rev a ++ pre) (whole m) (after m) /\
      captures_satisfy Q (caps m).
Proof.
  intros Hg; induction rest as [|c rest IH]; intros pre skip m.
  - destruct skip; simpl; [|intros []].
    destruct (match_here U r pre []) as [m'|] eqn:Hm; [|intros []].
    intros [<-|[]].
    apply (@match_here_sound r _ _ _ Hg) in Hm as (Hs & HL & Hq & _).
    exists []; auto.
  - assert (Hnext : forall sk, In m (finditer_from U r (c :: pre) rest sk) ->
              exists a, c :: rest = a ++ whole m ++ after m /\
                lang U r (rev a ++ pre) (whole m) (after m) /\
                captures_satisfy Q (caps m)).
    { intros sk Hin; apply IH in Hin as (a & -> & HL & Hq).
      exists (c :: a); simpl; rewrite <- app_assoc; auto. }
    destruct skip; cbn [finditer_from]; [|apply Hnext].
    destruct (match_here U r pre (c :: rest)) as [m'|] eqn:Hm; [|apply Hnext].
    intros [<-|Hin]; [|exact (Hnext _ Hin)].
    apply (@match_here_sound r _ _ _ Hg) in Hm as (Hs & HL & Hq & _).
    exists []; auto.
Qed.

End MatcherSound.

Lemma groups_capture_trivial (U : UCD) r : groups_capture U (fun _ _ => True) r.
Proof. induction r; simpl; auto. Qed.

(** ** Words of simple patterns *)

Section Words.

Variable U : UCD.

Lemma lang_lits s pre w post : lang U (lits s) pre w post -> w = s.
Proof.
  revert pre w; induction s as [|c s IH]; intros pre w; simpl; [auto|].
  intros (w1 & w2 & -> & -> & H); simpl; f_equal; exact (IH _ _ H).
Qed.

Lemma lang_lit s pre w post : lang U (lit s) pre w post -> w = u s.
Proof. apply lang_lits. Qed.

(** A repeated character class matches a run of its characters. *)
Lemma lang_rep_class lo hi neg items pre w post :
  lang U (Rep lo hi (CSet neg items)) pre w post ->
  lo <= length w /\
  match hi with Some h => length w <= lo + (h - lo) | None => True end /\
  Forall (fun c => cset_matches U neg items c = true) w.
Proof.
  simpl; intros (ws & -> & Hlo & Hhi & Hit).
  assert (H : length (concat ws) = length ws /\
              Forall (fun c => cset_matches U neg items c = true) (concat ws)).
  { clear Hlo Hhi; revert pre Hit; induction ws as [|w ws IH]; intros pre;
      simpl; [split; constructor|].
    intros [(t & -> & Ht) Hit]; destruct (IH _ Hit) as [Hl Hf].
    simpl; split; [congruence|now constructor]. }
  destruct H as [-> Hf]; auto.
Qed.

Lemma lang_alphabet (P : cp -> Prop) r :
  alphabet U P r -> forall pre w post, lang U r pre w post -> Forall P w.
Proof.
  induction r as [|c|c|neg items|chars|r1 IH1 r2 IH2|r1 IH1 r2 IH2
                 |lo hi r IH|n r IH| | |]; simpl; intros Ha pre w post.
  - intros ->; constructor.
  - intros ->; now repeat constructor.
  - intros (t & -> & Ht); repeat constructor; auto.
  - intros (t & -> & Ht); repeat constructor; auto.
  - intros (t & -> & Ht); repeat constructor; auto.
  - destruct Ha as [Ha1 Ha2]; intros (w1 & w2 & -> & H1 & H2).
    apply Forall_app; split; eauto.
  - destruct Ha as [Ha1 Ha2]; intros [H|H]; eauto.
  - intros (ws & -> & _ & _ & Hit).
    revert pre Hit; induction ws as [|w ws IHw]; intros pre; simpl;
      [constructor|].
    intros [Hw Hit]; apply Forall_app; split; eauto.
  - eauto.
  - intros [-> _]; constructor.
  - intros [-> _]; constructor.
  - intros [-> _]; constructor.
Qed.

(** Trimming keeps a middle part and drops white space on both sides. *)
Lemma strip_decompose s :
  exists ws1 ws2,
    s = ws1 ++ strip s ++ ws2 /\
    Forall (fun c => is_space c = true) ws1 /\
    Forall (fun c => is_space c = true) ws2.
Proof.
  destruct (lstrip_suffix s) as (ws1 & Hs & Hws1).
  destruct (lstrip_suffix (rev (lstrip s))) as (ws2 & Hr & Hws2).
  exists ws1, (rev ws2); split; [|split; [assumption|now apply Forall_rev]].
  unfold strip, rstrip; rewrite <- rev_app_distr, <- Hr, rev_involutive.
  exact Hs.
Qed.

Lemma findall_sound r text e :
  In e (re_findall U r text) ->
  exists a b, text = a ++ e ++ b /\ lang U r (rev a) e b.
Proof.
  unfold re_findall, re_finditer; intros H.
  apply in_map_iff in H as (m & <- & Hm).
  apply (@finditer_from_sound U (fun _ _ => True) r
           (groups_capture_trivial U r)) in Hm as (a & Hs & HL & _).
  rewrite app_nil_r in HL; eauto.
Qed.

End Words.

(** ** Shapes of e-mails and phones *)

Lemma email_classes (t : cp) :
  (cset_matches ucd_latin1 false
     (r_az :: r_AZ :: r_09 :: map CChar (u "._%+-")) t = true ->
   ascii_alnum t || one_of "._%+-" t = true) /\
  (cset_matches ucd_latin1 false
     (r_az :: r_AZ :: r_09 :: map CChar (u ".-")) t = true ->
   ascii_alnum t || one_of ".-" t = true) /\
  (cset_matches ucd_latin1 false [r_az; r_AZ] t = true -> ascii_letter t = true).
Proof.
  unfold cset_matches, ascii_alnum, ascii_letter, one_of.
  cbn [existsb map citem_matches r_az r_AZ r_09 xorb].
  change (u "._%+-") with [46; 95; 37; 43; 45]%N.
  change (u ".-") with [46; 45]%N.
  cbn [existsb map citem_matches].
  repeat split; intros H;
    repeat match goal with
           | H : (_ || _) = true |- _ => apply orb_prop in H as [H|H]
           end;
    rewrite ?H, ?orb_true_r; try reflexivity; discriminate.
Qed.

Lemma cset_matches_no_tables (U : UCD) neg items t :
  forallb (fun i => match i with CDigit | CSpace => false | _ => true end) items
  = true ->
  cset_matches U neg items t = cset_matches ucd_latin1 neg items t.
Proof.
  unfold cset_matches; intros H; f_equal.
  induction items as [|i items IH]; simpl in *; [reflexivity|].
  apply andb_prop in H as [Hi H]; rewrite (IH H).
  destruct i; try discriminate; reflexivity.
Qed.

Lemma lang_email (U : UCD) pre w post :
  lang U email_pattern pre w post -> email_shape w.
Proof.
  intros H.
  destruct H as (local & w1 & -> & Hlocal & H).
  destruct H as (at_ & w2 & -> & Hat & H).
  destruct H as (domain & w3 & -> & Hdomain & H).
  destruct H as (dot & w4 & -> & Hdot & H).
  destruct H as (tld & w5 & -> & Htld & ->).
  apply lang_lit in Hat; apply lang_lit in Hdot; subst.
  apply lang_rep_class in Hlocal as (Hl1 & _ & Hl2).
  apply lang_rep_class in Hdomain as (Hd1 & _ & Hd2).
  apply lang_rep_class in Htld as (Ht1 & _ & Ht2).
  exists local, domain, tld; rewrite app_nil_r.
  split; [reflexivity|split; [|split; [|split; [|split; [|split]]]]].
  - intros ->; simpl in Hl1; lia.
  - eapply Forall_impl; [|exact Hl2]; intros t Ht; cbv beta in Ht.
    rewrite cset_matches_no_tables in Ht by (vm_compute; reflexivity).
    now apply email_classes.
  - intros ->; simpl in Hd1; lia.
  - eapply Forall_impl; [|exact Hd2]; intros t Ht; cbv beta in Ht.
    rewrite cset_matches_no_tables in Ht by (vm_compute; reflexivity).
    now apply email_classes.
  - exact Ht1.
  - eapply Forall_impl; [|exact Ht2]; intros t Ht; cbv beta in Ht.
    rewrite cset_matches_no_tables in Ht by (vm_compute; reflexivity).
    now apply email_classes.
Qed.

(** Every e-mail reported stands in the text, has the shape
    [local@domain.tld] (a non-empty local part of ASCII letters, digits and
    [._%+-], a non-empty domain of ASCII letters, digits, dots and hyphens,
    and at least 2 ASCII letters after the last dot), and is reported
    once. *)
Theorem emails_are_well_formed (U : UCD) (E : Env) (text : str) :
  NoDup (emails (parse_cv_metadata U E text)) /\
  forall e, In e (emails (parse_cv_metadata U E text)) ->
            email_shape e /\ exists a b, text = a ++ e ++ b.
Proof.
  unfold parse_cv_metadata; rewrite parse_with_emails.
  destruct (no_content text); [split; [constructor|intros e []]|].
  unfold extract_emails; split; [apply set_list_NoDup|].
  intros e He; apply set_list_In, findall_sound in He as (a & b & Ht & HL).
  split; [exact (lang_email HL)|eauto].
Qed.

Lemma digit_range_decimal (U : UCD) lo t :
  (48 <= lo)%N -> in_range lo 57%N t = true -> is_decimal U t = true.
Proof.
  unfold in_range, is_decimal, decimal_value; intros Hlo H.
  apply andb_prop in H as [H1 H2].
  apply N.leb_le in H1, H2.
  assert (Hlt : (t <? 256)%N = true) by (apply N.ltb_lt; lia).
  assert (Hr : in_range 48%N 57%N t = true).
  { unfold in_range; apply andb_true_intro; split; apply N.leb_le; lia. }
  rewrite Hlt, Hr; reflexivity.
Qed.

Lemma phone_pattern_alphabet (U : UCD) :
  alphabet U (fun c => phone_char U c = true) phone_pattern.
Proof.
  assert (Hset : forall items t,
             Forall (fun i => match i with
                              | CChar c => one_of "+().-" c = true
                              | CRange a b => (48 <= a)%N /\ b = 57%N
                              | _ => True
                              end) items ->
             cset_matches U false items t = true -> phone_char U t = true).
  { intros items t Hi; unfold cset_matches; rewrite xorb_false_l.
    intros H; apply existsb_exists in H as (i & Hin & Hm).
    pose proof (proj1 (Forall_forall _ _) Hi i Hin) as Hok.
    unfold phone_char; destruct i as [c|a b| |]; simpl in Hm.
    - apply N.eqb_eq in Hm; subst; rewrite Hok; apply orb_true_r.
    - destruct Hok as [Ha ->]; rewrite (@digit_range_decimal U a t Ha Hm).
      reflexivity.
    - rewrite Hm; reflexivity.
    - rewrite Hm, orb_true_r; reflexivity. }
  unfold phone_pattern; cbn -[phone_char cset_matches].
  repeat split;
    try (vm_compute; reflexivity);
    intros t; apply Hset; repeat constructor; try (vm_compute; reflexivity);
      vm_compute; discriminate.
Qed.

Lemma lstrip_idempotent s : lstrip (lstrip s) = lstrip s.
Proof.
  induction s as [|c s IH]; simpl; [reflexivity|].
  destruct (is_space c) eqn:Hc; [exact IH|simpl; now rewrite Hc].
Qed.

Lemma lstrip_head s :
  lstrip s = [] \/ exists c t, lstrip s = c :: t /\ is_space c = false.
Proof.
  induction s as [|c s IH]; simpl; [now left|].
  destruct (is_space c) eqn:Hc; [exact IH|right; now exists c, s].
Qed.

Lemma rstrip_idempotent s : rstrip (rstrip s) = rstrip s.
Proof. unfold rstrip; now rewrite rev_involutive, lstrip_idempotent. Qed.

Lemma rstrip_prefix s : exists ws, s = rstrip s ++ ws.
Proof.
  destruct (lstrip_suffix (rev s)) as (ws & Hs & _).
  exists (rev ws); unfold rstrip.
  now rewrite <- rev_app_distr, <- Hs, rev_involutive.
Qed.

(** Trimming twice is trimming once. *)
Lemma strip_idempotent s : strip (strip s) = strip s.
Proof.
  unfold strip.
  assert (Hl : lstrip (rstrip (lstrip s)) = rstrip (lstrip s)).
  { destruct (rstrip_prefix (lstrip s)) as (ws & Hws).
    destruct (lstrip_head s) as [H|(c & t & H & Hc)].
    - rewrite H; reflexivity.
    - destruct (rstrip (lstrip s)) as [|d l]; [reflexivity|].
      rewrite H in Hws; injection Hws as <- _.
      simpl; now rewrite Hc. }
  rewrite Hl; apply rstrip_idempotent.
Qed.

(** At most five phones are reported, each once; every one of them
    stands in the text, is trimmed, and is made of decimal digits, white
    space and the characters [+().-] only. *)
Theorem phones_are_made_of_phone_characters (U : UCD) (E : Env) (text : str) :
  length (phones (parse_cv_metadata U E text)) <= 5 /\
  NoDup (phones (parse_cv_metadata U E text)) /\
  forall p, In p (phones (parse_cv_metadata U E text)) ->
    Forall (fun c => phone_char U c = true) p /\
    strip p = p /\
    exists a b, text = a ++ p ++ b.
Proof.
  unfold parse_cv_metadata; rewrite parse_with_phones.
  destruct (no_content text);
    [conjs; [simpl; lia|constructor|intros p []]|].
  conjs;
    [unfold extract_phones; rewrite length_firstn; lia
    |unfold extract_phones; apply NoDup_firstn, set_list_NoDup|].
  intros p Hp; unfold extract_phones in Hp.
  apply In_firstn, set_list_In in Hp.
  unfold filtered_phones in Hp; apply filter_In in Hp as [Hp _].
  apply in_map_iff in Hp as (q & <- & Hq).
  apply findall_sound in Hq as (a & b & -> & HL).
  apply (@lang_alphabet U _ _ (phone_pattern_alphabet U)) in HL.
  destruct (strip_decompose q) as (ws1 & ws2 & Hq & Hws1 & Hws2).
  split; [|split].
  - rewrite Hq in HL; apply Forall_app in HL as [_ HL].
    now apply Forall_app in HL as [HL _].
  - apply strip_idempotent.
  - exists (a ++ ws1), (ws2 ++ b).
    rewrite Hq at 1; now rewrite <- !app_assoc.
Qed.

(** ** The experience is a number *)

Section ExperienceDigits.

Variable U : UCD.

Lemma number_captures pre w post :
  lang U (plus digit) pre w post -> digits U w.
Proof.
  intros H; apply lang_rep_class in H as (Hlo & _ & Hf).
  split; [intros ->; simpl in Hlo; lia|].
  eapply Forall_impl; [|exact Hf]; intros t Ht; cbv beta in Ht.
  unfold cset_matches in Ht; simpl in Ht; now rewrite orb_false_r in Ht.
Qed.

Lemma only_number_groups_capture r :
  only_number_groups r = true ->
  groups_capture U (fun n g => n = 1 -> digits U g) r.
Proof.
  induction r as [|c|c|neg items|chars|r1 IH1 r2 IH2|r1 IH1 r2 IH2
                 |lo hi r IH|n r IH| | |]; simpl; intros H; auto.
  - apply andb_prop in H as [H1 H2]; auto.
  - apply andb_prop in H as [H1 H2]; auto.
  - apply andb_prop in H as [Hn Hb].
    assert (Hr : r = plus digit).
    { clear - Hb; unfold is_number_body in Hb.
      destruct r as [| | | | | | |lo hi r| | | |]; try discriminate.
      destruct lo as [|[|lo]]; try discriminate.
      destruct hi; try discriminate.
      destruct r as [| | |neg items| | | | | | | |]; try discriminate.
      destruct neg; try discriminate.
      destruct items as [|[| | |] [|]]; try discriminate; reflexivity. }
    subst r; split; [|exact I].
    intros pre w post Hw _; exact (number_captures Hw).
Qed.

Lemma exp_patterns_are_numbered p :
  In p exp_patterns ->
  only_number_groups p = true /\ always_captures 1 p = true.
Proof.
  assert (H : forallb (fun p => only_number_groups p && always_captures 1 p)
                      exp_patterns = true) by (vm_compute; reflexivity).
  intros Hin; apply andb_prop; exact (proj1 (forallb_forall _ _) H p Hin).
Qed.

(** A match of one of the experience patterns has a group 1, made of
    digits. *)
Lemma exp_pattern_group p text_lower m :
  In p exp_patterns ->
  re_search U p text_lower = Some m ->
  exists g, group m 1 = Some g /\ digits U g.
Proof.
  intros Hin Hm; destruct (@exp_patterns_are_numbered p Hin) as [Hg Hc].
  apply (@search_from_sound U _ p [] text_lower m
           (@only_number_groups_capture p Hg)) in Hm as (a & _ & _ & Hq & Hgrp).
  specialize (Hgrp 1 Hc); unfold group in *.
  destruct (group_of (caps m) 1) as [g|] eqn:Hg1; [|congruence].
  exists g; split; [reflexivity|].
  clear - Hq Hg1; induction (caps m) as [|[i s] cs IH]; simpl in *;
    [discriminate|].
  inversion Hq as [|? ? Hhd Htl]; subst; simpl in Hhd.
  destruct (Nat.eqb_spec i 1) as [->|_]; [|exact (IH Htl Hg1)].
  injection Hg1 as <-; now apply Hhd.
Qed.

Lemma scan_patterns_digits ps text_lower exp :
  (forall p, In p ps -> In p exp_patterns) ->
  digits U exp ->
  digits U (scan_patterns U ps text_lower exp).
Proof.
  induction ps as [|p ps IH]; intros Hps Hexp; simpl; [assumption|].
  destruct (re_search U p text_lower) as [m|] eqn:Hm.
  - destruct (@exp_pattern_group p text_lower m (Hps p (or_introl eq_refl)) Hm)
      as (g & -> & Hg); exact Hg.
  - apply IH; [intros q Hq; apply Hps; now right|assumption].
Qed.

Lemma string_of_uint_digits d :
  Forall (fun c => is_decimal U c = true)
         (bytes_of_string (NilEmpty.string_of_uint d)).
Proof.
  induction d; simpl; constructor; try assumption; vm_compute; reflexivity.
Qed.

(** [str(z)] of a natural number is a non-empty string of digits. *)
Lemma str_of_Z_digits z : (0 <= z)%Z -> digits U (str_of_Z z).
Proof.
  intros Hz; unfold str_of_Z, digits.
  destruct z as [|p|p]; [split; [discriminate|vm_compute; repeat constructor]| |lia].
  simpl; split; [|apply string_of_uint_digits].
  pose proof (DecimalPos.Unsigned.to_uint_nonnil p) as Hn.
  destruct (Pos.to_uint p); [congruence|discriminate..].
Qed.

Lemma list_min_le x l : (list_min x l <= x)%Z.
Proof.
  revert x; induction l as [|y l IH]; intros x; simpl; [lia|].
  specialize (IH (Z.min x y)); lia.
Qed.

Lemma earliest_year_digits (E : Env) lines exp :
  digits U exp -> digits U (earliest_year U E lines exp).
Proof.
  intros Hexp; unfold earliest_year.
  destruct (filter _ (all_work_years U lines)) as [|y ys] eqn:Hf; [assumption|].
  apply str_of_Z_digits.
  assert (Hy : In y (filter (fun y => (1980 <? y)%Z && (y <=? year (now E))%Z)
                            (all_work_years U lines)))
    by (rewrite Hf; now left).
  apply filter_In in Hy as [_ Hy]; apply andb_prop in Hy as [_ Hy].
  apply Z.leb_le in Hy; pose proof (list_min_le y ys); lia.
Qed.

End ExperienceDigits.

(** The experience is always a non-empty string of decimal digits: the
    default "0", the digits captured by an explicit mention, or the decimal
    writing of a number of years that is never negative. *)
Theorem experience_is_a_number (U : UCD) (E : Env) (text : str) :
  digits U (experience (parse_cv_metadata U E text)).
Proof.
  assert (H0 : digits U (u "0"))
    by (split; [discriminate|vm_compute; repeat constructor]).
  unfold parse_cv_metadata; rewrite parse_with_experience.
  destruct (no_content text); [exact H0|].
  unfold extract_experience.
  rewrite scan_patterns_twice.
  assert (Hs : digits U (scan_patterns U exp_patterns (lower U text)
                           (experience default_metadata)))
    by (apply scan_patterns_digits; [auto|exact H0]).
  revert Hs; generalize (scan_patterns U exp_patterns (lower U text)
                           (experience default_metadata)); intros exp Hexp.
  unfold date_stages.
  destruct (str_eqb exp (u "0")); [|assumption].
  assert (Hy : forall ps, digits U (years_of_periods ps))
    by (intros ps; apply str_of_Z_digits; lia).
  destruct (collect_periods U E (split_lines text)) as [|p ps].
  - destruct (str_eqb exp (u "0")); [now apply earliest_year_digits|assumption].
  - destruct (str_eqb _ (u "0")); [now apply earliest_year_digits|apply Hy].
Qed.

(** ** The skills, exactly *)

Lemma filter_before_in (A : Type) (f : A -> bool) (l : list A) :
  forall pre, StronglySorted (before_in (pre ++ l)) (filter f l).
Proof.
  induction l as [|x l IH]; intros pre; simpl; [constructor|].
  specialize (IH (pre ++ [x])); rewrite <- app_assoc in IH; simpl in IH.
  destruct (f x); [|assumption].
  constructor; [assumption|].
  apply Forall_forall; intros y Hy; apply filter_In in Hy as [Hy _].
  apply in_split in Hy as (l1 & l2 & ->).
  exists pre, l1, l2; reflexivity.
Qed.

(** The skills reported are exactly the entries of the vocabulary whose
    lower-cased form stands in the lower-cased text between two word
    boundaries; they come in the order of the vocabulary, each once. *)
Theorem skills_are_the_whole_word_matches (U : UCD) (E : Env) (text : str) :
  no_content text = false ->
  (forall skill,
     In skill (skills (parse_cv_metadata U E text)) <->
     In skill skill_keywords /\
     exists a b,
       lower U text = a ++ lower U skill ++ b /\
       at_boundary U (rev a) (lower U skill ++ b) = true /\
       at_boundary U (rev (lower U skill) ++ rev a) b = true) /\
  StronglySorted (before_in skill_keywords) (skills (parse_cv_metadata U E text)) /\
  NoDup (skills (parse_cv_metadata U E text)).
Proof.
  intros Hnc; unfold parse_cv_metadata; rewrite parse_with_skills, Hnc.
  split; [intros skill; apply extract_skills_iff|split].
  - exact (filter_before_in _ skill_keywords []).
  - apply NoDup_filter.
    vm_compute; repeat constructor; simpl; intuition discriminate.
Qed.

Lemma skills_are_the_whole_word_matches_witness :
  skills (parse_cv_metadata ucd_latin1 (env_at (datetime_of 2026 11 3))
            (u "Docker, AWS et python/django; JavaScript"))
  = [u "Python"; u "JavaScript"; u "Django"; u "Docker"; u "AWS"] /\
  NoDup (skills (parse_cv_metadata ucd_latin1 (env_at (datetime_of 2026 11 3))
                   (u "Docker, AWS et python/django; JavaScript"))).
Proof.
  split; [vm_compute; reflexivity|].
  refine (proj2 (proj2 (@skills_are_the_whole_word_matches ucd_latin1
                          (env_at (datetime_of 2026 11 3))
                          (u "Docker, AWS et python/django; JavaScript") _))).
  vm_compute; reflexivity.
Defined.

Lemma date_interval_stage_witness :
  experience
    (parse_cv_metadata ucd_latin1 (env_at (datetime_of 2026 11 3))
       (u "Acme, mars 2010 - juin 2014" ++ nl ++ u "Initech, jan 2013 - oct 2016"))
  = u "7".
Proof.
  refine (eq_trans
            (proj1 (@date_interval_stage ucd_latin1
                      (env_at (datetime_of 2026 11 3))
                      (u "Acme, mars 2010 - juin 2014" ++ nl
                         ++ u "Initech, jan 2013 - oct 2016") _ _ _)) _).
  - vm_compute; reflexivity.
  - vm_compute; reflexivity.
  - vm_compute; discriminate.
  - vm_compute; reflexivity.
Defined.

(** ** Sections *)

Lemma flat_map_short (A B : Type) (f : A -> list B) (l : list A) :
  (forall x, length (f x) <= 1) -> length (flat_map f l) <= length l.
Proof.
  intros Hf; induction l as [|x l IH]; simpl; [lia|].
  rewrite length_app; specialize (Hf x); lia.
Qed.

(** The sections hold at most four headings, one for each of the four
    patterns and each once: a heading is the first match of its pattern in
    the text, trimmed and put in title case; later matches of the same
    pattern are not reported. *)
Theorem sections_one_per_pattern (U : UCD) (E : Env) (text : str) :
  length (sections (parse_cv_metadata U E text)) <= 4 /\
  NoDup (sections (parse_cv_metadata U E text)) /\
  forall s,
    In s (sections (parse_cv_metadata U E text)) <->
    no_content text = false /\
    exists pattern val rest,
      In pattern section_patterns /\
      re_findall1 U pattern text = val :: rest /\
      s = title U (strip val).
Proof.
  unfold parse_cv_metadata; rewrite parse_with_sections.
  destruct (no_content text).
  - conjs; [simpl; lia|constructor|].
    intros s; split; [intros []|intros [H _]; discriminate].
  - unfold extract_sections; conjs.
    + transitivity (length (flat_map (section_of U text) section_patterns)).
      * apply NoDup_incl_length; [apply set_list_NoDup|].
        intros s Hs; now apply set_list_In in Hs.
      * change 4 with (length section_patterns); apply flat_map_short.
        intros p; unfold section_of; destruct (re_findall1 U p text);
          simpl; lia.
    + apply set_list_NoDup.
    + intros s; rewrite set_list_In, in_flat_map; split.
      * intros (p & Hp & Hs); split; [reflexivity|].
        unfold section_of in Hs.
        destruct (re_findall1 U p text) as [|val rest] eqn:Hf; [destruct Hs|].
        destruct Hs as [<-|[]]; now exists p, val, rest.
      * intros (_ & p & val & rest & Hp & Hf & ->).
        exists p; split; [exact Hp|].
        unfold section_of; rewrite Hf; now left.
Qed.

(** ** File names *)

Lemma find_sub_char_first c a b :
  ~ In c a -> find_sub [c] (a ++ c :: b) = Some (a, b).
Proof.
  induction a as [|d a IH]; intros Hc; simpl.
  - now rewrite N.eqb_refl.
  - destruct (N.eqb_spec c d) as [->|_]; [elim Hc; now left|].
    rewrite IH; [reflexivity|intros H; apply Hc; now right].
Qed.

Lemma find_sub_char_inv c s a b :
  find_sub [c] s = Some (a, b) -> s = a ++ c :: b /\ ~ In c a.
Proof.
  revert a b; induction s as [|d s IH]; intros a b; simpl; [discriminate|].
  destruct (N.eqb_spec c d) as [->|Hcd].
  - intros H; injection H as <- <-; split; [reflexivity|intros []].
  - destruct (find_sub [c] s) as [[a' b']|] eqn:Hf; [|discriminate].
    intros H; injection H as <- <-.
    destruct (IH a' b' eq_refl) as [-> Hn].
    split; [reflexivity|intros [H|H]; [congruence|contradiction]].
Qed.

(** Splitting at the last occurrence of a character. *)
Lemma rsplit_once_char c s :
  (exists a b, s = a ++ c :: b /\ ~ In c b /\ rsplit_once [c] s = [a; b]) \/
  (~ In c s /\ rsplit_once [c] s = [s]).
Proof.
  unfold rsplit_once; simpl.
  destruct (find_sub [c] (rev s)) as [[a b]|] eqn:Hf.
  - left; apply find_sub_char_inv in Hf as [Hs Hn].
    exists (rev b), (rev a); split; [|split; [|reflexivity]].
    + rewrite <- (rev_involutive s), Hs, rev_app_distr; simpl.
      now rewrite <- app_assoc.
    + now rewrite <- in_rev.
  - right; split; [|reflexivity].
    intros Hin; apply in_rev, in_split in Hin as (l1 & l2 & Hs).
    assert (Hc : contains [c] (rev s) = true)
      by (apply contains_iff; exists l1, l2; exact Hs).
    unfold contains in Hc; rewrite Hf in Hc; discriminate.
Qed.

(** A file name is accepted exactly when it has a dot and what follows its
    last dot is, whatever the case, "pdf", "txt" or "docx"; nothing is asked
    of what stands before the dot, which may be empty. *)
Theorem allowed_file_iff (U : UCD) (filename : str) :
  allowed_file U filename = true <->
  exists stem ext,
    filename = stem ++ u "." ++ ext /\
    ~ In (ch ".") ext /\
    In (lower U ext) ALLOWED_EXTENSIONS.
Proof.
  unfold allowed_file.
  change (u ".") with [ch "."].
  destruct (rsplit_once_char (ch ".") filename)
    as [(a & b & Hs & Hn & Hr)|[Hn Hr]]; rewrite Hr; cbn [nth].
  - assert (Hc : contains [ch "."] filename = true)
      by (apply contains_iff; exists a, b; exact Hs).
    rewrite Hc; cbn [andb]; rewrite existsb_exists; split.
    + intros (x & Hx & He); apply str_eqb_eq in He; subst x.
      exists a, b; auto.
    + intros (stem & ext & Hs' & Hn' & Hin).
      assert (Hb : ext = b).
      { rewrite Hs in Hs'; clear - Hs' Hn Hn'.
        apply (f_equal (@rev cp)) in Hs'.
        rewrite !rev_app_distr in Hs'; simpl in Hs'; rewrite <- !app_assoc in Hs'.
        simpl in Hs'.
        assert (H1 : find_sub [ch "."] (rev b ++ ch "." :: rev a)
                     = Some (rev b, rev a))
          by (apply find_sub_char_first; now rewrite <- in_rev).
        assert (H2 : find_sub [ch "."] (rev ext ++ ch "." :: rev stem)
                     = Some (rev ext, rev stem))
          by (apply find_sub_char_first; now rewrite <- in_rev).
        rewrite Hs' in H1; rewrite H1 in H2; injection H2 as H2 _.
        now rewrite <- (rev_involutive ext), <- H2, rev_involutive. }
      subst ext; exists (lower U b); split; [assumption|now apply str_eqb_eq].
  - assert (Hc : contains [ch "."] filename = false).
    { apply contains_false; intros (a & b & Hs); apply Hn.
      rewrite Hs; apply in_or_app; right; now left. }
    rewrite Hc; split; [discriminate|].
    intros (stem & ext & Hs & _); elim Hn.
    rewrite Hs; apply in_or_app; right; now left.
Qed.

(** ** Previews *)

Lemma rsplit_once_head_prefix c s :
  exists rest, s = nth 0 (rsplit_once [c] s) [] ++ rest.
Proof.
  destruct (rsplit_once_char c s) as [(a & b & Hs & _ & Hr)|[_ Hr]];
    rewrite Hr; simpl.
  - exists (c :: b); exact Hs.
  - exists []; now rewrite app_nil_r.
Qed.

Lemma slice_to_prefix n s : exists rest, s = slice_to n s ++ rest.
Proof.
  unfold slice_to; destruct (n <? 0)%Z;
    eexists; symmetry; apply firstn_skipn.
Qed.

Lemma slice_to_length n s : (0 <= n)%Z -> (Z.of_nat (length (slice_to n s)) <= n)%Z.
Proof.
  intros Hn; unfold slice_to.
  destruct (Z.ltb_spec n 0); [lia|].
  pose proof (firstn_le_length (Z.to_nat n) s).
  rewrite length_firstn; lia.
Qed.

(** A preview is the text with its white space normalised when that fits in
    [max_length] characters; otherwise it is a beginning of the normalised
    text followed by an ellipsis, and it has at most [max_length + 1]
    characters.  (For the empty text the preview is a fixed message.) *)
Theorem get_text_preview_bounded (text : str) (max_length : Z) :
  text <> [] ->
  (0 <= max_length)%Z ->
  let normal := join_space (split_ws text) in
  (Z.of_nat (length (get_text_preview text max_length)) <= max_length + 1)%Z /\
  ((Z.of_nat (length normal) <= max_length)%Z ->
   get_text_preview text max_length = normal) /\
  ((max_length < Z.of_nat (length normal))%Z ->
   exists kept rest,
     get_text_preview text max_length = kept ++ u "…" /\
     normal = kept ++ rest /\ rest <> []).
Proof.
  intros Ht Hm; cbv zeta; unfold get_text_preview.
  destruct text as [|c t]; [congruence|]; cbn [is_empty].
  set (normal := join_space (split_ws (c :: t))).
  change (u " ") with [ch " "].
  destruct (rsplit_once_head_prefix (ch " ") (slice_to max_length normal))
    as (r1 & Hr1).
  destruct (slice_to_prefix max_length normal) as (r2 & Hr2).
  pose proof (slice_to_length normal Hm) as Hlen.
  set (kept := nth 0 (rsplit_once [ch " "] (slice_to max_length normal)) []) in *.
  assert (Hk : (Z.of_nat (length kept) <= max_length)%Z).
  { rewrite Hr1, length_app in Hlen; lia. }
  destruct (Z.leb_spec (Z.of_nat (length normal)) max_length) as [Hfit|Hcut].
  - split; [lia|split; [reflexivity|lia]].
  - split; [rewrite length_app; change (length (u "…")) with 1; lia|].
    split; [lia|intros _].
    exists kept, (r1 ++ r2); split; [reflexivity|split].
    + rewrite Hr2 at 1; rewrite Hr1 at 1; now rewrite <- app_assoc.
    + intros Hnil; apply app_eq_nil in Hnil as [-> ->].
      rewrite app_nil_r in Hr1, Hr2.
      apply (f_equal (@length cp)) in Hr1, Hr2; lia.
Qed.

Lemma get_text_preview_bounded_witness :
  (Z.of_nat (length (get_text_preview
                       (u "Ingénieur   logiciel," ++ nl
                          ++ u " dix ans  d'expérience en Python") 24))
   <= 24 + 1)%Z.
Proof.
  refine (proj1 (@get_text_preview_bounded
                   (u "Ingénieur   logiciel," ++ nl
                      ++ u " dix ans  d'expérience en Python") 24 _ _)).
  - vm_compute; discriminate.
  - lia.
Defined.

Lemma split_ws_all_space s :
  Forall (fun c => is_space c = true) s -> split_ws s = [].
Proof.
  unfold split_ws; induction 1 as [|c s Hc _ IH]; simpl; [reflexivity|].
  now rewrite Hc.
Qed.

(** The empty text has a fixed message for preview; a text of white space
    only has the empty preview. *)
Theorem get_text_preview_of_nothing (text : str) (max_length : Z) :
  (text = [] -> get_text_preview text max_length = u "Aucun contenu extrait") /\
  (text <> [] -> Forall (fun c => is_space c = true) text ->
   (0 <= max_length)%Z -> get_text_preview text max_length = []).
Proof.
  split; [intros ->; reflexivity|].
  intros Ht Hs Hm; unfold get_text_preview.
  destruct text as [|c t]; [congruence|]; cbn [is_empty].
  rewrite (split_ws_all_space Hs); cbn [join_space length].
  destruct (Z.leb_spec (Z.of_nat 0) max_length); [reflexivity|lia].
Qed.

Lemma split_ws_from_no_space cur s w :
  Forall (fun c => is_space c = false) cur ->
  In w (split_ws_from cur s) -> Forall (fun c => is_space c = false) w.
Proof.
  revert cur; induction s as [|c s IH]; intros cur Hcur; simpl.
  - destruct cur; [intros []|intros [<-|[]]; now apply Forall_rev].
  - destruct (is_space c) eqn:Hc.
    + destruct cur as [|d cur]; [apply IH; constructor|].
      intros [<-|H]; [now apply Forall_rev|].
      revert H; apply IH; constructor.
    + apply IH; now constructor.
Qed.

Lemma app_char_split (c : cp) x : forall a y b,
  ~ In c x -> x ++ c :: y = a ++ c :: b ->
  (a = x /\ b = y) \/ exists a', a = x ++ c :: a' /\ y = a' ++ c :: b.
Proof.
  induction x as [|d x IH]; intros a y b Hx H; simpl in *.
  - destruct a as [|e a]; simpl in H.
    + injection H as ->; now left.
    + injection H as <- ->; right; now exists a.
  - destruct a as [|e a]; simpl in H.
    + injection H as -> _; elim Hx; now left.
    + injection H as <- H.
      destruct (IH a y b (fun Hin => Hx (or_intror Hin)) H)
        as [[-> ->]|(a' & -> & ->)]; [now left|right; now exists a'].
Qed.

(** A space inside words joined by single spaces separates two of them. *)
Lemma join_space_at_space ws : forall a rest,
  Forall (fun w => ~ In (ch " ") w) ws ->
  join_space ws = a ++ ch " " :: rest ->
  exists k, 1 <= k < length ws /\ a = join_space (firstn k ws).
Proof.
  induction ws as [|w ws IH]; intros a rest Hws H; [now destruct a|].
  inversion Hws as [|? ? Hw Hws']; subst.
  destruct ws as [|w' ws].
  - simpl in H; elim Hw; rewrite H; apply in_or_app; right; now left.
  - change (join_space (w :: w' :: ws))
      with (w ++ ch " " :: join_space (w' :: ws)) in H.
    destruct (@app_char_split (ch " ") w a _ rest Hw H) as [[-> _]|(a' & -> & Hj)].
    + exists 1; split; [simpl; lia|reflexivity].
    + destruct (IH a' rest Hws' Hj) as (k & Hk & ->).
      exists (S k); split; [simpl in *; lia|].
      destruct k as [|k]; [lia|reflexivity].
Qed.

(** A preview that was cut ends on whole words: when the first
    [max_length] characters of the normalised text hold a space, the
    preview is made of the first [k] words of the text, joined by single
    spaces and followed by the ellipsis, for some [k] from 1 up to the
    number of words less one. *)
Theorem get_text_preview_keeps_whole_words (text : str) (max_length : Z) :
  text <> [] ->
  let words := split_ws text in
  (max_length < Z.of_nat (length (join_space words)))%Z ->
  In (ch " ") (slice_to max_length (join_space words)) ->
  exists k,
    1 <= k < length words /\
    get_text_preview text max_length = join_space (firstn k words) ++ u "…".
Proof.
  intros Ht; cbv zeta; intros Hcut Hsp; unfold get_text_preview.
  destruct text as [|c t]; [congruence|]; cbn [is_empty].
  set (words := split_ws (c :: t)) in *.
  destruct (Z.leb_spec (Z.of_nat (length (join_space words))) max_length);
    [lia|].
  change (u " ") with [ch " "].
  destruct (rsplit_once_char (ch " ") (slice_to max_length (join_space words)))
    as [(a & b & Hs & _ & Hr)|[Hn _]]; [|contradiction].
  rewrite Hr; cbn [nth].
  destruct (slice_to_prefix max_length (join_space words)) as (r & Hr2).
  rewrite Hs, <- app_assoc in Hr2; simpl in Hr2.
  destruct (@join_space_at_space words a (b ++ r)) as (k & Hk & ->);
    [|exact Hr2|now exists k].
  apply Forall_forall; intros w Hw Hin.
  pose proof (@split_ws_from_no_space [] (c :: t) w (Forall_nil _) Hw) as Hns.
  pose proof (proj1 (Forall_forall _ _) Hns _ Hin) as Hx.
  vm_compute in Hx; discriminate.
Qed.

Lemma get_text_preview_keeps_whole_words_witness :
  exists k,
    1 <= k < length (split_ws (u "Ingénieur   logiciel," ++ nl
                        ++ u " dix ans  d'expérience en Python")) /\
    get_text_preview (u "Ingénieur   logiciel," ++ nl
                        ++ u " dix ans  d'expérience en Python") 24
    = join_space (firstn k (split_ws (u "Ingénieur   logiciel," ++ nl
                        ++ u " dix ans  d'expérience en Python"))) ++ u "…".
Proof.
  refine (@get_text_preview_keeps_whole_words
            (u "Ingénieur   logiciel," ++ nl
               ++ u " dix ans  d'expérience en Python") 24 _ _ _).
  - vm_compute; discriminate.
  - vm_compute; reflexivity.
  - vm_compute; tauto.
Defined.

(** ** The lists of the edit form *)

Lemma split_on_no_sep c s : ~ In c s -> split_on c s = [s].
Proof.
  induction s as [|d s IH]; intros H; simpl; [reflexivity|].
  destruct (N.eqb_spec d c) as [->|_]; [elim H; now left|].
  rewrite IH; [reflexivity|intros Hin; apply H; now right].
Qed.

Lemma split_on_app c a b :
  ~ In c a -> split_on c (a ++ c :: b) = a :: split_on c b.
Proof.
  induction a as [|d a IH]; intros H; simpl.
  - now rewrite N.eqb_refl.
  - destruct (N.eqb_spec d c) as [->|_]; [elim H; now left|].
    rewrite IH; [reflexivity|intros Hin; apply H; now right].
Qed.

Lemma split_on_pieces c s p : In p (split_on c s) -> ~ In c p.
Proof.
  revert p; induction s as [|d s IH]; intros p; simpl.
  - intros [<-|[]] [].
  - destruct (N.eqb_spec d c) as [->|Hd].
    + intros [<-|H]; [intros []|now apply IH].
    + destruct (split_on c s) as [|l ls].
      * intros [<-|[]] [H|[]]; congruence.
      * intros [<-|H].
        -- intros [H|H]; [congruence|]. apply (IH l); [now left|exact H].
        -- apply IH; now right.
Qed.

Lemma strip_incl s x : In x (strip s) -> In x s.
Proof.
  intros H; destruct (strip_decompose s) as (w1 & w2 & Hs & _).
  rewrite Hs; apply in_or_app; right; apply in_or_app; now left.
Qed.

Lemma lstrip_app_space p s :
  Forall (fun c => is_space c = true) p -> lstrip (p ++ s) = lstrip s.
Proof. induction 1 as [|c p Hc _ IH]; simpl; [reflexivity|now rewrite Hc]. Qed.

Lemma lstrip_app_keep s t : lstrip s <> [] -> lstrip (s ++ t) = lstrip s ++ t.
Proof.
  induction s as [|c s IH]; simpl; [congruence|].
  destruct (is_space c); [exact IH|reflexivity].
Qed.

Lemma strip_padded p1 p2 x :
  Forall (fun c => is_space c = true) p1 ->
  Forall (fun c => is_space c = true) p2 ->
  strip (p1 ++ x ++ p2) = strip x.
Proof.
  intros H1 H2; unfold strip; rewrite (lstrip_app_space _ H1).
  destruct (lstrip x) as [|c t] eqn:Hx.
  - assert (Hall : Forall (fun c => is_space c = true) (x ++ p2)).
    { apply Forall_app; split; [|exact H2].
      destruct (lstrip_suffix x) as (ws & Hs & Hws).
      rewrite Hx, app_nil_r in Hs; now subst. }
    now rewrite (lstrip_all_space Hall).
  - rewrite lstrip_app_keep by congruence; rewrite Hx.
    unfold rstrip; rewrite rev_app_distr.
    rewrite lstrip_app_space; [reflexivity|now apply Forall_rev].
Qed.

(** What the edit form keeps of a field: every item is non-empty, has no
    white space at either end and holds no comma. *)
Theorem form_list_items_are_clean (field : str) :
  Forall (fun e => e <> [] /\ strip e = e /\ ~ In (ch ",") e)
         (form_list field).
Proof.
  apply Forall_forall; intros e; unfold form_list; intros H.
  apply filter_In in H; destruct H as [H Hne].
  apply in_map_iff in H; destruct H as (p & <- & Hp).
  conjs.
  - intros Hs; rewrite Hs in Hne; discriminate.
  - apply strip_idempotent.
  - intros Hin; apply (split_on_pieces _ _ _ Hp), strip_incl, Hin.
Qed.

Lemma space_is_no_comma p :
  Forall (fun c => is_space c = true) p -> ~ In (ch ",") p.
Proof.
  intros H Hin; apply (proj1 (Forall_forall _ _) H) in Hin.
  vm_compute in Hin; discriminate.
Qed.

Lemma form_list_join_padded p1 p2 l : forall p0,
  Forall (fun c => is_space c = true) p0 ->
  Forall (fun c => is_space c = true) p1 ->
  Forall (fun c => is_space c = true) p2 ->
  Forall (fun e => e <> [] /\ strip e = e /\ ~ In (ch ",") e) l ->
  form_list (p0 ++ join (p1 ++ ch "," :: p2) l) = l.
Proof.
  induction l as [|x l IH]; intros p0 H0 H1 H2 Hl.
  - simpl; rewrite app_nil_r; unfold form_list.
    rewrite split_on_no_sep by now apply space_is_no_comma.
    simpl; now rewrite (strip_all_space H0).
  - inversion Hl as [|? ? (Hx & Hsx & Hcx) Hl']; subst.
    destruct l as [|y l].
    + unfold form_list; cbn [join].
      rewrite split_on_no_sep.
      * assert (Hs : strip (p0 ++ x) = x).
        { rewrite <- Hsx at 2; rewrite <- (strip_padded x H0 (Forall_nil _)).
          now rewrite app_nil_r. }
        cbn [map filter]; rewrite Hs.
        destruct x; [congruence|reflexivity].
      * intros Hin; apply in_app_or in Hin.
        destruct Hin as [Hin|Hin]; [|tauto].
        now apply (space_is_no_comma H0).
    + change (join (p1 ++ ch "," :: p2) (x :: y :: l))
        with (x ++ (p1 ++ ch "," :: p2) ++ join (p1 ++ ch "," :: p2) (y :: l)).
      specialize (IH p2 H2 H1 H2 Hl'); unfold form_list in *.
      replace (p0 ++ x ++ (p1 ++ ch "," :: p2)
                 ++ join (p1 ++ ch "," :: p2) (y :: l))
        with ((p0 ++ x ++ p1) ++ ch "," ::
                (p2 ++ join (p1 ++ ch "," :: p2) (y :: l)))
        by (repeat rewrite <- app_assoc; reflexivity).
      rewrite split_on_app.
      * cbn [map filter]; rewrite (strip_padded x H0 H1), Hsx, IH.
        destruct x; [congruence|reflexivity].
      * intros Hin; apply in_app_or in Hin; destruct Hin as [Hin|Hin];
          [now apply (space_is_no_comma H0)|].
        apply in_app_or in Hin; destruct Hin as [Hin|Hin]; [tauto|].
        now apply (space_is_no_comma H1).
Qed.

(** Round trip of the edit form: clean items (non-empty, trimmed, without
    a comma) written in one field, separated by a comma with any white
    space around it, are read back unchanged. *)
Theorem form_list_reads_back (p1 p2 : str) (l : list str) :
  Forall (fun c => is_space c = true) p1 ->
  Forall (fun c => is_space c = true) p2 ->
  Forall (fun e => e <> [] /\ strip e = e /\ ~ In (ch ",") e) l ->
  form_list (join (p1 ++ ch "," :: p2) l) = l.
Proof.
  intros H1 H2 Hl.
  exact (@form_list_join_padded p1 p2 l [] (Forall_nil _) H1 H2 Hl).
Qed.

Lemma form_list_reads_back_witness :
  form_list (join ([] ++ ch "," :: u " ") [u "a@b.fr"; u "c d@e.org"])
  = [u "a@b.fr"; u "c d@e.org"].
Proof.
  apply form_list_reads_back.
  - constructor.
  - repeat constructor.
  - repeat constructor; try (vm_compute; discriminate);
      vm_compute; intuition discriminate.
Defined.

(** ** Reading an uploaded file *)

Lemma strip_nonempty_of_nonspace s c :
  In c s -> is_space c = false -> strip s <> [].
Proof.
  intros Hin Hc Hs; apply strip_empty_all_space in Hs.
  apply (proj1 (Forall_forall _ _) Hs) in Hin; congruence.
Qed.

Lemma technical_message_not_blank msg : strip (technical_message msg) <> [].
Proof.
  apply strip_nonempty_of_nonspace with (c := 91%N);
    [left; reflexivity|vm_compute; reflexivity].
Qed.

Lemma scanned_message_not_blank : strip scanned_message <> [].
Proof. vm_compute; discriminate. Qed.

Lemma scanned_message_flagged : contains (u "[ERREUR") scanned_message = true.
Proof. vm_compute; reflexivity. Qed.

Lemma pdf_is_not_txt : str_eqb (u "pdf") (u "txt") = false.
Proof. vm_compute; reflexivity. Qed.

Lemma pdf_is_pdf : str_eqb (u "pdf") (u "pdf") = true.
Proof. vm_compute; reflexivity. Qed.

Lemma technical_message_flagged msg :
  contains (u "[ERREUR") (technical_message msg) = true.
Proof.
  apply contains_iff; exists [], (u " TECHNIQUE: " ++ msg ++ u "]").
  reflexivity.
Qed.

Lemma rsplit_once_dot stem e :
  ~ In (ch ".") e -> rsplit_once (u ".") (stem ++ u "." ++ e) = [stem; e].
Proof.
  intros He; change (u ".") with [ch "."].
  destruct (rsplit_once_char (ch ".") (stem ++ [ch "."] ++ e))
    as [(a & b & Hs & Hb & ->)|[Hn _]].
  - simpl in Hs.
    assert (H : rev e ++ ch "." :: rev stem = rev b ++ ch "." :: rev a).
    { apply (f_equal (@rev cp)) in Hs.
      rewrite !rev_app_distr in Hs; simpl in Hs.
      now rewrite <- !app_assoc in Hs. }
    destruct (@app_char_split (ch ".") (rev e) (rev b) (rev stem) (rev a))
      as [[H1 H2]|(a' & H1 & _)]; [now rewrite <- in_rev|exact H| |].
    + apply (f_equal (@rev cp)) in H1, H2.
      rewrite !rev_involutive in H1, H2; now subst.
    + elim Hb; apply in_rev; rewrite H1; apply in_or_app; right; now left.
  - elim Hn; apply in_or_app; right; now left.
Qed.

Lemma join_all_space sep parts :
  Forall (fun c => is_space c = true) sep ->
  Forall (Forall (fun c => is_space c = true)) parts ->
  Forall (fun c => is_space c = true) (join sep parts).
Proof.
  intros Hsep; induction 1 as [|x l Hx Hl IH]; [constructor|].
  destruct l as [|y l]; [exact Hx|].
  change (join sep (x :: y :: l)) with (x ++ sep ++ join sep (y :: l)).
  apply Forall_app; split; [exact Hx|].
  apply Forall_app; split; [exact Hsep|exact IH].
Qed.





(** ** Who may see a page *)

Lemma session_after_snoc s rqs rq :
  session_after s (rqs ++ [rq]) = fst (handle (session_after s rqs) rq).
Proof. unfold session_after; now rewrite fold_left_app. Qed.

Ltac run_views :=
  cbv [handle methods view_of login_view logout_view plain_view
       login_required rq_endpoint rq_method form_username form_password
       logged_in good_login is_logout fst snd negb] in *.

Lemma handle_good_login s rq :
  good_login rq = true -> logged_in (fst (handle s rq)) = true.
Proof.
  destruct rq as [e m us pw], s as [[|]]; run_views;
    destruct e, m; try discriminate; try reflexivity.
  intros ->; reflexivity.
Qed.

Lemma handle_logout s rq :
  is_logout rq = true -> logged_in (fst (handle s rq)) = false.
Proof.
  destruct rq as [e m us pw]; run_views;
    destruct e, m; try discriminate; reflexivity.
Qed.

Lemma handle_other s rq :
  good_login rq = false -> is_logout rq = false -> fst (handle s rq) = s.
Proof.
  destruct rq as [e m us pw], s as [[|]]; run_views;
    destruct e, m; try discriminate; try reflexivity.
  intros ->; reflexivity.
Qed.

Lemma logged_in_after_login (rqs : list request) :
  logged_in (session_after {| logged_in := false |} rqs) = true ->
  exists before g after,
    rqs = before ++ g :: after /\
    good_login g = true /\
    Forall (fun rq => is_logout rq = false) after.
Proof.
  induction rqs as [|rq rqs IH] using rev_ind; [discriminate|].
  rewrite session_after_snoc.
  destruct (good_login rq) eqn:Hg.
  - intros _; exists rqs, rq, []; conjs; [reflexivity|exact Hg|constructor].
  - destruct (is_logout rq) eqn:Hl.
    + rewrite (handle_logout _ _ Hl); discriminate.
    + rewrite (handle_other _ _ Hg Hl).
      intros H; destruct (IH H) as (before & g & after & -> & Hgg & Ha).
      exists before, g, (after ++ [rq]); conjs.
      * now rewrite <- app_assoc.
      * exact Hgg.
      * apply Forall_app; split; [exact Ha|now constructor].
Qed.

Lemma stays_logged_in (after : list request) : forall s,
  logged_in s = true ->
  Forall (fun rq => is_logout rq = false) after ->
  logged_in (session_after s after) = true.
Proof.
  induction after as [|rq after IH]; intros s Hs Ha; [exact Hs|].
  inversion Ha as [|? ? Hl Ha']; subst.
  change (session_after s (rq :: after))
    with (session_after (fst (handle s rq)) after).
  apply IH; [|exact Ha'].
  destruct (good_login rq) eqn:Hg; [now apply handle_good_login|].
  now rewrite (handle_other _ _ Hg Hl).
Qed.

(** The session is logged in exactly when the requests so far hold a POST
    to [/login] with the name [admin] and the password [admin123], and no
    request to [/logout] after it. *)
Theorem logged_in_iff_login_since_last_logout (rqs : list request) :
  logged_in (session_after {| logged_in := false |} rqs) = true <->
  exists before g after,
    rqs = before ++ g :: after /\
    good_login g = true /\
    Forall (fun rq => is_logout rq = false) after.
Proof.
  split; [apply logged_in_after_login|].
  intros (before & g & after & -> & Hg & Ha).
  unfold session_after; rewrite fold_left_app.
  change (logged_in
            (session_after
               (fst (handle (session_after {| logged_in := false |} before) g))
               after) = true).
  apply stays_logged_in; [now apply handle_good_login|exact Ha].
Qed.

(** The code of a protected view runs only for a client that gave the
    admin name and password in an earlier request and has not logged out
    since. *)
Theorem protected_view_needs_login (rqs : list request) (rq : request)
    (e : endpoint) :
  protected e = true ->
  snd (handle (session_after {| logged_in := false |} rqs) rq)
  = Some (view_body e) ->
  exists before g after,
    rqs = before ++ g :: after /\
    good_login g = true /\
    Forall (fun rq => is_logout rq = false) after.
Proof.
  intros Hp Hr; apply logged_in_after_login.
  destruct (session_after _ rqs) as [[|]]; [reflexivity|exfalso].
  destruct rq as [e' m us pw]; run_views.
  destruct e', m; try discriminate;
    try (destruct (opt_str_eqb us _ && opt_str_eqb pw _); discriminate);
    injection Hr as <-; discriminate.
Qed.

Lemma protected_view_needs_login_witness :
  exists before g after,
    [ request_of dashboard GET None None;
      request_of login POST (Some "admin"%string) (Some "admin"%string);
      request_of logout POST None None;
      request_of login POST (Some "admin"%string) (Some "admin123"%string);
      request_of upload GET None None ]
    = before ++ g :: after /\
    good_login g = true /\
    Forall (fun rq => is_logout rq = false) after.
Proof.
  apply (@protected_view_needs_login _
           (request_of delete_cv_route POST None None) delete_cv_route).
  - reflexivity.
  - vm_compute; reflexivity.
Defined.

(** ** The pages of the listing *)

Lemma firstn_plus (A : Type) (a b : nat) (l : list A) :
  firstn (a + b) l = firstn a l ++ firstn b (skipn a l).
Proof.
  revert l; induction a as [|a IH]; intros l; [reflexivity|].
  destruct l as [|x l]; simpl; [now rewrite firstn_nil|now rewrite IH].
Qed.

Lemma chunks_cover (A : Type) (n : nat) (l : list A) (k : nat) :
  concat (map (fun p => firstn n (skipn (p * n) l)) (seq 0 k))
  = firstn (k * n) l.
Proof.
  induction k as [|k IH]; [reflexivity|].
  rewrite seq_S, map_app, concat_app, IH; simpl.
  rewrite app_nil_r, (Nat.add_comm n (k * n)); symmetry; apply firstn_plus.
Qed.

Lemma sqlite_int_iff z :
  sqlite_int z = true <-> (int64_min <= z <= int64_max)%Z.
Proof.
  unfold sqlite_int; rewrite andb_true_iff, !Z.leb_le; reflexivity.
Qed.

Lemma sqlite_int_out z :
  sqlite_int z = false <-> (z < int64_min \/ int64_max < z)%Z.
Proof.
  unfold sqlite_int; rewrite andb_false_iff, !Z.leb_gt; reflexivity.
Qed.

Lemma get_all_cvs_eq (Q : Sqlite) db per_page ft page :
  (0 < per_page <= int64_max)%Z ->
  get_all_cvs Q db page per_page ft
  = if sqlite_int ((page - 1) * per_page) then
      Some (firstn (Z.to_nat per_page)
              (skipn (Z.to_nat ((page - 1) * per_page))
                 (order_by_created_at_desc Q (listed db ft))),
            Z.of_nat (length (listed db ft)),
            ((Z.of_nat (length (listed db ft)) + per_page - 1) / per_page)%Z)
    else None.
Proof.
  intros Hpp; unfold get_all_cvs, sql_limit_offset.
  assert (Hs : sqlite_int per_page = true)
    by (apply sqlite_int_iff; unfold int64_min; lia).
  rewrite Hs; cbn [andb].
  destruct (sqlite_int ((page - 1) * per_page)); cbn [negb]; [|reflexivity].
  destruct (Z.eqb_spec per_page 0); [lia|].
  destruct (Z.ltb_spec per_page 0); [lia|reflexivity].
Qed.

Lemma page_rows_eq (Q : Sqlite) db per_page ft page :
  (0 < per_page <= int64_max)%Z ->
  sqlite_int ((page - 1) * per_page) = true ->
  page_rows Q db per_page ft page
  = firstn (Z.to_nat per_page)
      (skipn (Z.to_nat ((page - 1) * per_page))
         (order_by_created_at_desc Q (listed db ft))).
Proof.
  intros Hpp Ho; unfold page_rows.
  now rewrite (get_all_cvs_eq Q db ft page Hpp), Ho.
Qed.

Lemma listed_length db ft : length (listed db ft) <= length db.
Proof.
  assert (Hf : forall f, length (filter f db) <= length db).
  { intros f; induction db as [|r l IH]; simpl; [lia|].
    destruct (f r); simpl; lia. }
  unfold listed, where_file_type; destruct ft as [t|]; [|lia].
  destruct (existsb _ _); [apply Hf|lia].
Qed.

Lemma pages_bounds (total per_page : Z) :
  (0 <= total)%Z -> (0 < per_page)%Z ->
  let pages := ((total + per_page - 1) / per_page)%Z in
  (0 <= pages /\ total <= pages * per_page /\
   (pages - 1) * per_page < total)%Z.
Proof.
  intros Ht Hpp pages.
  pose proof (Z.mul_div_le (total + per_page - 1) per_page Hpp) as H1.
  pose proof (Z.mul_succ_div_gt (total + per_page - 1) per_page Hpp) as H2.
  fold pages in H1, H2.
  assert (0 <= pages)%Z by (apply Z.div_pos; lia).
  nia.
Qed.

(** The pages of the listing, for a page size from 1 to the largest
    64-bit integer and a table that SQLite can hold.  A call answers
    exactly when the offset [(page - 1) * per_page] fits in 64 bits, and
    then with the same total and the same number of pages; outside, the
    query raises.  The pages from 1 to the number of pages all answer, and
    one after the other they show every selected CV once, newest first. *)
Theorem pages_list_every_cv_once (Q : Sqlite) (db : list cv_row)
    (per_page : Z) (file_type : option str) :
  orders_newest_first Q ->
  (0 < per_page <= int64_max)%Z ->
  (Z.of_nat (length db) <= int64_max)%Z ->
  let total := Z.of_nat (length (listed db file_type)) in
  let total_pages := ((total + per_page - 1) / per_page)%Z in
  (forall page,
     get_all_cvs Q db page per_page file_type
     = if sqlite_int ((page - 1) * per_page)
       then Some (page_rows Q db per_page file_type page, total, total_pages)
       else None) /\
  (forall p, In p (seq 1 (Z.to_nat total_pages)) ->
     get_all_cvs Q db (Z.of_nat p) per_page file_type <> None) /\
  let shown :=
    concat (map (fun p => page_rows Q db per_page file_type (Z.of_nat p))
                (seq 1 (Z.to_nat total_pages))) in
  Permutation shown (listed db file_type) /\ StronglySorted newer_first shown.
Proof.
  intros HQ Hpp Hdb total total_pages.
  pose proof (listed_length db file_type) as Hlen.
  destruct (@pages_bounds total per_page) as (H0 & H1 & H2);
    try (unfold total; lia); fold total_pages in H0, H1, H2.
  assert (Hin : forall p, In p (seq 1 (Z.to_nat total_pages)) ->
                  sqlite_int ((Z.of_nat p - 1) * per_page) = true).
  { intros p Hp; apply in_seq in Hp; apply sqlite_int_iff.
    unfold int64_min; unfold total in *; nia. }
  conjs.
  - intros page; rewrite (get_all_cvs_eq Q db file_type page Hpp).
    destruct (sqlite_int ((page - 1) * per_page)) eqn:Ho; [|reflexivity].
    now rewrite (page_rows_eq Q db file_type page Hpp Ho).
  - intros p Hp; rewrite (get_all_cvs_eq Q db file_type _ Hpp), (Hin p Hp).
    discriminate.
  - cbv zeta.
    destruct (HQ (listed db file_type)) as [Hperm Hsorted].
    set (L := order_by_created_at_desc Q (listed db file_type)) in *.
    assert (Hall : concat
              (map (fun p => page_rows Q db per_page file_type (Z.of_nat p))
                   (seq 1 (Z.to_nat total_pages))) = L).
    { transitivity (concat (map (fun p => firstn (Z.to_nat per_page)
                                   (skipn ((p - 1) * Z.to_nat per_page) L))
                                (seq 1 (Z.to_nat total_pages)))).
      - f_equal; apply map_ext_in; intros p Hp.
        rewrite page_rows_eq by (try exact Hpp; exact (Hin p Hp)).
        fold L; do 2 f_equal.
        apply in_seq in Hp.
        replace (Z.of_nat p - 1)%Z with (Z.of_nat (p - 1)) by lia.
        rewrite Z2Nat.inj_mul by lia; now rewrite Nat2Z.id.
      - rewrite <- seq_shift, map_map.
        transitivity (concat (map (fun p => firstn (Z.to_nat per_page)
                                     (skipn (p * Z.to_nat per_page) L))
                                  (seq 0 (Z.to_nat total_pages)))).
        + f_equal; apply map_ext; intros p.
          now replace (S p - 1) with p by lia.
        + rewrite chunks_cover; apply firstn_all2.
          rewrite (Permutation_length Hperm).
          apply Nat2Z.inj_le; rewrite Nat2Z.inj_mul, !Z2Nat.id by lia.
          exact H1. }
    rewrite Hall; split; assumption.
Qed.

Lemma insert_row_perm r l : Permutation (insert_row r l) (r :: l).
Proof.
  induction l as [|x l IH]; simpl; [apply Permutation_refl|].
  destruct (str_leb _ _); [apply Permutation_refl|].
  rewrite IH; apply perm_swap.
Qed.

Lemma str_leb_total a : forall b, str_leb a b = false -> str_leb b a = true.
Proof.
  induction a as [|x a IH]; intros [|y b]; simpl; try discriminate;
    try reflexivity.
  destruct (N.ltb_spec x y); [discriminate|].
  destruct (N.ltb_spec y x); [reflexivity|apply IH].
Qed.

Lemma str_leb_trans a : forall b c,
  str_leb a b = true -> str_leb b c = true -> str_leb a c = true.
Proof.
  induction a as [|x a IH]; intros [|y b] [|z c]; simpl; try discriminate;
    try reflexivity.
  destruct (N.ltb_spec x y), (N.ltb_spec y z), (N.ltb_spec x z);
    try reflexivity; try lia;
    destruct (N.ltb_spec y x), (N.ltb_spec z y), (N.ltb_spec z x);
    try discriminate; try lia; try (intros; discriminate).
  apply IH.
Qed.

Lemma insert_row_sorted r l :
  StronglySorted newer_first l -> StronglySorted newer_first (insert_row r l).
Proof.
  induction 1 as [|x l Hl IH Hx]; simpl; [repeat constructor|].
  destruct (str_leb (cv_created_at x) (cv_created_at r)) eqn:Hc.
  - constructor; [now constructor|].
    constructor; [exact Hc|].
    apply Forall_forall; intros y Hy; unfold newer_first.
    apply (@str_leb_trans _ (cv_created_at x)); [|exact Hc].
    exact (proj1 (Forall_forall _ _) Hx y Hy).
  - constructor; [exact IH|].
    apply Forall_forall; intros y Hy.
    apply (Permutation_in _ (insert_row_perm r l)) in Hy.
    destruct Hy as [<-|Hy].
    + unfold newer_first; now apply str_leb_total.
    + exact (proj1 (Forall_forall _ _) Hx y Hy).
Qed.

Lemma sqlite_insertion_orders : orders_newest_first sqlite_insertion.
Proof.
  intros rows; simpl; induction rows as [|r rows [IH1 IH2]]; simpl.
  - split; constructor.
  - split; [|now apply insert_row_sorted].
    rewrite insert_row_perm; now constructor.
Qed.

Lemma pages_list_every_cv_once_witness :
  let shown :=
    concat (map (fun p => page_rows sqlite_insertion five_rows 2
                            (Some (u "file")) (Z.of_nat p))
                (seq 1 (Z.to_nat ((Z.of_nat (length
                   (listed five_rows (Some (u "file")))) + 2 - 1) / 2)))) in
  Permutation shown (listed five_rows (Some (u "file"))) /\
  StronglySorted newer_first shown.
Proof.
  refine (proj2 (proj2 (@pages_list_every_cv_once sqlite_insertion five_rows 2
                          (Some (u "file")) _ _ _))).
  - apply sqlite_insertion_orders.
  - unfold int64_max; lia.
  - unfold int64_max; simpl; lia.
Defined.

(** The pages at the edges, for a page size and a table as above.  A page
    number of 1 or less answers as page 1 does, down to the page whose
    offset leaves the 64 bits, from which on the query raises; a page
    after the last answers with no row, up to the page whose offset leaves
    the 64 bits, from which on the query raises; every page before the last
    is full, and the last holds from one row to a full page. *)
Theorem pages_at_the_edges (Q : Sqlite) (db : list cv_row)
    (per_page : Z) (file_type : option str) (page : Z) :
  orders_newest_first Q ->
  (0 < per_page <= int64_max)%Z ->
  (Z.of_nat (length db) <= int64_max)%Z ->
  let total := Z.of_nat (length (listed db file_type)) in
  let total_pages := ((total + per_page - 1) / per_page)%Z in
  let answer := fun p => get_all_cvs Q db p per_page file_type in
  let offset := ((page - 1) * per_page)%Z in
  ((page <= 1)%Z -> (int64_min <= offset)%Z ->
   answer page = answer 1%Z /\ answer 1%Z <> None) /\
  ((offset < int64_min \/ int64_max < offset)%Z -> answer page = None) /\
  ((total_pages < page)%Z -> (offset <= int64_max)%Z ->
   answer page = Some ([], total, total_pages)) /\
  ((1 <= page < total_pages)%Z ->
   exists cvs, answer page = Some (cvs, total, total_pages) /\
               Z.of_nat (length cvs) = per_page) /\
  (page = total_pages -> (0 < total)%Z ->
   exists cvs, answer page = Some (cvs, total, total_pages) /\
               (1 <= Z.of_nat (length cvs) <= per_page)%Z).
Proof.
  intros HQ Hpp Hdb total total_pages answer offset; unfold answer, offset.
  pose proof (listed_length db file_type) as Hlen.
  destruct (HQ (listed db file_type)) as [Hperm _].
  apply Permutation_length in Hperm.
  rewrite !(get_all_cvs_eq Q db file_type _ Hpp).
  set (L := order_by_created_at_desc Q (listed db file_type)) in *.
  assert (HL : Z.of_nat (length L) = total) by (unfold total; lia).
  fold total total_pages.
  destruct (@pages_bounds total per_page) as (H0 & H1 & H2);
    try (unfold total; lia); fold total_pages in H0, H1, H2.
  assert (Hone : sqlite_int ((1 - 1) * per_page) = true)
    by (apply sqlite_int_iff; unfold int64_min; lia).
  conjs.
  - intros Hp Ho.
    assert (Hs : sqlite_int ((page - 1) * per_page) = true)
      by (apply sqlite_int_iff; nia).
    rewrite Hs, Hone; split; [|discriminate].
    do 4 f_equal.
    replace (Z.to_nat ((page - 1) * per_page)) with 0%nat by nia.
    reflexivity.
  - intros Ho; apply sqlite_int_out in Ho; now rewrite Ho.
  - intros Hp Ho.
    assert (Hs : sqlite_int ((page - 1) * per_page) = true)
      by (apply sqlite_int_iff; unfold int64_min; nia).
    rewrite Hs; do 2 f_equal.
    rewrite skipn_all2; [now rewrite firstn_nil|].
    apply Nat2Z.inj_le; rewrite Z2Nat.id by nia; nia.
  - intros Hp.
    assert (Hs : sqlite_int ((page - 1) * per_page) = true)
      by (apply sqlite_int_iff; unfold int64_min; unfold total in *; nia).
    rewrite Hs; eexists; split; [reflexivity|].
    rewrite length_firstn, length_skipn.
    rewrite Nat2Z.inj_min, Nat2Z.inj_sub, !Z2Nat.id; nia.
  - intros -> Ht.
    assert (1 <= total_pages)%Z by nia.
    assert (Hs : sqlite_int ((total_pages - 1) * per_page) = true)
      by (apply sqlite_int_iff; unfold int64_min; unfold total in *; nia).
    rewrite Hs; eexists; split; [reflexivity|].
    rewrite length_firstn, length_skipn.
    rewrite Nat2Z.inj_min, Nat2Z.inj_sub, !Z2Nat.id; nia.
Qed.

Lemma pages_at_the_edges_witness :
  get_all_cvs sqlite_insertion five_rows 0 2 None
  = get_all_cvs sqlite_insertion five_rows 1 2 None /\
  get_all_cvs sqlite_insertion five_rows 1 2 None <> None.
Proof.
  refine (proj1 (@pages_at_the_edges sqlite_insertion five_rows 2 None 0
                   _ _ _) _ _).
  - apply sqlite_insertion_orders.
  - unfold int64_max; lia.
  - unfold int64_max; simpl; lia.
  - lia.
  - unfold int64_min; lia.
Defined.

(** ** Searching *)

Lemma split_ws_from_nil cur s :
  split_ws_from cur s = [] ->
  cur = [] /\ Forall (fun c => is_space c = true) s.
Proof.
  revert cur; induction s as [|c s IH]; intros cur; simpl.
  - destruct cur; [split; [reflexivity|constructor]|discriminate].
  - destruct (is_space c) eqn:Hc.
    + destruct cur; [|discriminate].
      intros H; destruct (IH _ H) as [_ Hs]; split; [reflexivity|].
      now constructor.
    + intros H; destruct (IH _ H) as [Hcur _]; discriminate.
Qed.


(** ** Name and specialty *)

Section NameAndSpecialty.

Variable U : UCD.

Lemma heuristic1_inv k lines i nm :
  heuristic1 U k lines = Some (i, nm) ->
  exists n line,
    i = (k + Z.of_nat n)%Z /\
    nth_error lines n = Some line /\
    name_of_line U line = Some nm.
Proof.
  revert k; induction lines as [|line lines IH]; intros k; cbn [heuristic1];
    [discriminate|].
  destruct (name_of_line U line) as [nm'|] eqn:Hn.
  - intros H; injection H as <- <-.
    exists 0, line; conjs; [lia|reflexivity|exact Hn].
  - intros H; apply IH in H as (n & line' & -> & Hl & Hnm).
    exists (S n), line'; conjs; [lia|exact Hl|exact Hnm].
Qed.

Lemma name_of_line_inv line nm :
  name_of_line U line = Some nm ->
  2 <= length (split_ws line) <= 3 /\ length line < 50 /\
  has_any skip_words (lower U line) = false /\
  (nm = line \/ nm = title U line \/
   nm = join_space (map (recase_word U) (split_ws line))).
Proof.
  unfold name_of_line.
  destruct (2 <=? length (split_ws line)) eqn:H2; [|discriminate].
  destruct (length (split_ws line) <=? 3) eqn:H3; [|discriminate].
  destruct (length line <? 50) eqn:H50; [|discriminate].
  cbn [andb].
  destruct (has_any skip_words (lower U line)); [discriminate|].
  apply Nat.leb_le in H2, H3; apply Nat.ltb_lt in H50.
  intros H; conjs; try lia; try reflexivity.
  destruct (is_some (re_match U name_pattern1 line));
    [injection H as <-; now left|].
  destruct (is_some (re_match U name_pattern2 line));
    [injection H as <-; right; now left|].
  match type of H with (if ?c then _ else _) = _ => destruct c end;
    [injection H as <-; right; now right|discriminate].
Qed.

Lemma name_without_separator text text_lower :
  heuristic0 U 0 (firstn 10 (stripped_lines text)) = None ->
  fst (name_and_specialty U text text_lower)
  = match heuristic1 U 0 (firstn 15 (stripped_lines text)) with
    | Some (_, nm) => nm
    | None => name default_metadata
    end.
Proof.
  intros H; unfold name_and_specialty; rewrite H.
  change (-1 =? -1)%Z with true; cbv iota.
  destruct (heuristic1 U 0 (firstn 15 (stripped_lines text))) as [[i nm]|];
    repeat match goal with
           | |- context [match ?x with Some _ => _ | None => _ end] =>
             destruct x
           | |- context [if ?c then _ else _] => destruct c
           end; reflexivity.
Qed.

End NameAndSpecialty.

(** The name is read from the head of the document or not at all: it is
    the default "Inconnu", or the left part of a separator on one of the
    first 10 non-blank lines, or it comes from one of the first 15
    non-blank lines, a line of 2 or 3 words and fewer than 50 characters
    without a skip word, taken as it is, in title case, or with its
    upper-case words capitalised. *)
Theorem name_is_read_from_the_head (U : UCD) (E : Env) (text : str) :
  let nm := name (parse_cv_metadata U E text) in
  nm = u "Inconnu" \/
  (exists i line sep tp,
     i < 10 /\ nth_error (stripped_lines text) i = Some line /\
     In sep separators /\ separator_candidate U line sep nm tp) \/
  (exists i line,
     i < 15 /\ nth_error (stripped_lines text) i = Some line /\
     2 <= length (split_ws line) <= 3 /\ length line < 50 /\
     has_any skip_words (lower U line) = false /\
     (nm = line \/ nm = title U line \/
      nm = join_space (map (recase_word U) (split_ws line)))).
Proof.
  cbv zeta; unfold parse_cv_metadata; rewrite parse_with_name.
  destruct (no_content text); [now left|].
  destruct (heuristic0 U 0 (firstn 10 (stripped_lines text)))
    as [[[i nm] osp]|] eqn:H0.
  - right; left.
    destruct (name_and_specialty_heuristic0 U text (lower U text) H0)
      as [-> _].
    apply heuristic0_inv in H0 as (n & line & _ & Hn & Hs & _).
    apply nth_error_firstn_Some in Hn as [Hlt Hn].
    apply first_separator_inv in Hs as (l1 & sep & l2 & Hseps & Ht & _).
    apply try_separator_iff in Ht as (tp & Hc & _).
    exists n, line, sep, tp; conjs; try assumption.
    rewrite Hseps; apply in_or_app; right; now left.
  - rewrite (name_without_separator U text (lower U text) H0).
    destruct (heuristic1 U 0 (firstn 15 (stripped_lines text)))
      as [[i nm]|] eqn:H1; [|now left].
    right; right.
    apply heuristic1_inv in H1 as (n & line & _ & Hn & Hnm).
    apply nth_error_firstn_Some in Hn as [Hlt Hn].
    exists n, line; split; [exact Hlt|split; [exact Hn|]].
    now apply name_of_line_inv.
Qed.

Lemma contains_firstn sub n s :
  contains sub (firstn n s) = true -> contains sub s = true.
Proof.
  rewrite !contains_iff; intros (a & b & H).
  exists a, (b ++ skipn n s).
  rewrite <- (firstn_skipn n s) at 1; rewrite H.
  now rewrite <- !app_assoc.
Qed.

Lemma catalogue_inv (U : UCD) (text_lower spec2 : str) :
  let r := match first_specialty U (firstn 500 text_lower) with
           | Some s => s
           | None => match first_specialty U text_lower with
                     | Some s => s
                     | None => spec2
                     end
           end in
  (In r specialties /\ contains (lower U r) text_lower = true) \/
  (r = spec2 /\
   forall spec, In spec specialties ->
                contains (lower U spec) text_lower = false).
Proof.
  cbv zeta; unfold first_specialty.
  destruct (find _ specialties) as [s|] eqn:Hh.
  - apply find_some in Hh as [Hin Hc]; left; split; [exact Hin|].
    exact (contains_firstn _ _ _ Hc).
  - clear Hh.
    destruct (find (fun spec => contains (lower U spec) text_lower) specialties)
      as [s|] eqn:Hr.
    + apply find_some in Hr as [Hin Hc]; left; now split.
    + right; split; [reflexivity|].
      intros spec Hin; exact (find_none _ _ Hr spec Hin).
Qed.

Lemma title_line_inv (U : UCD) (lines : list str) (first cnt : nat) t :
  find (is_title_line U) (map (fun i => nth i lines []) (seq first cnt))
  = Some t ->
  first + cnt <= length lines ->
  exists i, first <= i /\ nth_error lines i = Some t /\
            is_title_line U t = true.
Proof.
  intros H Hlen; apply find_some in H as [Hin Ht].
  apply in_map_iff in Hin as (i & <- & Hi); apply in_seq in Hi.
  exists i; conjs; [lia| |exact Ht].
  apply nth_error_nth'; lia.
Qed.

Lemma specialty_cases (U : UCD) (text text_lower sp : str) :
  snd (name_and_specialty U text text_lower) = sp ->
  (exists i nm,
     heuristic0 U 0 (firstn 10 (stripped_lines text)) = Some (i, nm, Some sp)) \/
  (exists i, 1 <= i /\ nth_error (stripped_lines text) i = Some sp /\
             is_title_line U sp = true) \/
  (In sp specialties /\ contains (lower U sp) text_lower = true) \/
  (sp = specialty default_metadata /\
   forall spec, In spec specialties ->
                contains (lower U spec) text_lower = false).
Proof.
  unfold name_and_specialty.
  set (lines := stripped_lines text).
  assert (Hafter : forall (idx : Z) (nm : str),
            (0 <= idx)%Z ->
            snd (let '(spec2, found_spec2) :=
                   if negb false && negb (idx =? -1)%Z
                      && (idx + 1 <? Z.of_nat (length lines))%Z then
                     let first := Z.to_nat (idx + 1) in
                     let last := Z.to_nat (Z.min (idx + 4)
                                             (Z.of_nat (length lines))) in
                     match find (is_title_line U)
                             (map (fun i => nth i lines [])
                                  (seq first (last - first))) with
                     | Some t => (t, true)
                     | None => (specialty default_metadata, false)
                     end
                   else (specialty default_metadata, false) in
                 let spec3 :=
                   if negb found_spec2 then
                     match first_specialty U (firstn 500 text_lower) with
                     | Some s => s
                     | None =>
                       match first_specialty U text_lower with
                       | Some s => s
                       | None => spec2
                       end
                     end
                   else spec2 in
                 (nm, spec3)) = sp ->
            (exists i, 1 <= i /\ nth_error lines i = Some sp /\
                       is_title_line U sp = true) \/
            (In sp specialties /\ contains (lower U sp) text_lower = true) \/
            (sp = specialty default_metadata /\
             forall spec, In spec specialties ->
                          contains (lower U spec) text_lower = false)).
  { intros idx nm Hidx; cbv zeta.
    destruct (negb false && negb (idx =? -1)%Z
              && (idx + 1 <? Z.of_nat (length lines))%Z) eqn:Hc.
    - apply andb_prop in Hc as [_ Hc]; apply Z.ltb_lt in Hc.
      destruct (find _ _) as [t|] eqn:Hf; cbn [snd negb].
      + intros <-; left.
        apply title_line_inv in Hf as (i & Hi & Hn & Ht); [|lia].
        exists i; conjs; [lia|exact Hn|exact Ht].
      + intros <-; right.
        exact (catalogue_inv U text_lower (specialty default_metadata)).
    - cbn [snd negb]; intros <-; right.
      exact (catalogue_inv U text_lower (specialty default_metadata)). }
  destruct (heuristic0 U 0 (firstn 10 lines)) as [[[i nm] [sp'|]]|] eqn:H0.
  - assert (Hi : (i =? -1)%Z = false).
    { apply heuristic0_inv in H0 as (n & line & -> & _); apply Z.eqb_neq; lia. }
    rewrite Hi; cbn [negb andb snd]; intros <-; left; now exists i, nm.
  - assert (Hi : (0 <= i)%Z).
    { apply heuristic0_inv in H0 as (n & line & -> & _); lia. }
    replace (i =? -1)%Z with false by (symmetry; apply Z.eqb_neq; lia).
    intros H; right; exact (Hafter i nm Hi H).
  - change (-1 =? -1)%Z with true; cbv iota.
    destruct (heuristic1 U 0 (firstn 15 lines)) as [[i nm]|] eqn:H1.
    + assert (Hi : (0 <= i)%Z).
      { apply heuristic1_inv in H1 as (n & line & -> & _); lia. }
      intros H; right; exact (Hafter i nm Hi H).
    + cbn [negb andb snd]; intros <-; right; right.
      exact (catalogue_inv U text_lower (specialty default_metadata)).
Qed.

(** Where the specialty comes from: the right part of the separator that
    gave the name, when longer than 3 characters; or a line after the name
    that reads like a title; or an entry of the catalogue that stands in
    the lower-cased text; the default "À définir" is left only when no
    entry of the catalogue stands in the text. *)
Theorem specialty_is_found_or_default (U : UCD) (E : Env) (text : str) :
  no_content text = false ->
  let sp := specialty (parse_cv_metadata U E text) in
  let lines := stripped_lines text in
  (exists i line sep nm,
     i < 10 /\ nth_error lines i = Some line /\ In sep separators /\
     separator_candidate U line sep nm sp /\ 3 < length sp) \/
  (exists i, 1 <= i /\ nth_error lines i = Some sp /\
             is_title_line U sp = true) \/
  (In sp specialties /\ contains (lower U sp) (lower U text) = true) \/
  (sp = u "À définir" /\
   forall spec, In spec specialties ->
                contains (lower U spec) (lower U text) = false).
Proof.
  intros Hnc; cbv zeta.
  unfold parse_cv_metadata; rewrite parse_with_specialty, Hnc.
  destruct (@specialty_cases U text (lower U text) _ eq_refl)
    as [(i & nm & H0)|[H|[H|H]]].
  - left.
    apply heuristic0_inv in H0 as (n & line & _ & Hn & Hs & _).
    apply nth_error_firstn_Some in Hn as [Hlt Hn].
    apply first_separator_inv in Hs as (l1 & sep & l2 & Hseps & Ht & _).
    apply try_separator_iff in Ht as (tp & Hc & Hosp).
    destruct (negb (is_empty tp) && (3 <? length tp)) eqn:Hlen;
      [|discriminate].
    injection Hosp as Hosp; rewrite Hosp.
    apply andb_prop in Hlen as [_ Hlen]; apply Nat.ltb_lt in Hlen.
    exists n, line, sep, nm; conjs; try assumption.
    rewrite Hseps; apply in_or_app; right; now left.
  - right; left; exact H.
  - right; right; left; exact H.
  - right; right; right; exact H.
Qed.

Lemma specialty_is_found_or_default_witness :
  let text := u "Jean Dupont" ++ nl ++ u "Data Engineer chez Acme" in
  let sp :=
    specialty (parse_cv_metadata ucd_latin1 (env_at (datetime_of 2026 11 3))
                 text) in
  let lines := stripped_lines text in
  (exists i line sep nm,
     i < 10 /\ nth_error lines i = Some line /\ In sep separators /\
     separator_candidate ucd_latin1 line sep nm sp /\ 3 < length sp) \/
  (exists i, 1 <= i /\ nth_error lines i = Some sp /\
             is_title_line ucd_latin1 sp = true) \/
  (In sp specialties /\
   contains (lower ucd_latin1 sp) (lower ucd_latin1 text) = true) \/
  (sp = u "À définir" /\
   forall spec, In spec specialties ->
                contains (lower ucd_latin1 spec) (lower ucd_latin1 text)
                = false).
Proof.
  refine (@specialty_is_found_or_default ucd_latin1
            (env_at (datetime_of 2026 11 3))
            (u "Jean Dupont" ++ nl ++ u "Data Engineer chez Acme") _).
  vm_compute; reflexivity.
Defined.
